(** * Live Migrator: the native JVMTI heap-walking agent (src/agent/agent.c)

    A shallow embedding of the agent's tag allocator, growable tag buffer,
    heap callbacks, snapshot encoder and the five exported JNI operations,
    followed by the properties stated for them.

    Conventions.
    - [jint], [jlong], [size_t] values are integers of [Z]; every C
      operation that can leave its type's range is followed by the
      corresponding wrap ([to_jint], [to_jlong], [to_uint32], [to_uint64]).
    - A byte ([unsigned char]) is a [Z] in [0, 256).
    - The managed heap is a list of objects, each with its class and its
      JVMTI tag slot; a [jobject] is the position of the object in that list.
      The order of the list, called heap order, is the order in which the
      heap iteration visits the objects; GetObjectsWithTags lists what it
      finds in an order of its own, which the [runtime] gives.
    - The JVM (JNI and JVMTI) is outside the agent: the calls the agent makes
      are modelled by their contract, and the outcomes the agent cannot
      control (class lookup, runtime errors, how the heap iteration reads a
      callback's return value) are fields of the [runtime] record.
    - Memory requests ([realloc], [malloc], [calloc]) succeed or fail as the
      [alloc_plan] of the agent state says, one entry per request; [free] and
      JVMTI's Deallocate have no effect on the model. The memory [malloc]
      returns is not initialised: the output buffer of the snapshot starts
      with the bytes the [runtime] gives.
    - The JNI local references followed are those to heap objects, which
      GetObjectsWithTags hands out; the references to classes (FindClass)
      and to the array an operation returns are not. When an exported
      operation returns, the JVM frees the local references its frame
      still holds ([native_return]).
    - Left out: the diagnostics of [check_print], the [env] argument (never
      NULL), and the bootstrap of agent.c:700-738, of which only its result,
      [g_jvmti], is kept. *)

From Stdlib Require Import String Ascii.
From Stdlib Require Import ZArith List Lia Bool Permutation.
Import ListNotations.
Local Open Scope Z_scope.

(** ** Machine integers *)

Module MachineInt.

Definition to_uint32 (x : Z) : Z := x mod 2 ^ 32.
Definition to_uint64 (x : Z) : Z := x mod 2 ^ 64.
Definition to_jint (x : Z) : Z := (x + 2 ^ 31) mod 2 ^ 32 - 2 ^ 31.
Definition to_jlong (x : Z) : Z := (x + 2 ^ 63) mod 2 ^ 64 - 2 ^ 63.
(** [unsigned char] conversion *)
Definition to_uchar (x : Z) : Z := x mod 256.

Definition INT_MAX : Z := 2 ^ 31 - 1.
Definition JLONG_MAX : Z := 2 ^ 63 - 1.

Definition is_jlong (x : Z) : Prop := - 2 ^ 63 <= x <= JLONG_MAX.

End MachineInt.
Import MachineInt.

(** ** The JVM as the agent sees it *)

(** jvmtiIterationControl, the values the callbacks return (jvmti.h). *)
Definition JVMTI_ITERATION_CONTINUE : Z := 1.
Definition JVMTI_ITERATION_ABORT : Z := 0.

Inductive jvmtiError : Type :=
| JVMTI_ERROR_NONE
| JVMTI_ERROR_OTHER.

Record heap_object : Type := mkObject {
  obj_class : string;   (* internal name of the object's class *)
  obj_tag : Z           (* the JVMTI tag slot, a jlong; 0 is untagged *)
}.

Definition heap_t : Type := list heap_object.

(** A [jobject]: the position of the object in the heap. *)
Definition jobject : Type := nat.

Record runtime : Type := mkRuntime {
  (** IterateThroughHeap stops the iteration after a callback returned this
      value *)
  visit_abort : Z -> bool;
  (** IterateThroughHeap with this class filter reports an error; no object
      is visited *)
  iterate_fails : option string -> bool;
  (** FindClass resolves this internal name *)
  class_found : string -> bool;
  (** GetStringUTFChars on this Java string yields its characters *)
  utf_chars_ok : string -> bool;
  (** GetMethodID(java/lang/Class, getName) *)
  getName_found : bool;
  (** GetObjectsWithTags on these tags reports an error *)
  get_objects_fails : list Z -> bool;
  (** GetObjectClass, Class.getName and GetStringUTFChars for an instance of
      this class: the bytes of the display name, or a failure of one of the
      three *)
  display_name : string -> option (list Z);
  (** NewByteArray / NewObjectArray of this length succeed *)
  new_byte_array_ok : Z -> bool;
  new_object_array_ok : Z -> bool;
  (** The order in which GetObjectsWithTags lists the objects it found, each
      with its tag: JVMTI fixes none, so any rearrangement of them *)
  listing : list (jobject * Z) -> list (jobject * Z);
  listing_perm : forall l, Permutation l (listing l);
  (** The byte at each offset of the memory [malloc] returns for the output
      buffer of the snapshot (agent.c:336), before anything is stored *)
  malloc_bytes : nat -> Z
}.

(** ** Agent state *)

(** The two counters of the tagging scheme (agent.c:37-38), whether the
    JVMTI environment was obtained (agent.c:30), the outcomes of the coming
    memory requests and the JNI local references to heap objects (those
    GetObjectsWithTags handed out) that the frame of the running native
    call holds. *)
Record agent_state : Type := mkState {
  g_jvmti : bool;
  g_epoch : Z;
  g_local_counter : Z;
  alloc_plan : list bool;
  local_refs : list jobject
}.

Definition set_epoch (st : agent_state) (e : Z) : agent_state :=
  mkState (g_jvmti st) e (g_local_counter st) (alloc_plan st) (local_refs st).

Definition set_local_counter (st : agent_state) (c : Z) : agent_state :=
  mkState (g_jvmti st) (g_epoch st) c (alloc_plan st) (local_refs st).

Definition set_alloc_plan (st : agent_state) (p : list bool) : agent_state :=
  mkState (g_jvmti st) (g_epoch st) (g_local_counter st) p (local_refs st).

Definition set_local_refs (st : agent_state) (r : list jobject) : agent_state :=
  mkState (g_jvmti st) (g_epoch st) (g_local_counter st) (alloc_plan st) r.

(** The state after [agent_start] obtained the JVMTI environment: both
    counters hold their static initial value 1 (agent.c:37-38). *)
Definition started_state (plan : list bool) : agent_state :=
  mkState true 1 1 plan [].

(** [realloc], [malloc], [calloc]: one entry of the plan per request. *)
Definition request_memory (st : agent_state) : bool * agent_state :=
  match alloc_plan st with
  | [] => (true, st)
  | ok :: rest => (ok, set_alloc_plan st rest)
  end.

(** [__sync_fetch_and_add(&g_local_counter, 1)] *)
Definition fetch_and_add_local (st : agent_state) : Z * agent_state :=
  (g_local_counter st, set_local_counter st (to_jlong (g_local_counter st + 1))).

(** [__sync_fetch_and_add(&g_epoch, 1)] *)
Definition fetch_and_add_epoch (st : agent_state) : Z * agent_state :=
  (g_epoch st, set_epoch st (to_jlong (g_epoch st + 1))).

(** ** Growable tag buffer (agent.c:57-82) *)

(** [tags] holds the [count] slots written so far, in order; the other
    [capacity - count] slots of the C array are never read. *)
Record tag_collector_t : Type := mkCollector {
  tags : list Z;
  count : Z;
  capacity : Z;
  alloc_failed : Z
}.

(** [memset(&col, 0, sizeof(col))] *)
Definition col_zero : tag_collector_t := mkCollector [] 0 0 0.

Definition tag_add (c : tag_collector_t) (tag : Z) (st : agent_state)
  : Z * tag_collector_t * agent_state :=
  if negb (alloc_failed c =? 0) then (-1, c, st)
  else if count c >=? capacity c then
    let newCap := if capacity c =? 0 then 128 else to_jint (capacity c * 2) in
    let '(ok, st') := request_memory st in
    if negb ok then
      (-1, mkCollector (tags c) (count c) (capacity c) 1, st')
    else
      (0, mkCollector (tags c ++ [tag]) (to_jint (count c + 1)) newCap
            (alloc_failed c), st')
  else
    (0, mkCollector (tags c ++ [tag]) (to_jint (count c + 1)) (capacity c)
          (alloc_failed c), st).

(** ** Heap callbacks (agent.c:87-139) *)

(** A callback receives the content of the visited object's tag slot
    ([None] when [tag_ptr] is NULL) and its user data; it returns its
    iteration-control value, the value it stored through [tag_ptr] (if it
    stored one), the user data and the agent state. *)
Definition heap_callback (U : Type) : Type :=
  option Z -> U -> agent_state -> Z * option Z * U * agent_state.

Definition cb_return {U : Type} (r : Z * option Z * U * agent_state) : Z :=
  fst (fst (fst r)).
Definition cb_stored {U : Type} (r : Z * option Z * U * agent_state)
  : option Z := snd (fst (fst r)).
Definition cb_user {U : Type} (r : Z * option Z * U * agent_state) : U :=
  snd (fst r).

Definition clear_tag_cb : heap_callback unit :=
  fun tag_ptr user_data st =>
    match tag_ptr with
    | Some cur =>
        if negb (cur =? 0) then (JVMTI_ITERATION_CONTINUE, Some 0, user_data, st)
        else (JVMTI_ITERATION_CONTINUE, None, user_data, st)
    | None => (JVMTI_ITERATION_CONTINUE, None, user_data, st)
    end.

(** The identifier of agent.c:129-130. *)
Definition make_tag (epoch local : Z) : Z :=
  to_jlong (Z.lor (Z.shiftl (to_uint32 epoch) 32)
                  (Z.land (to_uint64 local) 0xFFFFFFFF)).

Definition heap_tagging_cb : heap_callback tag_collector_t :=
  fun tag_ptr col st =>
    match tag_ptr with
    | None => (JVMTI_ITERATION_CONTINUE, None, col, st)
    | Some cur =>
        if negb (cur =? 0) then (JVMTI_ITERATION_CONTINUE, None, col, st)
        else
          let '(local, st1) := fetch_and_add_local st in
          let tag := make_tag (g_epoch st1) local in
          let '(rc, col', st2) := tag_add col tag st1 in
          if negb (rc =? 0) then (JVMTI_ITERATION_ABORT, Some tag, col', st2)
          else (JVMTI_ITERATION_CONTINUE, Some tag, col', st2)
    end.

(** ** Heap iteration (JVMTI IterateThroughHeap) *)

Definition store_tag (o : heap_object) (w : option Z) : heap_object :=
  match w with
  | Some v => mkObject (obj_class o) v
  | None => o
  end.

Definition class_matches (klass : option string) (o : heap_object) : bool :=
  match klass with
  | None => true
  | Some k => String.eqb (obj_class o) k
  end.

(** Results of a native operation: a value, NULL, or no defined result
    because the C code stored outside a buffer it allocated. *)
Inductive native_result (A : Type) : Type :=
| Value (a : A)
| Null
| Undefined.

Arguments Value {A} a.
Arguments Null {A}.
Arguments Undefined {A}.

Section Runtime.

Variable rt : runtime.

(** The objects are visited in heap order; only instances of [klass] are
    reported when a class is given. The callback reads and writes the tag
    slot of the visited object. *)
Fixpoint visit_objects {U : Type} (cb : heap_callback U)
    (klass : option string) (objs : heap_t) (u : U) (st : agent_state)
  : heap_t * U * agent_state :=
  match objs with
  | [] => ([], u, st)
  | o :: rest =>
      if class_matches klass o then
        let '(rc, w, u1, st1) := cb (Some (obj_tag o)) u st in
        if visit_abort rt rc then (store_tag o w :: rest, u1, st1)
        else
          let '(rest', u2, st2) := visit_objects cb klass rest u1 st1 in
          (store_tag o w :: rest', u2, st2)
      else
        let '(rest', u2, st2) := visit_objects cb klass rest u st in
        (o :: rest', u2, st2)
  end.

Definition IterateThroughHeap {U : Type} (klass : option string)
    (cb : heap_callback U) (h : heap_t) (u : U) (st : agent_state)
  : jvmtiError * heap_t * U * agent_state :=
  if iterate_fails rt klass then (JVMTI_ERROR_OTHER, h, u, st)
  else
    let '(h', u', st') := visit_objects cb klass h u st in
    (JVMTI_ERROR_NONE, h', u', st').

(** agent.c:144-151 *)
Definition clear_all_tags (h : heap_t) (st : agent_state)
  : heap_t * agent_state :=
  if negb (g_jvmti st) then (h, st)
  else
    let '(_, h', _, st') := IterateThroughHeap None clear_tag_cb h tt st in
    (h', st').

(** ** Tag resolution and local references *)

(** The objects whose tag is one of the requested tags, with their tags,
    enumerated in heap order. *)
Definition objects_with_tags (req : list Z) (h : heap_t)
  : list (jobject * Z) :=
  map (fun io => (fst io, obj_tag (snd io)))
      (filter (fun io => existsb (Z.eqb (obj_tag (snd io))) req)
              (combine (seq 0 (length h)) h)).

(** GetObjectsWithTags: the objects whose tag is one of the [cnt] requested
    tags, with their tags, in the order the JVM lists them. Every object
    returned is a new JNI local reference. *)
Definition GetObjectsWithTags (cnt : Z) (ts : list Z) (h : heap_t)
    (st : agent_state)
  : jvmtiError * Z * option (list jobject) * option (list Z) * agent_state :=
  let req := firstn (Z.to_nat cnt) ts in
  if get_objects_fails rt req then (JVMTI_ERROR_OTHER, 0, None, None, st)
  else
    let r := listing rt (objects_with_tags req h) in
    (JVMTI_ERROR_NONE, Z.of_nat (length r), Some (map fst r),
     Some (map snd r), set_local_refs st (local_refs st ++ map fst r)).

Fixpoint remove_first (x : jobject) (l : list jobject) : list jobject :=
  match l with
  | [] => []
  | y :: l' => if Nat.eqb x y then l' else y :: remove_first x l'
  end.

Definition DeleteLocalRef (obj : jobject) (st : agent_state) : agent_state :=
  set_local_refs st (remove_first obj (local_refs st)).

(** [for (i = 0; i < n; i++) if (objs[i]) DeleteLocalRef(objs[i])] *)
Definition delete_local_refs (objs : list jobject) (st : agent_state)
  : agent_state :=
  fold_left (fun s o => DeleteLocalRef o s) objs st.

(** ** Snapshot encoder (agent.c:349-377) *)

(** [p[off] = v] on a buffer of [length buf] bytes. *)
Definition store_byte (buf : list Z) (off : nat) (v : Z) : option (list Z) :=
  if Nat.ltb off (length buf)
  then Some (firstn off buf ++ v :: skipn (S off) buf)
  else None.

Definition bind_opt {A B : Type} (x : option A) (f : A -> option B)
  : option B :=
  match x with
  | Some a => f a
  | None => None
  end.

Notation "x <- e ;; k" := (bind_opt e (fun x => k))
  (at level 61, e at next level, right associativity).

(** The four stores of agent.c:351-354 and 367-370. *)
Definition put_be32 (buf : list Z) (p : nat) (v : Z) : option (list Z) :=
  b0 <- store_byte buf p (to_uchar (Z.land (Z.shiftr v 24) 0xFF)) ;;
  b1 <- store_byte b0 (p + 1) (to_uchar (Z.land (Z.shiftr v 16) 0xFF)) ;;
  b2 <- store_byte b1 (p + 2) (to_uchar (Z.land (Z.shiftr v 8) 0xFF)) ;;
  store_byte b2 (p + 3) (to_uchar (Z.land v 0xFF)).

(** The loop of agent.c:360-363, [b] running from [n - 1] down to 0. *)
Fixpoint put_be64_from (n : nat) (buf : list Z) (p : nat) (ut : Z)
  : option (list Z) :=
  match n with
  | O => Some buf
  | S b =>
      buf' <- store_byte buf (p + b) (to_uchar (Z.land ut 0xFF)) ;;
      put_be64_from b buf' p (to_uint64 (Z.shiftr ut 8))
  end.

Definition put_be64 (buf : list Z) (p : nat) (t : Z) : option (list Z) :=
  put_be64_from 8 buf p (to_uint64 t).

(** [memcpy(p, src, l)]: [l] bytes are read from [src]. *)
Fixpoint store_bytes (buf : list Z) (p : nat) (src : list Z)
  : option (list Z) :=
  match src with
  | [] => Some buf
  | b :: src' =>
      buf' <- store_byte buf p b ;;
      store_bytes buf' (S p) src'
  end.

Definition memcpy (buf : list Z) (p : nat) (src : list Z) (l : Z)
  : option (list Z) :=
  if Nat.leb (Z.to_nat l) (length src)
  then store_bytes buf p (firstn (Z.to_nat l) src)
  else None.

(** The record loop of agent.c:357-377, [n] iterations from index [i]. *)
Fixpoint encode_records (n : nat) (i : nat) (tagsOut : option (list Z))
    (lens : list Z) (names : list (option (list Z)))
    (buf : list Z) (p : nat) : option (list Z * nat) :=
  match n with
  | O => Some (buf, p)
  | S n' =>
      t <- match tagsOut with
           | Some ts => nth_error ts i
           | None => Some 0
           end ;;
      buf1 <- put_be64 buf p t ;;
      l <- nth_error lens i ;;
      buf2 <- put_be32 buf1 (p + 8) l ;;
      nm <- nth_error names i ;;
      match nm with
      | Some src =>
          if l >? 0 then
            buf3 <- memcpy buf2 (p + 12) src l ;;
            encode_records n' (S i) tagsOut lens names buf3
                           (p + 12 + Z.to_nat l)
          else encode_records n' (S i) tagsOut lens names buf2 (p + 12)
      | None => encode_records n' (S i) tagsOut lens names buf2 (p + 12)
      end
  end.

(** agent.c:349-377: the count, then the records. *)
Definition encode_snapshot (found : Z) (tagsOut : option (list Z))
    (lens : list Z) (names : list (option (list Z))) (buf : list Z)
  : option (list Z) :=
  buf0 <- put_be32 buf 0 found ;;
  r <- encode_records (Z.to_nat found) 0 tagsOut lens names buf0 4 ;;
  Some (fst r).

(** ** nativeSnapshotBytes (agent.c:167-411) *)

(** [malloc(n)] for the output buffer (agent.c:336): [n] bytes that are not
    initialised. *)
Definition malloc_buffer (n : nat) : list Z :=
  map (fun i => to_uchar (malloc_bytes rt i)) (seq 0 n).

(** agent.c:202-214: resolution of the collected tags. *)
Definition resolve_collected (col : tag_collector_t) (h : heap_t)
    (st : agent_state)
  : Z * option (list jobject) * option (list Z) * agent_state :=
  if count col >? 0 then
    let '(err, found, objects, tagsOut, st') :=
      GetObjectsWithTags (count col) (tags col) h st in
    match err with
    | JVMTI_ERROR_NONE => (found, objects, tagsOut, st')
    | JVMTI_ERROR_OTHER => (0, None, None, st')
    end
  else (0, None, None, st).

(** [objects[0 .. found)] *)
Definition first_objects (found : Z) (objects : option (list jobject))
  : list jobject :=
  match objects with
  | Some l => firstn (Z.to_nat found) l
  | None => []
  end.

(** agent.c:252-321: the name of each resolved object. [names] and [lens]
    are the entries filled so far and [total] the size computed so far; the
    result is [None] when the copy of a name could not be allocated
    (agent.c:293-307). The references returned by GetObjectsWithTags are
    never NULL, so the branch of agent.c:254-258 is not taken. *)
Fixpoint resolve_names (h : heap_t) (objects : list jobject)
    (names : list (option (list Z))) (lens : list Z) (total : Z)
    (st : agent_state)
  : option (list (option (list Z)) * list Z * Z) * agent_state :=
  match objects with
  | [] => (Some (names, lens, total), st)
  | obj :: rest =>
      match bind_opt (nth_error h obj)
                     (fun o => display_name rt (obj_class o)) with
      | None =>
          resolve_names h rest (names ++ [None]) (lens ++ [0]) total
                        (DeleteLocalRef obj st)
      | Some cn =>
          let len := to_jint (Z.of_nat (length cn)) in
          if len >? 0 then
            let '(ok, st1) := request_memory st in
            if negb ok then (None, DeleteLocalRef obj st1)
            else
              resolve_names h rest
                (names ++ [Some (firstn (Z.to_nat len) cn)]) (lens ++ [len])
                (to_uint64 (total + 8 + 4 + to_uint64 len))
                (DeleteLocalRef obj st1)
          else
            resolve_names h rest (names ++ [None]) (lens ++ [len])
              (to_uint64 (total + 8 + 4 + to_uint64 len))
              (DeleteLocalRef obj st)
      end
  end.

(** agent.c:233-250: [calloc] of [names] and [lens]. *)
Definition allocate_name_arrays (found : Z) (st : agent_state)
  : bool * agent_state :=
  if found >? 0 then
    let '(ok1, st1) := request_memory st in
    let '(ok2, st2) := request_memory st1 in
    (ok1 && ok2, st2)
  else (true, st).

Definition Java_migrator_heap_NativeHeapWalker_nativeSnapshotBytes
    (jClassName : option string) (h : heap_t) (st : agent_state)
  : native_result (list Z) * heap_t * agent_state :=
  match jClassName with
  | None => (Null, h, st)
  | Some className =>
  if negb (g_jvmti st) then (Null, h, st) else
  let '(h1, st1) := clear_all_tags h st in
  let st2 := set_local_counter st1 1 in
  if negb (utf_chars_ok rt className) then (Null, h1, st2) else
  if negb (class_found rt className) then (Null, h1, st2) else
  let '(_, h2, col, st3) :=
    IterateThroughHeap (Some className) heap_tagging_cb h1 col_zero st2 in
  let '(found, objects, tagsOut, st4) := resolve_collected col h2 st3 in
  if negb (class_found rt "java/lang/Class") then (Null, h2, st4) else
  if negb (getName_found rt) then (Null, h2, st4) else
  let '(arrays_ok, st5) := allocate_name_arrays found st4 in
  if negb arrays_ok then (Null, h2, st5) else
  let '(resolved, st6) :=
    resolve_names h2 (first_objects found objects) [] [] 4 st5 in
  match resolved with
  | None => (Null, h2, st6)
  | Some (names, lens, total) =>
      if total >? INT_MAX then (Null, h2, st6) else
      let '(ok, st7) := request_memory st6 in
      if negb ok then (Null, h2, st7) else
      match encode_snapshot found tagsOut lens names
                            (malloc_buffer (Z.to_nat total)) with
      | None => (Undefined, h2, st7)
      | Some bytes =>
          if negb (new_byte_array_ok rt total) then (Null, h2, st7)
          else (Value bytes, h2, st7)
      end
  end
  end.

(** ** nativeResolve (agent.c:419-452) *)

Definition Java_migrator_heap_NativeHeapWalker_nativeResolve
    (tag : Z) (h : heap_t) (st : agent_state)
  : native_result jobject * agent_state :=
  if negb (g_jvmti st) then (Null, st) else
  let '(err, cnt, objs, _, st1) := GetObjectsWithTags 1 [tag] h st in
  match err with
  | JVMTI_ERROR_OTHER => (Null, st1)
  | JVMTI_ERROR_NONE =>
      match objs with
      | Some (res :: others) =>
          if cnt >? 0
          then (Value res,
                delete_local_refs (firstn (Z.to_nat cnt - 1) others) st1)
          else (Null, st1)
      | _ => (Null, st1)
      end
  end.

(** ** nativeWalkHeap (agent.c:459-531) *)

Definition Java_migrator_heap_NativeHeapWalker_nativeWalkHeap
    (h : heap_t) (st : agent_state)
  : native_result (list jobject) * heap_t * agent_state :=
  if negb (g_jvmti st) then (Null, h, st) else
  let '(h1, st1) := clear_all_tags h st in
  let st2 := set_local_counter st1 1 in
  let '(_, h2, col, st3) :=
    IterateThroughHeap None heap_tagging_cb h1 col_zero st2 in
  if count col <=? 0 then (Null, h2, st3) else
  let '(err, found, objects, _, st4) :=
    GetObjectsWithTags (count col) (tags col) h2 st3 in
  match err with
  | JVMTI_ERROR_OTHER => (Null, h2, st4)
  | JVMTI_ERROR_NONE =>
      if negb (class_found rt "java/lang/Object") then (Null, h2, st4) else
      if negb (new_object_array_ok rt found) then (Null, h2, st4) else
      let objs := first_objects found objects in
      (Value objs, h2, delete_local_refs objs st4)
  end.

(** ** nativeWalkHeapFiltered (agent.c:540-682) *)

(** The loop over the class names (agent.c:555-649). [collected],
    [collectedCount] and [collectedCap] are the reference buffer; the result
    is [None] when the loop left the function through agent.c:618-628. *)
Fixpoint walk_classes (classNames : list (option string)) (h : heap_t)
    (st : agent_state) (collected : list jobject)
    (collectedCount collectedCap : Z)
  : option (list jobject * Z * Z) * heap_t * agent_state :=
  match classNames with
  | [] => (Some (collected, collectedCount, collectedCap), h, st)
  | None :: rest =>
      walk_classes rest h st collected collectedCount collectedCap
  | Some cname :: rest =>
      if negb (utf_chars_ok rt cname)
      then walk_classes rest h st collected collectedCount collectedCap
      else if negb (class_found rt cname)
      then walk_classes rest h st collected collectedCount collectedCap
      else
        let '(_, st1) := fetch_and_add_epoch st in
        let st2 := set_local_counter st1 1 in
        let '(err, h1, col, st3) :=
          IterateThroughHeap (Some cname) heap_tagging_cb h col_zero st2 in
        match err with
        | JVMTI_ERROR_OTHER =>
            walk_classes rest h1 st3 collected collectedCount collectedCap
        | JVMTI_ERROR_NONE =>
            if count col <=? 0
            then walk_classes rest h1 st3 collected collectedCount collectedCap
            else
              let '(err2, found, objs, _, st4) :=
                GetObjectsWithTags (count col) (tags col) h1 st3 in
              match err2, objs with
              | JVMTI_ERROR_NONE, Some os =>
                  if found >? 0 then
                    let batch := firstn (Z.to_nat found) os in
                    if to_jint (collectedCount + found) >? collectedCap then
                      let newCap :=
                        if collectedCap =? 0 then to_jint (found + 64)
                        else to_jint (to_jint (collectedCap * 2) + found) in
                      let '(ok, st5) := request_memory st4 in
                      if negb ok
                      then (None, h1, delete_local_refs batch st5)
                      else
                        walk_classes rest h1 st5 (collected ++ batch)
                          (to_jint (collectedCount + found)) newCap
                    else
                      walk_classes rest h1 st4 (collected ++ batch)
                        (to_jint (collectedCount + found)) collectedCap
                  else
                    walk_classes rest h1 st4 collected collectedCount
                                 collectedCap
              | _, _ =>
                  walk_classes rest h1 st4 collected collectedCount
                               collectedCap
              end
        end
  end.

Definition Java_migrator_heap_NativeHeapWalker_nativeWalkHeapFiltered
    (classNamesArray : option (list (option string))) (h : heap_t)
    (st : agent_state)
  : native_result (list jobject) * heap_t * agent_state :=
  match classNamesArray with
  | None => (Null, h, st)
  | Some classNames =>
  if negb (g_jvmti st) then (Null, h, st) else
  if Z.of_nat (length classNames) =? 0 then (Null, h, st) else
  let '(r, h1, st1) := walk_classes classNames h st [] 0 0 in
  match r with
  | None => (Null, h1, st1)
  | Some (collected, collectedCount, _) =>
      if collectedCount =? 0 then (Null, h1, st1) else
      let held := firstn (Z.to_nat collectedCount) collected in
      if negb (class_found rt "java/lang/Object")
      then (Null, h1, delete_local_refs held st1) else
      if negb (new_object_array_ok rt collectedCount)
      then (Null, h1, delete_local_refs held st1) else
      (Value held, h1, delete_local_refs held st1)
  end
  end.

(** ** nativeAdvanceEpoch (agent.c:688-695) *)

Definition Java_migrator_heap_NativeHeapWalker_nativeAdvanceEpoch
    (st : agent_state) : agent_state :=
  snd (fetch_and_add_epoch st).

(** ** The exported operations as transitions of the process *)

Inductive native_call : Type :=
| SnapshotBytes (jClassName : option string)
| Resolve (tag : Z)
| WalkHeap
| WalkHeapFiltered (classNamesArray : option (list (option string)))
| AdvanceEpoch.

(** The return of an exported operation to its Java caller: the JVM pops
    the frame of the native call and frees the local references it still
    holds. *)
Definition native_return (st : agent_state) : agent_state :=
  set_local_refs st [].

Definition run_call (c : native_call) (hs : heap_t * agent_state)
  : heap_t * agent_state :=
  let '(h, st) := hs in
  match c with
  | SnapshotBytes n =>
      let '(_, h', st') :=
        Java_migrator_heap_NativeHeapWalker_nativeSnapshotBytes n h st in
      (h', native_return st')
  | Resolve t =>
      (h, native_return
            (snd (Java_migrator_heap_NativeHeapWalker_nativeResolve t h st)))
  | WalkHeap =>
      let '(_, h', st') :=
        Java_migrator_heap_NativeHeapWalker_nativeWalkHeap h st in
      (h', native_return st')
  | WalkHeapFiltered a =>
      let '(_, h', st') :=
        Java_migrator_heap_NativeHeapWalker_nativeWalkHeapFiltered a h st in
      (h', native_return st')
  | AdvanceEpoch =>
      (h, native_return
            (Java_migrator_heap_NativeHeapWalker_nativeAdvanceEpoch st))
  end.

Definition run_calls (cs : list native_call) (hs : heap_t * agent_state)
  : heap_t * agent_state :=
  fold_left (fun s c => run_call c s) cs hs.

End Runtime.

(** ** Notions used by the statements *)

(** An object the tagging callback gives an identifier to when it visits
    it: an untagged instance of the class the iteration is restricted to. *)
Definition eligible (klass : option string) (o : heap_object) : bool :=
  class_matches klass o && (obj_tag o =? 0).

Definition eligible_count (klass : option string) (h : heap_t) : nat :=
  length (filter (eligible klass) h).

(** The object was untagged before the pass and carries a tag after it. *)
Definition received_tag (o o' : heap_object) : bool :=
  (obj_tag o =? 0) && negb (obj_tag o' =? 0).

(** Number of objects tagged by a pass that turned heap [h] into [h']. *)
Fixpoint tagged_count (h h' : heap_t) : nat :=
  match h, h' with
  | o :: r, o' :: r' =>
      ((if received_tag o o' then 1 else 0) + tagged_count r r')%nat
  | _, _ => 0%nat
  end.

(** [tagging klass e k h h' k']: [h'] is [h] where some of the eligible
    objects carry, in heap order, the identifiers made from epoch [e] and
    the successive counter values [k], [k + 1], ... below [k']; the other
    objects are as they were. *)
Inductive tagging (klass : option string) (e : Z)
  : Z -> heap_t -> heap_t -> Z -> Prop :=
| tagging_nil k : tagging klass e k [] [] k
| tagging_keep k o os os' k' :
    tagging klass e k os os' k' ->
    tagging klass e k (o :: os) (o :: os') k'
| tagging_issue k o os os' k' :
    eligible klass o = true ->
    tagging klass e (k + 1) os os' k' ->
    tagging klass e k (o :: os)
            (mkObject (obj_class o) (make_tag e k) :: os') k'.

(** The object with its tag slot cleared. *)
Definition untag (o : heap_object) : heap_object := mkObject (obj_class o) 0.

(** The heap after a pass that visited every object: each eligible object
    carries the identifier of the next counter value. *)
Fixpoint tag_all (klass : option string) (e k : Z) (h : heap_t) : heap_t :=
  match h with
  | [] => []
  | o :: r =>
      if eligible klass o
      then mkObject (obj_class o) (make_tag e k) :: tag_all klass e (k + 1) r
      else o :: tag_all klass e k r
  end.

(** The wire format in the words of the specification: a 4-byte big-endian
    unsigned count, then per record an 8-byte big-endian identifier, a
    4-byte big-endian name length and the name bytes. A record is an
    identifier with the bytes of a class name. *)
Fixpoint be_bytes (n : nat) (v : Z) : list Z :=
  match n with
  | O => []
  | S m => (v / 256 ^ Z.of_nat m) mod 256 :: be_bytes m v
  end.

Definition record_layout (r : Z * list Z) : list Z :=
  be_bytes 8 (to_uint64 (fst r)) ++
  be_bytes 4 (Z.of_nat (length (snd r))) ++ snd r.

Definition snapshot_layout (records : list (Z * list Z)) : list Z :=
  be_bytes 4 (Z.of_nat (length records)) ++
  concat (map record_layout records).

(** The [names] entry of a record as agent.c:290-313 leaves it: the copy of
    the name, NULL for an empty one. *)
Definition name_entry (r : Z * list Z) : option (list Z) :=
  match snd r with
  | [] => None
  | _ :: _ => Some (snd r)
  end.

(** The bytes of the display name of the class of [obj]; no bytes when the
    name cannot be read. *)
Definition name_bytes (rt : runtime) (h : heap_t) (obj : jobject) : list Z :=
  match bind_opt (nth_error h obj) (fun o => display_name rt (obj_class o)) with
  | Some cn => cn
  | None => []
  end.

(** The name of the class of [obj] can be read and is shorter than 2^31
    bytes. *)
Definition readable (rt : runtime) (h : heap_t) (obj : jobject) : Prop :=
  bind_opt (nth_error h obj) (fun o => display_name rt (obj_class o)) <> None /\
  Z.of_nat (length (name_bytes rt h obj)) < 2 ^ 31.

(** The records of a snapshot: the resolved tags with the names of the
    resolved objects. *)
Definition snapshot_records (rt : runtime) (h : heap_t)
    (resolved : list (jobject * Z)) : list (Z * list Z) :=
  map (fun ot => (snd ot, name_bytes rt h (fst ot))) resolved.

(** Upper bound on the epoch increments of a call. *)
Definition max_bumps (c : native_call) : Z :=
  match c with
  | AdvanceEpoch => 1
  | WalkHeapFiltered (Some names) => Z.of_nat (length names)
  | _ => 0
  end.

Definition total_bumps (cs : list native_call) : Z :=
  fold_right (fun c n => max_bumps c + n) 0 cs.

(** The identifiers a pass that visits every object and never fails to
    append collects, in heap order. *)
Fixpoint issued_tags (klass : option string) (e k : Z) (h : heap_t)
  : list Z :=
  match h with
  | [] => []
  | o :: r =>
      if eligible klass o
      then make_tag e k :: issued_tags klass e (k + 1) r
      else issued_tags klass e k r
  end.

(** The tag buffer as [tag_add] keeps it: [count] slots are written, they
    fit the capacity, and the capacity is 0 or 128 doubled some times and
    at most twice the count (or 128). *)
Definition collector_ok (c : tag_collector_t) : Prop :=
  count c = Z.of_nat (length (tags c)) /\
  count c <= capacity c /\
  (capacity c = 0 \/ exists n : nat, capacity c = 128 * 2 ^ Z.of_nat n) /\
  capacity c <= Z.max 128 (2 * count c) /\
  (alloc_failed c = 0 \/ alloc_failed c = 1).

(** Every coming memory request succeeds. *)
Definition plan_succeeds (st : agent_state) : Prop :=
  Forall (fun ok => ok = true) (alloc_plan st).

(** The class name is read and resolved: the loop of the multi-class walk
    runs a pass for it. *)
Definition resolvable (rt : runtime) (jName : option string) : bool :=
  match jName with
  | Some cname => utf_chars_ok rt cname && class_found rt cname
  | None => false
  end.

Definition resolvable_count (rt : runtime) (classNames : list (option string))
  : nat :=
  length (filter (resolvable rt) classNames).

(** Number of instances of a class in the heap. *)
Definition instances (className : string) (h : heap_t) : nat :=
  length (filter (fun o => String.eqb (obj_class o) className) h).

(** The records of a snapshot of [n] instances of a class whose name has
    the bytes [cn], taken in epoch [e]: the identifiers [e:1] .. [e:n], each
    with the name. *)
Definition class_records (e : Z) (cn : list Z) (n : nat)
  : list (Z * list Z) :=
  map (fun k => (make_tag e (Z.of_nat k), cn)) (seq 1 n).

(** ** Concrete runtimes and inputs *)

Definition string_bytes (s : string) : list Z :=
  map (fun a => Z.of_nat (nat_of_ascii a)) (list_ascii_of_string s).

(** A JVM in which every request of the agent succeeds, the display name
    of a class is its internal name, the heap iteration stops exactly
    when a callback returns JVMTI_ITERATION_ABORT, GetObjectsWithTags
    lists the objects in heap order and fresh memory holds the byte A5. *)
Definition cooperative_runtime : runtime :=
  mkRuntime (Z.eqb JVMTI_ITERATION_ABORT) (fun _ => false) (fun _ => true)
            (fun _ => true) true (fun _ => false)
            (fun c => Some (string_bytes c))
            (fun _ => true) (fun _ => true)
            (fun l => l) (fun l => Permutation_refl l) (fun _ => 0xA5).

(** The JVM of [cooperative_runtime], except that the heap iteration reads
    a callback's return value as JVMTI's visit control flags: it stops when
    the bit JVMTI_VISIT_ABORT (0x8000) is set, so on neither of the two
    values the callbacks return. *)
Definition visit_flags_runtime : runtime :=
  mkRuntime (fun rc => Z.testbit rc 15) (fun _ => false) (fun _ => true)
            (fun _ => true) true (fun _ => false)
            (fun c => Some (string_bytes c))
            (fun _ => true) (fun _ => true)
            (fun l => l) (fun l => Permutation_refl l) (fun _ => 0xA5).

(** The JVM of [cooperative_runtime], except that java/lang/Object cannot
    be resolved. *)
Definition runtime_without_object_class : runtime :=
  mkRuntime (Z.eqb JVMTI_ITERATION_ABORT) (fun _ => false)
            (fun c => negb (String.eqb c "java/lang/Object"))
            (fun _ => true) true (fun _ => false)
            (fun c => Some (string_bytes c))
            (fun _ => true) (fun _ => true)
            (fun l => l) (fun l => Permutation_refl l) (fun _ => 0xA5).

(** The JVM of [cooperative_runtime], except that GetObjectsWithTags lists
    the objects in the reverse of the heap order. *)
Definition reversed_listing_runtime : runtime :=
  mkRuntime (Z.eqb JVMTI_ITERATION_ABORT) (fun _ => false) (fun _ => true)
            (fun _ => true) true (fun _ => false)
            (fun c => Some (string_bytes c)) (fun _ => true) (fun _ => true)
            (@rev _) (fun l => Permutation_rev l) (fun _ => 0xA5).

(** The JVM of [cooperative_runtime], except that no class name can be
    read. *)
Definition runtime_unreadable_names : runtime :=
  mkRuntime (Z.eqb JVMTI_ITERATION_ABORT) (fun _ => false) (fun _ => true)
            (fun _ => true) true (fun _ => false)
            (fun _ => None)
            (fun _ => true) (fun _ => true)
            (fun l => l) (fun l => Permutation_refl l) (fun _ => 0xA5).

(** 129 untagged instances of class A; the first growth of the tag buffer
    (to 128 slots) succeeds and the second, at the 129th append, fails. *)
Definition heap_129 : heap_t := repeat (mkObject "A" 0) 129.
Definition plan_fail_second : list bool := [true; false].

(** The identifiers 1:1 .. 1:128 with the name of class A. *)
Definition records_128 : list (Z * list Z) :=
  map (fun k => (make_tag 1 (Z.of_nat k), string_bytes "A")) (seq 1 128).


Definition heap_a_c_b : heap_t :=
  [mkObject "A" 0; mkObject "C" 0; mkObject "B" 0; mkObject "A" 5].

Definition names_a_b : list (option string) :=
  [Some "A"%string; None; Some "B"%string].

Definition heap_a_c_b_walked : heap_t :=
  [mkObject "A" 8589934593; mkObject "C" 0; mkObject "B" 12884901889;
   mkObject "A" 5].

(** The JVM of [cooperative_runtime], except that every class has the
    display name "A". *)
Definition runtime_constant_name : runtime :=
  mkRuntime (Z.eqb JVMTI_ITERATION_ABORT) (fun _ => false) (fun _ => true)
            (fun _ => true) true (fun _ => false)
            (fun _ => Some [65])
            (fun _ => true) (fun _ => true)
            (fun l => l) (fun l => Permutation_refl l) (fun _ => 0xA5).

(** * Properties *)

(** ** Identifier arithmetic *)

Lemma mask32_ones : 0xFFFFFFFF = Z.ones 32.
Proof. reflexivity. Qed.

Lemma land_shiftl32_low (a b : Z) :
  0 <= b < 2 ^ 32 -> Z.land (Z.shiftl a 32) b = 0.
Proof.
  intros Hb. apply Z.bits_inj'. intros n Hn.
  rewrite Z.land_spec, Z.bits_0.
  destruct (Z.lt_ge_cases n 32) as [Hlt | Hge].
  - rewrite Z.shiftl_spec_low by lia. reflexivity.
  - replace b with (b mod 2 ^ 32) by (apply Z.mod_small; lia).
    rewrite Z.mod_pow2_bits_high by lia. apply andb_false_r.
Qed.

Lemma lor_shiftl32 (a b : Z) :
  0 <= b < 2 ^ 32 -> Z.lor (Z.shiftl a 32) b = a * 2 ^ 32 + b.
Proof.
  intros Hb.
  rewrite <- Z.lxor_lor by (apply land_shiftl32_low; exact Hb).
  rewrite <- Z.add_nocarry_lxor by (apply land_shiftl32_low; exact Hb).
  rewrite Z.shiftl_mul_pow2 by lia. reflexivity.
Qed.

Lemma to_uint64_to_jlong (x : Z) : to_uint64 (to_jlong x) = to_uint64 x.
Proof.
  unfold to_uint64, to_jlong.
  rewrite Zminus_mod, Zmod_mod, <- Zminus_mod.
  replace (x + 2 ^ 63 - 2 ^ 63) with x by lia. reflexivity.
Qed.

Lemma to_jlong_small (x : Z) : is_jlong x -> to_jlong x = x.
Proof.
  unfold is_jlong, JLONG_MAX, to_jlong. intros H.
  rewrite Z.mod_small by lia. lia.
Qed.

Lemma to_jlong_range (x : Z) : is_jlong (to_jlong x).
Proof.
  unfold is_jlong, JLONG_MAX, to_jlong.
  pose proof (Z.mod_pos_bound (x + 2 ^ 63) (2 ^ 64) ltac:(lia)). lia.
Qed.

Lemma mod32_to_jlong (x : Z) : to_jlong x mod 2 ^ 32 = x mod 2 ^ 32.
Proof.
  unfold to_jlong.
  pose proof (Z.div_mod (x + 2 ^ 63) (2 ^ 64) ltac:(lia)) as H.
  replace ((x + 2 ^ 63) mod 2 ^ 64 - 2 ^ 63)
    with (x + (- ((x + 2 ^ 63) / 2 ^ 64) * 2 ^ 32) * 2 ^ 32) by lia.
  apply Z.mod_add. lia.
Qed.

Lemma mod32_to_uint64 (x : Z) : to_uint64 x mod 2 ^ 32 = x mod 2 ^ 32.
Proof.
  unfold to_uint64.
  pose proof (Z.div_mod x (2 ^ 64) ltac:(lia)) as H.
  replace (x mod 2 ^ 64) with (x + (- (x / 2 ^ 64) * 2 ^ 32) * 2 ^ 32) by lia.
  apply Z.mod_add. lia.
Qed.

(** The identifier as an unsigned 64-bit value. *)
Lemma make_tag_unsigned (e l : Z) :
  to_uint64 (make_tag e l) = (e mod 2 ^ 32) * 2 ^ 32 + l mod 2 ^ 32.
Proof.
  unfold make_tag. rewrite to_uint64_to_jlong.
  rewrite mask32_ones, Z.land_ones by lia. rewrite mod32_to_uint64.
  unfold to_uint32.
  pose proof (Z.mod_pos_bound e (2 ^ 32) ltac:(lia)) as He.
  pose proof (Z.mod_pos_bound l (2 ^ 32) ltac:(lia)) as Hl.
  rewrite lor_shiftl32 by lia.
  unfold to_uint64. apply Z.mod_small. nia.
Qed.

Lemma make_tag_low (e l : Z) : make_tag e l mod 2 ^ 32 = l mod 2 ^ 32.
Proof.
  rewrite <- mod32_to_uint64, make_tag_unsigned.
  rewrite Z.add_comm, Z.mod_add by lia. apply Z.mod_mod. lia.
Qed.

Lemma make_tag_to_jlong (e l : Z) : make_tag e (to_jlong l) = make_tag e l.
Proof.
  unfold make_tag. do 2 f_equal.
  rewrite !mask32_ones, !Z.land_ones by lia.
  rewrite !mod32_to_uint64. apply mod32_to_jlong.
Qed.

Lemma make_tag_nonzero (e l : Z) :
  l mod 2 ^ 32 <> 0 \/ e mod 2 ^ 32 <> 0 -> make_tag e l <> 0.
Proof.
  intros H Habs.
  pose proof (make_tag_unsigned e l) as Hu. rewrite Habs in Hu.
  unfold to_uint64 in Hu. rewrite Z.mod_0_l in Hu by lia.
  pose proof (Z.mod_pos_bound e (2 ^ 32) ltac:(lia)) as He.
  pose proof (Z.mod_pos_bound l (2 ^ 32) ltac:(lia)) as Hl.
  nia.
Qed.

Lemma make_tag_inj (e l1 l2 : Z) :
  make_tag e l1 = make_tag e l2 -> l1 mod 2 ^ 32 = l2 mod 2 ^ 32.
Proof.
  intros H. rewrite <- (make_tag_low e l1), <- (make_tag_low e l2), H.
  reflexivity.
Qed.

(** ** The tag buffer and the tagging callback *)

Lemma tagging_refl klass e k os : tagging klass e k os os k.
Proof. induction os; constructor; assumption. Qed.

Lemma request_memory_frame st :
  g_jvmti (snd (request_memory st)) = g_jvmti st /\
  g_epoch (snd (request_memory st)) = g_epoch st /\
  g_local_counter (snd (request_memory st)) = g_local_counter st /\
  local_refs (snd (request_memory st)) = local_refs st.
Proof.
  unfold request_memory. destruct (alloc_plan st); simpl; auto.
Qed.

Lemma tag_add_cases c t st rc c' st' :
  tag_add c t st = (rc, c', st') ->
  (g_jvmti st' = g_jvmti st /\ g_epoch st' = g_epoch st /\
   g_local_counter st' = g_local_counter st /\
   local_refs st' = local_refs st) /\
  ((rc = 0 /\ alloc_failed c = 0 /\ alloc_failed c' = 0 /\
    tags c' = tags c ++ [t]) \/
   (rc = -1 /\ alloc_failed c' <> 0 /\ tags c' = tags c /\
    count c' = count c)).
Proof.
  unfold tag_add. intros H.
  destruct (alloc_failed c =? 0) eqn:Hf; simpl in H.
  - apply Z.eqb_eq in Hf.
    destruct (count c >=? capacity c).
    + pose proof (request_memory_frame st) as Hm.
      destruct (request_memory st) as [ok st1]. simpl in Hm.
      destruct ok; simpl in H; inversion H; subst; clear H; simpl;
        (split; [tauto|]); [left | right]; repeat split; auto; lia.
    + inversion H; subst; clear H; simpl. split; [tauto|].
      left; repeat split; auto.
  - apply Z.eqb_neq in Hf. inversion H; subst; clear H.
    split; [tauto|]. right; repeat split; auto.
Qed.

(** What the tagging callback does on an untagged slot. *)
Lemma heap_tagging_cb_untagged col st rc w col' st' :
  heap_tagging_cb (Some 0) col st = (rc, w, col', st') ->
  w = Some (make_tag (g_epoch st) (g_local_counter st)) /\
  g_jvmti st' = g_jvmti st /\ g_epoch st' = g_epoch st /\
  g_local_counter st' = to_jlong (g_local_counter st + 1) /\
  local_refs st' = local_refs st /\
  ((rc = JVMTI_ITERATION_CONTINUE /\ alloc_failed col = 0 /\
    alloc_failed col' = 0 /\
    tags col' = tags col ++ [make_tag (g_epoch st) (g_local_counter st)]) \/
   (rc = JVMTI_ITERATION_ABORT /\ alloc_failed col' <> 0 /\
    tags col' = tags col /\ count col' = count col)).
Proof.
  unfold heap_tagging_cb, fetch_and_add_local. simpl.
  destruct (tag_add _ _ _) as [[rc0 c0] s0] eqn:Ht.
  apply tag_add_cases in Ht. simpl in Ht.
  destruct Ht as [(Hj & He & Hc & Hr) Hcase]. intros H.
  destruct Hcase as [(-> & Ha & Ha' & Htags) | (-> & Ha' & Htags & Hcnt)];
    simpl in H; inversion H; subst; clear H; repeat split; auto.
Qed.

Lemma heap_tagging_cb_tagged cur col st :
  cur <> 0 ->
  heap_tagging_cb (Some cur) col st =
  (JVMTI_ITERATION_CONTINUE, None, col, st).
Proof.
  intros H. unfold heap_tagging_cb.
  apply Z.eqb_neq in H. rewrite H. reflexivity.
Qed.

Section Pass.

Variable rt : runtime.
Variable klass : option string.

(** One tagging pass over [os]: every object is left as it was or, when it
    was an untagged instance of the class, carries the identifier made from
    the next counter value; the identifiers appended to the collector are
    among those issued. *)
Lemma visit_tagging os : forall col st os' col' st' k,
  visit_objects rt heap_tagging_cb klass os col st = (os', col', st') ->
  g_local_counter st = to_jlong k ->
  exists k',
    tagging klass (g_epoch st) k os os' k' /\
    g_local_counter st' = to_jlong k' /\
    g_epoch st' = g_epoch st /\
    g_jvmti st' = g_jvmti st /\
    local_refs st' = local_refs st /\
    exists new,
      tags col' = tags col ++ new /\
      Forall (fun t => exists l, k <= l < k' /\ t = make_tag (g_epoch st) l)
             new.
Proof.
  induction os as [|o os IH]; intros col st os' col' st' k Hv Hk.
  - simpl in Hv. inversion Hv; subst; clear Hv.
    exists k. repeat split; auto using tagging_nil.
    exists []. rewrite app_nil_r. auto.
  - cbn [visit_objects] in Hv. destruct (class_matches klass o) eqn:Hm.
    + destruct (Z.eq_dec (obj_tag o) 0) as [Hz | Hnz].
      * rewrite Hz in Hv.
        destruct (heap_tagging_cb (Some 0) col st) as [[[rc w] c1] s1] eqn:Hcb.
        apply heap_tagging_cb_untagged in Hcb.
        destruct Hcb as (-> & Hj & He & Hc & Hr & Hcase).
        assert (Hk1 : g_local_counter s1 = to_jlong (k + 1)).
        { rewrite Hc, Hk. unfold to_jlong.
          rewrite <- Z.add_assoc, (Z.add_comm 1), Z.add_assoc.
          replace ((k + 2 ^ 63) mod 2 ^ 64 - 2 ^ 63 + 2 ^ 63 + 1)
            with ((k + 2 ^ 63) mod 2 ^ 64 + 1) by lia.
          rewrite Zplus_mod_idemp_l. f_equal. f_equal. lia. }
        assert (Htag : make_tag (g_epoch st) (g_local_counter st)
                       = make_tag (g_epoch st) k).
        { rewrite Hk. apply make_tag_to_jlong. }
        assert (Hel : eligible klass o = true).
        { unfold eligible. rewrite Hm, Hz. reflexivity. }
        assert (Hnew1 : exists new1, tags c1 = tags col ++ new1 /\
                  Forall (fun t => exists l, k <= l < k + 1 /\
                                   t = make_tag (g_epoch st) l) new1).
        { destruct Hcase as [(_ & _ & _ & Ht) | (_ & _ & Ht & _)].
          - exists [make_tag (g_epoch st) k]. rewrite Ht, Htag. split; auto.
            constructor; auto. exists k. split; [lia | reflexivity].
          - exists []. rewrite Ht, app_nil_r. auto. }
        destruct Hnew1 as (new1 & Hn1 & Hf1).
        rewrite Htag in Hv. cbn [store_tag] in Hv.
        destruct (visit_abort rt rc).
        -- inversion Hv; subst; clear Hv.
           exists (k + 1). repeat split; auto.
           ++ apply tagging_issue; auto using tagging_refl.
           ++ exists new1. split; auto.
        -- destruct (visit_objects rt heap_tagging_cb klass os c1 s1)
             as [[r' c2] s2] eqn:Hrest.
           inversion Hv; subst; clear Hv.
           destruct (IH _ _ _ _ _ (k + 1) Hrest Hk1)
             as (k' & Htg & Hc' & He' & Hj' & Hr' & new2 & Hn2 & Hf2).
           rewrite He in *.
           exists k'. repeat split; try congruence.
           ++ apply tagging_issue; auto.
           ++ exists (new1 ++ new2). split.
              ** rewrite Hn2, Hn1, app_assoc. reflexivity.
              ** apply Forall_app. split.
                 --- assert (k + 1 <= k').
                     { clear - Htg. remember (k + 1) as a.
                       clear Heqa. induction Htg; lia. }
                     eapply Forall_impl; [|exact Hf1]. simpl.
                     intros t (l & Hl & ->). exists l. split; [lia|auto].
                 --- eapply Forall_impl; [|exact Hf2]. simpl.
                     intros t (l & Hl & ->). exists l. split; [lia|auto].
      * rewrite (heap_tagging_cb_tagged _ col st Hnz) in Hv.
        cbn [store_tag] in Hv.
        destruct (visit_abort rt JVMTI_ITERATION_CONTINUE).
        -- inversion Hv; subst; clear Hv.
           exists k. repeat split; auto using tagging_refl.
           exists []. rewrite app_nil_r. auto.
        -- destruct (visit_objects rt heap_tagging_cb klass os col st)
             as [[r' c2] s2] eqn:Hrest.
           inversion Hv; subst; clear Hv.
           destruct (IH _ _ _ _ _ k Hrest Hk)
             as (k' & Htg & Hc' & He' & Hj' & Hr' & new2 & Hn2 & Hf2).
           exists k'. repeat split; auto.
           ++ apply tagging_keep; auto.
           ++ exists new2. auto.
    + destruct (visit_objects rt heap_tagging_cb klass os col st)
        as [[r' c2] s2] eqn:Hrest.
      inversion Hv; subst; clear Hv.
      destruct (IH _ _ _ _ _ k Hrest Hk)
        as (k' & Htg & Hc' & He' & Hj' & Hr' & new2 & Hn2 & Hf2).
      exists k'. repeat split; auto.
      * apply tagging_keep; auto.
      * exists new2. auto.
Qed.

End Pass.

(** ** Identifiers issued by one pass *)

Section TaggingFacts.

Variable klass : option string.
Variable e : Z.

Lemma tagging_bounds k os os' k' :
  tagging klass e k os os' k' ->
  k <= k' /\ k' - k <= Z.of_nat (eligible_count klass os) /\
  length os' = length os.
Proof.
  unfold eligible_count.
  induction 1 as [k | k o os os' k' _ IH | k o os os' k' Hel _ IH]; simpl.
  - lia.
  - destruct (eligible klass o); simpl; lia.
  - rewrite Hel. simpl length. lia.
Qed.

Lemma tagging_nth k os os' k' :
  tagging klass e k os os' k' ->
  forall i o o',
    nth_error os i = Some o -> nth_error os' i = Some o' ->
    o' = o \/
    (eligible klass o = true /\
     exists l, k <= l < k' /\ o' = mkObject (obj_class o) (make_tag e l)).
Proof.
  induction 1 as [k | k o os os' k' Ht IH | k o os os' k' Hel Ht IH];
    intros i a a' Ha Ha'.
  - destruct i; discriminate.
  - destruct i as [|i]; simpl in Ha, Ha'.
    + left. congruence.
    + exact (IH _ _ _ Ha Ha').
  - pose proof (tagging_bounds _ _ _ _ Ht) as (Hle & _).
    destruct i as [|i]; simpl in Ha, Ha'.
    + right. inversion Ha; inversion Ha'; subst. split; auto.
      exists k. split; [lia | reflexivity].
    + destruct (IH _ _ _ Ha Ha') as [-> | (Hel' & l & Hl & ->)]; auto.
      right. split; auto. exists l. split; [lia | reflexivity].
Qed.

Lemma make_tag_distinct l1 l2 :
  l1 < l2 -> l2 - l1 < 2 ^ 32 -> make_tag e l1 <> make_tag e l2.
Proof.
  intros Hlt Hd Heq. apply make_tag_inj in Heq.
  pose proof (Z.div_mod l1 (2 ^ 32) ltac:(lia)).
  pose proof (Z.div_mod l2 (2 ^ 32) ltac:(lia)).
  assert (l2 - l1 = 2 ^ 32 * (l2 / 2 ^ 32 - l1 / 2 ^ 32)) by lia.
  nia.
Qed.

(** When at most 2^32 identifiers are issued, two objects that received
    one carry different identifiers. *)
Lemma tagging_unique k os os' k' :
  tagging klass e k os os' k' ->
  k' - k <= 2 ^ 32 ->
  forall i j oi oj oi' oj',
    (i < j)%nat ->
    nth_error os i = Some oi -> nth_error os' i = Some oi' ->
    nth_error os j = Some oj -> nth_error os' j = Some oj' ->
    received_tag oi oi' = true -> received_tag oj oj' = true ->
    obj_tag oi' <> obj_tag oj'.
Proof.
  unfold received_tag.
  induction 1 as [k | k o os os' k' Ht IH | k o os os' k' Hel Ht IH];
    intros Hb i j oi oj oi' oj' Hij Hi Hi' Hj Hj' Ri Rj.
  - destruct i; discriminate.
  - destruct j as [|j]; [lia|]. destruct i as [|i]; simpl in *.
    + inversion Hi; inversion Hi'; subst.
      destruct (obj_tag oi' =? 0); discriminate.
    + apply (IH Hb i j oi oj oi' oj'); auto. lia.
  - pose proof (tagging_bounds _ _ _ _ Ht) as (Hle & _).
    destruct j as [|j]; [lia|]. destruct i as [|i]; simpl in *.
    + inversion Hi'; subst. simpl.
      destruct (tagging_nth _ _ _ _ Ht _ _ _ Hj Hj')
        as [-> | (_ & l & Hl & ->)].
      * destruct (obj_tag oj =? 0); discriminate.
      * simpl. apply make_tag_distinct; lia.
    + apply (IH ltac:(lia) i j oi oj oi' oj'); auto. lia.
Qed.

Lemma div_pred_multiple k :
  k mod 2 ^ 32 = 0 -> (k - 1) / 2 ^ 32 = k / 2 ^ 32 - 1.
Proof.
  intros Hm. pose proof (Z.div_mod k (2 ^ 32) ltac:(lia)) as Hk.
  symmetry. apply Z.div_unique with (r := 2 ^ 32 - 1); lia.
Qed.

(** The identifiers issued that are not counted as received are those
    whose counter value is a multiple of 2^32. *)
Lemma tagging_count k os os' k' :
  tagging klass e k os os' k' ->
  (k' - k) - ((k' - 1) / 2 ^ 32 - (k - 1) / 2 ^ 32)
  <= Z.of_nat (tagged_count os os').
Proof.
  induction 1 as [k | k o os os' k' Ht IH | k o os os' k' Hel Ht IH].
  - simpl. lia.
  - cbn [tagged_count]. lia.
  - cbn [tagged_count]. unfold received_tag. simpl obj_tag.
    unfold eligible in Hel. apply andb_prop in Hel. destruct Hel as [_ Hz].
    rewrite Hz. simpl andb.
    replace (k + 1 - 1) with k in IH by lia.
    destruct (make_tag e k =? 0) eqn:Hmz; simpl negb; cbv iota.
    + apply Z.eqb_eq in Hmz.
      assert (Hk : k mod 2 ^ 32 = 0).
      { rewrite <- (make_tag_low e k), Hmz. reflexivity. }
      rewrite (div_pred_multiple k Hk). lia.
    + assert ((k - 1) / 2 ^ 32 <= k / 2 ^ 32)
        by (apply Z.div_le_mono; lia).
      lia.
Qed.

Lemma issued_from_one k' n :
  1 <= k' -> (k' - 1) - ((k' - 1) / 2 ^ 32 - (1 - 1) / 2 ^ 32) <= n ->
  n < 2 ^ 32 -> k' - 1 <= 2 ^ 32.
Proof.
  intros H1 Hc Hn. change ((1 - 1) / 2 ^ 32) with 0 in Hc.
  pose proof (Z.div_mod (k' - 1) (2 ^ 32) ltac:(lia)) as Hd.
  pose proof (Z.mod_pos_bound (k' - 1) (2 ^ 32) ltac:(lia)) as Hm.
  assert (0 <= (k' - 1) / 2 ^ 32) by (apply Z.div_pos; lia).
  nia.
Qed.

End TaggingFacts.

(** ** Complete and failed passes *)

Lemma IterateThroughHeap_cases {U : Type} rt klass (cb : heap_callback U)
    h u st err h' u' st' :
  IterateThroughHeap rt klass cb h u st = (err, h', u', st') ->
  (err = JVMTI_ERROR_OTHER /\ iterate_fails rt klass = true /\
   h' = h /\ u' = u /\ st' = st) \/
  (err = JVMTI_ERROR_NONE /\ iterate_fails rt klass = false /\
   visit_objects rt cb klass h u st = (h', u', st')).
Proof.
  unfold IterateThroughHeap. destruct (iterate_fails rt klass).
  - intros H. inversion H; subst. left. auto.
  - destruct (visit_objects rt cb klass h u st) as [[a b] c].
    intros H. inversion H; subst. right. auto.
Qed.

Lemma received_tag_same o : received_tag o o = false.
Proof. unfold received_tag. destruct (obj_tag o =? 0); reflexivity. Qed.

Section PassFacts.

Variable rt : runtime.
Variable klass : option string.

Lemma visit_failed_tags os : forall col st os' col' st',
  visit_objects rt heap_tagging_cb klass os col st = (os', col', st') ->
  alloc_failed col <> 0 ->
  alloc_failed col' <> 0 /\ tags col' = tags col.
Proof.
  induction os as [|o os IH]; intros col st os' col' st' Hv Hf.
  - inversion Hv; subst. auto.
  - cbn [visit_objects] in Hv.
    destruct (class_matches klass o).
    + destruct (heap_tagging_cb (Some (obj_tag o)) col st)
        as [[[rc w] c1] s1] eqn:Hcb.
      assert (Hc1 : alloc_failed c1 <> 0 /\ tags c1 = tags col).
      { destruct (Z.eq_dec (obj_tag o) 0) as [Hz | Hnz].
        - rewrite Hz in Hcb. apply heap_tagging_cb_untagged in Hcb.
          destruct Hcb as (_ & _ & _ & _ & _ & [(_ & H0 & _) | (_ & H1 & H2 & _)]);
            [contradiction | auto].
        - rewrite (heap_tagging_cb_tagged _ col st Hnz) in Hcb.
          inversion Hcb; subst. auto. }
      destruct Hc1 as [Hf1 Ht1].
      destruct (visit_abort rt rc).
      * inversion Hv; subst. auto.
      * destruct (visit_objects rt heap_tagging_cb klass os c1 s1)
          as [[r' c2] s2] eqn:Hrest.
        inversion Hv; subst; clear Hv.
        destruct (IH _ _ _ _ _ Hrest Hf1) as [Hf2 Ht2].
        split; congruence.
    + destruct (visit_objects rt heap_tagging_cb klass os col st)
        as [[r' c2] s2] eqn:Hrest.
      inversion Hv; subst; clear Hv. eauto.
Qed.

Lemma to_jlong_succ k x :
  x = to_jlong k -> to_jlong (x + 1) = to_jlong (k + 1).
Proof.
  intros ->. unfold to_jlong.
  replace ((k + 2 ^ 63) mod 2 ^ 64 - 2 ^ 63 + 1 + 2 ^ 63)
    with ((k + 2 ^ 63) mod 2 ^ 64 + 1) by lia.
  rewrite Zplus_mod_idemp_l. f_equal. f_equal. lia.
Qed.

(** A pass that is never stopped visits every object. *)
Lemma visit_complete os : forall col st os' col' st' k,
  visit_objects rt heap_tagging_cb klass os col st = (os', col', st') ->
  visit_abort rt JVMTI_ITERATION_CONTINUE = false ->
  alloc_failed col' = 0 \/ visit_abort rt JVMTI_ITERATION_ABORT = false ->
  g_local_counter st = to_jlong k ->
  os' = tag_all klass (g_epoch st) k os.
Proof.
  induction os as [|o os IH]; intros col st os' col' st' k Hv Hc Hn Hk.
  - inversion Hv; subst. reflexivity.
  - cbn [visit_objects] in Hv. cbn [tag_all]. unfold eligible.
    destruct (class_matches klass o); simpl andb.
    + destruct (Z.eq_dec (obj_tag o) 0) as [Hz | Hnz].
      * rewrite Hz in *. simpl Z.eqb. cbv iota.
        destruct (heap_tagging_cb (Some 0) col st)
          as [[[rc w] c1] s1] eqn:Hcb.
        apply heap_tagging_cb_untagged in Hcb.
        destruct Hcb as (-> & Hj & He & Hc1 & Hr & Hcase).
        assert (Hk1 : g_local_counter s1 = to_jlong (k + 1)).
        { rewrite Hc1. apply to_jlong_succ. exact Hk. }
        assert (Htag : make_tag (g_epoch st) (g_local_counter st)
                       = make_tag (g_epoch st) k)
          by (rewrite Hk; apply make_tag_to_jlong).
        assert (Hgo : visit_abort rt rc = false).
        { destruct Hcase as [(-> & _) | (-> & Hf1 & _)]; auto.
          destruct Hn as [Hn | Hn]; auto.
          destruct (visit_abort rt JVMTI_ITERATION_ABORT) eqn:Ha; auto.
          inversion Hv; subst. contradiction. }
        rewrite Hgo in Hv.
        destruct (visit_objects rt heap_tagging_cb klass os c1 s1)
          as [[r' c2] s2] eqn:Hrest.
        inversion Hv; subst; clear Hv. cbn [store_tag]. rewrite Htag.
        f_equal. rewrite <- He. eapply IH; eauto.
      * rewrite (heap_tagging_cb_tagged _ col st Hnz) in Hv.
        apply Z.eqb_neq in Hnz. rewrite Hnz. rewrite Hc in Hv.
        destruct (visit_objects rt heap_tagging_cb klass os col st)
          as [[r' c2] s2] eqn:Hrest.
        inversion Hv; subst; clear Hv. cbn [store_tag].
        f_equal. eapply IH; eauto.
    + destruct (visit_objects rt heap_tagging_cb klass os col st)
        as [[r' c2] s2] eqn:Hrest.
      inversion Hv; subst; clear Hv. f_equal. eapply IH; eauto.
Qed.

Lemma tag_all_nonzero e os : forall k o',
  (forall l, k <= l < k + Z.of_nat (eligible_count klass os) ->
             make_tag e l <> 0) ->
  In o' (tag_all klass e k os) -> class_matches klass o' = true ->
  obj_tag o' <> 0.
Proof.
  unfold eligible_count.
  induction os as [|o os IH]; intros k o' Hnz Hin Hm.
  - destruct Hin.
  - cbn [tag_all filter] in *. destruct (eligible klass o) eqn:Hel.
    + cbn [length] in Hnz. destruct Hin as [<- | Hin].
      * simpl. apply Hnz. lia.
      * apply (IH (k + 1) o'); auto. intros l Hl. apply Hnz. lia.
    + destruct Hin as [<- | Hin].
      * unfold eligible in Hel. rewrite Hm in Hel. simpl in Hel.
        apply Z.eqb_neq. exact Hel.
      * apply (IH k o'); auto.
Qed.

(** The object visited when an append first fails. *)
Lemma visit_failure os : forall col st os' col' st' k,
  visit_objects rt heap_tagging_cb klass os col st = (os', col', st') ->
  g_local_counter st = to_jlong k ->
  alloc_failed col = 0 -> alloc_failed col' <> 0 ->
  exists i o l,
    nth_error os i = Some o /\ eligible klass o = true /\
    k <= l < k + Z.of_nat (eligible_count klass os) /\
    nth_error os' i = Some (mkObject (obj_class o) (make_tag (g_epoch st) l)) /\
    (exists new, tags col' = tags col ++ new /\
       Forall (fun t => exists l', k <= l' < l /\
                                   t = make_tag (g_epoch st) l') new) /\
    (visit_abort rt JVMTI_ITERATION_ABORT = true ->
     skipn (S i) os' = skipn (S i) os).
Proof.
  unfold eligible_count.
  induction os as [|o os IH]; intros col st os' col' st' k Hv Hk Hf Hf'.
  - inversion Hv; subst. contradiction.
  - cbn [visit_objects] in Hv. cbn [filter]. unfold eligible at 2.
    destruct (class_matches klass o) eqn:Hm; simpl andb.
    + destruct (Z.eq_dec (obj_tag o) 0) as [Hz | Hnz].
      * rewrite Hz in *. simpl Z.eqb. cbv iota. cbn [length].
        destruct (heap_tagging_cb (Some 0) col st)
          as [[[rc w] c1] s1] eqn:Hcb.
        apply heap_tagging_cb_untagged in Hcb.
        destruct Hcb as (-> & Hj & He & Hc1 & Hr & Hcase).
        assert (Hk1 : g_local_counter s1 = to_jlong (k + 1)).
        { rewrite Hc1. apply to_jlong_succ. exact Hk. }
        assert (Htag : make_tag (g_epoch st) (g_local_counter st)
                       = make_tag (g_epoch st) k)
          by (rewrite Hk; apply make_tag_to_jlong).
        assert (Hel : eligible klass o = true)
          by (unfold eligible; rewrite Hm, Hz; reflexivity).
        rewrite Htag in *. cbn [store_tag] in Hv.
        destruct Hcase as [(-> & _ & Hf1 & Ht1) | (-> & Hf1 & Ht1 & _)].
        -- destruct (visit_abort rt JVMTI_ITERATION_CONTINUE).
           ++ inversion Hv; subst. contradiction.
           ++ destruct (visit_objects rt heap_tagging_cb klass os c1 s1)
                as [[r' c2] s2] eqn:Hrest.
              inversion Hv; subst; clear Hv.
              destruct (IH _ _ _ _ _ (k + 1) Hrest Hk1 Hf1 Hf')
                as (i & a & l & Hi & Ha & Hl & Hi' & (new & Hn & HF) & Hs).
              rewrite He in *.
              exists (S i), a, l. repeat split; auto; try lia.
              exists (make_tag (g_epoch st) k :: new). split.
              ** rewrite Hn, Ht1, <- app_assoc. reflexivity.
              ** constructor.
                 --- exists k. split; [lia | reflexivity].
                 --- eapply Forall_impl; [|exact HF]. simpl.
                     intros t (l' & Hl' & ->). exists l'. split; [lia|auto].
        -- exists 0%nat, o, k.
           assert (Hrest : exists r' , os' = mkObject (obj_class o)
                       (make_tag (g_epoch st) k) :: r' /\
                     tags col' = tags col /\
                     (visit_abort rt JVMTI_ITERATION_ABORT = true -> r' = os)).
           { destruct (visit_abort rt JVMTI_ITERATION_ABORT).
             - inversion Hv; subst. eauto.
             - destruct (visit_objects rt heap_tagging_cb klass os c1 s1)
                 as [[r' c2] s2] eqn:Hrest.
               inversion Hv; subst; clear Hv.
               destruct (visit_failed_tags _ _ _ _ _ _ Hrest Hf1) as [_ Ht2].
               exists r'. repeat split; [congruence | discriminate]. }
           destruct Hrest as (r' & -> & Ht & Hab).
           split; [reflexivity|]. split; [exact Hel|]. split; [lia|].
           split; [reflexivity|]. split.
           ++ exists []. rewrite app_nil_r. auto.
           ++ intros Ha. simpl. f_equal. auto.
      * rewrite (heap_tagging_cb_tagged _ col st Hnz) in Hv.
        apply Z.eqb_neq in Hnz. rewrite Hnz. cbn [store_tag] in Hv.
        destruct (visit_abort rt JVMTI_ITERATION_CONTINUE).
        -- inversion Hv; subst. contradiction.
        -- destruct (visit_objects rt heap_tagging_cb klass os col st)
             as [[r' c2] s2] eqn:Hrest.
           inversion Hv; subst; clear Hv.
           destruct (IH _ _ _ _ _ k Hrest Hk Hf Hf')
             as (i & a & l & Hi & Ha & Hl & Hi' & Hn & Hs).
           exists (S i), a, l. repeat split; auto; lia.
    + destruct (visit_objects rt heap_tagging_cb klass os col st)
        as [[r' c2] s2] eqn:Hrest.
      inversion Hv; subst; clear Hv.
      destruct (IH _ _ _ _ _ k Hrest Hk Hf Hf')
        as (i & a & l & Hi & Ha & Hl & Hi' & Hn & Hs).
      exists (S i), a, l. repeat split; auto; lia.
Qed.

End PassFacts.

(** ** The tagging scheme *)

Lemma heap_tagging_cb_stored tag_ptr col st tag :
  cb_stored (heap_tagging_cb tag_ptr col st) = Some tag ->
  tag_ptr = Some 0 /\ tag = make_tag (g_epoch st) (g_local_counter st).
Proof.
  destruct tag_ptr as [cur|]; [|discriminate].
  destruct (Z.eq_dec cur 0) as [-> | Hnz].
  - destruct (heap_tagging_cb (Some 0) col st) as [[[rc w] c1] s1] eqn:Hcb.
    apply heap_tagging_cb_untagged in Hcb. destruct Hcb as (-> & _).
    unfold cb_stored. simpl. intros H. inversion H. auto.
  - rewrite (heap_tagging_cb_tagged _ col st Hnz). discriminate.
Qed.

(** C3. Every identifier the tagging callback stores into a tag slot is, as
    a 64-bit pattern, (epoch << 32) | local counter with both parts masked
    to 32 bits: its high 32 bits are the epoch modulo 2^32 and its low 32
    bits the local counter modulo 2^32, so a counter value at or above 2^32
    wraps into the low word. The callback stores one only into a slot that
    holds 0. *)
Theorem heap_tagging_cb_identifier (tag_ptr : option Z)
    (col : tag_collector_t) (st : agent_state) (tag : Z) :
  cb_stored (heap_tagging_cb tag_ptr col st) = Some tag ->
  tag_ptr = Some 0 /\ is_jlong tag /\
  to_uint64 tag = Z.lor (Z.shiftl (to_uint32 (g_epoch st)) 32)
                        (to_uint32 (g_local_counter st)) /\
  Z.shiftr (to_uint64 tag) 32 = to_uint32 (g_epoch st) /\
  Z.land (to_uint64 tag) (Z.ones 32) = to_uint32 (g_local_counter st).
Proof.
  intros H. apply heap_tagging_cb_stored in H. destruct H as [-> ->].
  split; [reflexivity|]. split; [apply to_jlong_range|].
  rewrite make_tag_unsigned. unfold to_uint32.
  pose proof (Z.mod_pos_bound (g_epoch st) (2 ^ 32) ltac:(lia)) as He.
  pose proof (Z.mod_pos_bound (g_local_counter st) (2 ^ 32) ltac:(lia)) as Hl.
  repeat split.
  - rewrite lor_shiftl32 by lia. reflexivity.
  - rewrite Z.shiftr_div_pow2 by lia.
    rewrite Z.div_add_l by lia. rewrite Z.div_small by lia. lia.
  - rewrite Z.land_ones by lia. rewrite Z.add_comm, Z.mod_add by lia.
    apply Z.mod_small. lia.
Qed.

(** Epoch 3 and a local counter of 2^32 + 5: the identifier is 3 << 32 | 5. *)
Lemma heap_tagging_cb_identifier_witness :
  cb_stored (heap_tagging_cb (Some 0) col_zero
               (mkState true 3 (2 ^ 32 + 5) [] [])) = Some 12884901893 /\
  Z.shiftr (to_uint64 12884901893) 32 = 3 /\
  Z.land (to_uint64 12884901893) (Z.ones 32) = 5.
Proof.
  split; [reflexivity|].
  pose proof (heap_tagging_cb_identifier (Some 0) col_zero
                (mkState true 3 (2 ^ 32 + 5) [] []) 12884901893 eq_refl)
    as (_ & _ & _ & Hhigh & Hlow).
  split; [exact Hhigh | exact Hlow].
Defined.

(** C4. In one tagging pass, which starts with the local counter reset to 1
    and takes each counter value by fetch-and-increment, two different
    objects that receive an identifier receive different identifiers,
    provided fewer than 2^32 objects are tagged in the pass. *)
Theorem tagging_pass_unique (rt : runtime) (klass : option string)
    (h : heap_t) (col : tag_collector_t) (st : agent_state)
    (err : jvmtiError) (h' : heap_t) (col' : tag_collector_t)
    (st' : agent_state) :
  IterateThroughHeap rt klass heap_tagging_cb h col (set_local_counter st 1)
  = (err, h', col', st') ->
  Z.of_nat (tagged_count h h') < 2 ^ 32 ->
  forall (i j : nat) (oi oj oi' oj' : heap_object),
    i <> j ->
    nth_error h i = Some oi -> nth_error h' i = Some oi' ->
    nth_error h j = Some oj -> nth_error h' j = Some oj' ->
    received_tag oi oi' = true -> received_tag oj oj' = true ->
    obj_tag oi' <> obj_tag oj'.
Proof.
  intros Hit Hcount i j oi oj oi' oj' Hij Hi Hi' Hj Hj' Ri Rj.
  apply IterateThroughHeap_cases in Hit.
  destruct Hit as [(_ & _ & -> & _) | (_ & _ & Hv)].
  - rewrite Hi in Hi'. inversion Hi'; subst.
    rewrite received_tag_same in Ri. discriminate.
  - destruct (visit_tagging rt klass h _ _ _ _ _ 1 Hv eq_refl)
      as (k' & Htg & _).
    pose proof (tagging_bounds _ _ _ _ _ _ Htg) as (Hle & _).
    pose proof (tagging_count _ _ _ _ _ _ Htg) as Hc.
    assert (Hb : k' - 1 <= 2 ^ 32)
      by (eapply issued_from_one; [lia | exact Hc | exact Hcount]).
    destruct (Nat.lt_total i j) as [Hlt | [Heq | Hgt]]; [|contradiction|].
    + eapply (tagging_unique _ _ _ _ _ _ Htg Hb i j); eauto.
    + intros Heq. symmetry in Heq. revert Heq.
      eapply (tagging_unique _ _ _ _ _ _ Htg Hb j i); eauto.
Qed.

Lemma tagging_pass_unique_witness :
  IterateThroughHeap cooperative_runtime (Some "A"%string) heap_tagging_cb
    [mkObject "A" 0; mkObject "B" 0; mkObject "A" 0] col_zero
    (set_local_counter (started_state []) 1)
  = (JVMTI_ERROR_NONE,
     [mkObject "A" 4294967297; mkObject "B" 0; mkObject "A" 4294967298],
     mkCollector [4294967297; 4294967298] 2 128 0,
     mkState true 1 3 [] []) /\
  4294967297 <> 4294967298.
Proof.
  split; [reflexivity|].
  refine (tagging_pass_unique cooperative_runtime (Some "A"%string)
           [mkObject "A" 0; mkObject "B" 0; mkObject "A" 0] col_zero
           (started_state []) _ _ _ _ eq_refl _ 0%nat 2%nat
           (mkObject "A" 0) (mkObject "A" 0)
           (mkObject "A" 4294967297) (mkObject "A" 4294967298)
           _ eq_refl eq_refl eq_refl eq_refl eq_refl eq_refl).
  - reflexivity.
  - discriminate.
Defined.

(** C5. Zero is reserved. The tagging callback does not store 0 while the
    low 32 bits of the local counter or of the epoch are not all zero; in a
    pass, which starts with the local counter at 1, this is the case when
    the heap has fewer than 2^32 objects to tag or the epoch (which starts
    at 1) is not a multiple of 2^32. Then no identifier collected by the
    pass is 0, no tag slot changed by the pass holds 0, and after a pass
    that was not stopped every instance of the class carries a non-zero
    tag. *)
Theorem zero_is_reserved (rt : runtime) (klass : option string)
    (h : heap_t) (st : agent_state) (err : jvmtiError) (h' : heap_t)
    (col' : tag_collector_t) (st' : agent_state) :
  Z.of_nat (eligible_count klass h) < 2 ^ 32 \/ to_uint32 (g_epoch st) <> 0 ->
  IterateThroughHeap rt klass heap_tagging_cb h col_zero
                     (set_local_counter st 1) = (err, h', col', st') ->
  (forall tag_ptr col s,
      to_uint32 (g_local_counter s) <> 0 \/ to_uint32 (g_epoch s) <> 0 ->
      cb_stored (heap_tagging_cb tag_ptr col s) <> Some 0) /\
  Forall (fun t => t <> 0) (tags col') /\
  (forall i o o',
      nth_error h i = Some o -> nth_error h' i = Some o' ->
      obj_tag o' <> obj_tag o -> obj_tag o' <> 0) /\
  (err = JVMTI_ERROR_NONE ->
   visit_abort rt JVMTI_ITERATION_CONTINUE = false ->
   alloc_failed col' = 0 \/ visit_abort rt JVMTI_ITERATION_ABORT = false ->
   forall o', In o' h' -> class_matches klass o' = true -> obj_tag o' <> 0).
Proof.
  intros Hsmall Hit. split.
  { intros tag_ptr col s Hs Habs.
    apply heap_tagging_cb_stored in Habs. destruct Habs as [_ Habs].
    symmetry in Habs. revert Habs. apply make_tag_nonzero. exact Hs. }
  assert (Hissued : forall l,
             1 <= l < 1 + Z.of_nat (eligible_count klass h) ->
             make_tag (g_epoch st) l <> 0).
  { intros l Hl. apply make_tag_nonzero.
    destruct Hsmall as [Hsmall | He]; [left | right; exact He].
    rewrite Z.mod_small by lia. lia. }
  apply IterateThroughHeap_cases in Hit.
  destruct Hit as [(-> & _ & -> & -> & _) | (-> & _ & Hv)].
  - split; [constructor|]. split.
    + intros i o o' Hi Hi'. rewrite Hi in Hi'. inversion Hi'. congruence.
    + discriminate.
  - destruct (visit_tagging rt klass h _ _ _ _ _ 1 Hv eq_refl)
      as (k' & Htg & _ & _ & _ & _ & new & Hnew & HF).
    pose proof (tagging_bounds _ _ _ _ _ _ Htg) as (Hle & Hub & _).
    change (g_epoch (set_local_counter st 1)) with (g_epoch st) in *.
    split; [|split].
    + rewrite Hnew. simpl. eapply Forall_impl; [|exact HF]. simpl.
      intros t (l & Hl & ->). apply Hissued. lia.
    + intros i o o' Hi Hi' Hne.
      destruct (tagging_nth _ _ _ _ _ _ Htg _ _ _ Hi Hi')
        as [-> | (_ & l & Hl & ->)]; [congruence|].
      simpl. apply Hissued. lia.
    + intros _ Hc Hn o' Hin Hm.
      rewrite (visit_complete rt klass h _ _ _ _ _ 1 Hv Hc Hn eq_refl) in Hin.
      eapply tag_all_nonzero; eauto.
Qed.

Lemma zero_is_reserved_witness :
  Z.of_nat (eligible_count (Some "A"%string)
              [mkObject "A" 0; mkObject "B" 0; mkObject "A" 0]) < 2 ^ 32 /\
  Forall (fun t => t <> 0) [4294967297; 4294967298].
Proof.
  split; [reflexivity|].
  exact (proj1 (proj2
    (zero_is_reserved cooperative_runtime (Some "A"%string)
       [mkObject "A" 0; mkObject "B" 0; mkObject "A" 0]
       (started_state []) _ _ _ _
       (or_introl (eq_refl : (Z.of_nat 2 ?= 2 ^ 32) = Lt)) eq_refl))).
Defined.

Lemma in_combine_seq {A : Type} (l : list A) : forall s i x,
  In (i, x) (combine (seq s (length l)) l) ->
  (s <= i)%nat /\ nth_error l (i - s) = Some x.
Proof.
  induction l as [|a l IH]; intros s i x Hin.
  - destruct Hin.
  - simpl in Hin. destruct Hin as [Heq | Hin].
    + inversion Heq; subst. rewrite Nat.sub_diag. split; [lia | reflexivity].
    + apply IH in Hin. destruct Hin as [Hle Hn].
      split; [lia|]. replace (i - s)%nat with (S (i - S s)) by lia.
      exact Hn.
Qed.

(** An object resolved from a list of tags carries one of them. *)
Lemma objects_with_tags_in req h i :
  In i (map fst (objects_with_tags req h)) ->
  exists o, nth_error h i = Some o /\ In (obj_tag o) req.
Proof.
  unfold objects_with_tags. rewrite map_map. simpl.
  intros Hin. apply in_map_iff in Hin. destruct Hin as ([j o] & <- & Hin).
  apply filter_In in Hin. destruct Hin as [Hin Hex]. simpl in *.
  apply in_combine_seq in Hin. destruct Hin as [_ Hn].
  rewrite Nat.sub_0_r in Hn. exists o. split; auto.
  apply existsb_exists in Hex. destruct Hex as (t & Ht & Heq).
  apply Z.eqb_eq in Heq. congruence.
Qed.

(** C10. The tagging callback stores the fresh identifier into the tag slot
    before it appends it to the tag buffer: when it returns
    JVMTI_ITERATION_ABORT the identifier is stored and the buffer holds what
    it held. So in a pass (over a heap with fewer than 2^32 objects to tag)
    in which an append failed, the object visited at the first failure
    carries its new, non-zero identifier, that identifier is not among the
    collected tags, hence the object is not among those resolved from them,
    and when the iteration stops on JVMTI_ITERATION_ABORT no later object
    is touched. *)
Theorem failed_append_keeps_tag (rt : runtime) (klass : option string)
    (h : heap_t) (st : agent_state) (err : jvmtiError) (h' : heap_t)
    (col' : tag_collector_t) (st' : agent_state) :
  IterateThroughHeap rt klass heap_tagging_cb h col_zero
                     (set_local_counter st 1) = (err, h', col', st') ->
  alloc_failed col' <> 0 ->
  Z.of_nat (eligible_count klass h) < 2 ^ 32 ->
  (forall col s,
      cb_return (heap_tagging_cb (Some 0) col s) = JVMTI_ITERATION_ABORT ->
      cb_stored (heap_tagging_cb (Some 0) col s)
      = Some (make_tag (g_epoch s) (g_local_counter s)) /\
      tags (cb_user (heap_tagging_cb (Some 0) col s)) = tags col) /\
  exists (i : nat) (o : heap_object) (t : Z),
    nth_error h i = Some o /\ obj_tag o = 0 /\
    nth_error h' i = Some (mkObject (obj_class o) t) /\
    t <> 0 /\ ~ In t (tags col') /\
    ~ In i (map fst (objects_with_tags (tags col') h')) /\
    (visit_abort rt JVMTI_ITERATION_ABORT = true ->
     skipn (S i) h' = skipn (S i) h).
Proof.
  intros Hit Hfail Hsmall. split.
  { intros col s Hrc.
    destruct (heap_tagging_cb (Some 0) col s) as [[[rc w] c1] s1] eqn:Hcb.
    apply heap_tagging_cb_untagged in Hcb.
    destruct Hcb as (-> & _ & _ & _ & _ & [(-> & _) | (_ & _ & Ht & _)]).
    - discriminate Hrc.
    - split; [reflexivity | exact Ht]. }
  apply IterateThroughHeap_cases in Hit.
  destruct Hit as [(_ & _ & _ & -> & _) | (_ & _ & Hv)].
  { exfalso. apply Hfail. reflexivity. }
  destruct (visit_failure rt klass h _ _ _ _ _ 1 Hv eq_refl eq_refl Hfail)
    as (i & o & l & Hi & Hel & Hl & Hi' & (new & Hnew & HF) & Hstop).
  change (g_epoch (set_local_counter st 1)) with (g_epoch st) in *.
  simpl in Hnew. subst new.
  assert (Hnotin : ~ In (make_tag (g_epoch st) l) (tags col')).
  { intros Hin. rewrite Forall_forall in HF.
    destruct (HF _ Hin) as (l' & Hl' & Heq).
    symmetry in Heq. revert Heq. apply make_tag_distinct; lia. }
  exists i, o, (make_tag (g_epoch st) l).
  split; [exact Hi|]. split.
  { unfold eligible in Hel. apply andb_prop in Hel.
    apply Z.eqb_eq. tauto. }
  split; [exact Hi'|]. split.
  { apply make_tag_nonzero. left. rewrite Z.mod_small by lia. lia. }
  split; [exact Hnotin|]. split; [|exact Hstop].
  intros Hin. apply objects_with_tags_in in Hin.
  destruct Hin as (o' & Ho' & Hin). rewrite Hi' in Ho'.
  inversion Ho'; subst. exact (Hnotin Hin).
Qed.

Lemma failed_append_keeps_tag_witness :
  IterateThroughHeap cooperative_runtime (Some "A"%string) heap_tagging_cb
    [mkObject "A" 0; mkObject "A" 0] col_zero
    (set_local_counter (started_state [false]) 1)
  = (JVMTI_ERROR_NONE, [mkObject "A" 4294967297; mkObject "A" 0],
     mkCollector [] 0 0 1, mkState true 1 2 [] []) /\
  exists (i : nat) (o : heap_object) (t : Z),
    nth_error [mkObject "A" 0; mkObject "A" 0] i = Some o /\
    obj_tag o = 0 /\
    nth_error [mkObject "A" 4294967297; mkObject "A" 0] i
    = Some (mkObject (obj_class o) t) /\
    t <> 0 /\ ~ In t [] /\
    ~ In i (map fst (objects_with_tags []
                       [mkObject "A" 4294967297; mkObject "A" 0])) /\
    (visit_abort cooperative_runtime JVMTI_ITERATION_ABORT = true ->
     skipn (S i) [mkObject "A" 4294967297; mkObject "A" 0]
     = skipn (S i) [mkObject "A" 0; mkObject "A" 0]).
Proof.
  split; [reflexivity|].
  refine (proj2 (failed_append_keeps_tag cooperative_runtime
            (Some "A"%string) [mkObject "A" 0; mkObject "A" 0]
            (started_state [false]) _ _ _ _ eq_refl _ _)).
  - discriminate.
  - reflexivity.
Defined.

(** ** Clearing *)

Lemma clear_tag_cb_store o u st :
  clear_tag_cb (Some (obj_tag o)) u st
  = (JVMTI_ITERATION_CONTINUE,
     if obj_tag o =? 0 then None else Some 0, u, st) /\
  store_tag o (if obj_tag o =? 0 then None else Some 0) = untag o.
Proof.
  unfold clear_tag_cb, untag. destruct (obj_tag o =? 0) eqn:Hz; simpl.
  - apply Z.eqb_eq in Hz. destruct o; simpl in *; subst. auto.
  - auto.
Qed.

(** The clearing visit: every object is visited and left untagged, or only
    the first one when the runtime stops on JVMTI_ITERATION_CONTINUE. *)
Lemma visit_clear rt os st :
  visit_objects rt clear_tag_cb None os tt st
  = (if visit_abort rt JVMTI_ITERATION_CONTINUE
     then match os with [] => [] | o :: r => untag o :: r end
     else map untag os, tt, st).
Proof.
  induction os as [|o os IH]; cbn [visit_objects class_matches map].
  - destruct (visit_abort rt JVMTI_ITERATION_CONTINUE); reflexivity.
  - destruct (clear_tag_cb_store o tt st) as [-> ->].
    destruct (visit_abort rt JVMTI_ITERATION_CONTINUE) eqn:Hc.
    + reflexivity.
    + rewrite IH. reflexivity.
Qed.

Lemma untag_untag o : untag (untag o) = untag o.
Proof. reflexivity. Qed.

Lemma clear_all_tags_eq rt h st :
  clear_all_tags rt h st
  = (if negb (g_jvmti st) || iterate_fails rt None then h
     else if visit_abort rt JVMTI_ITERATION_CONTINUE
          then match h with [] => [] | o :: r => untag o :: r end
          else map untag h, st).
Proof.
  unfold clear_all_tags, IterateThroughHeap.
  destruct (g_jvmti st); simpl; [|reflexivity].
  destruct (iterate_fails rt None); [reflexivity|].
  rewrite visit_clear. reflexivity.
Qed.

(** C8. The clear operation is idempotent: a second clear leaves the heap
    and the agent state as the first clear left them. After one clear (with
    the JVMTI environment present and a heap iteration that visits every
    object) every tag slot holds 0, and the clear callback stores only into
    a slot whose value is not 0, and stores 0. *)
Theorem clear_all_tags_idempotent (rt : runtime) (h : heap_t)
    (st : agent_state) :
  clear_all_tags rt (fst (clear_all_tags rt h st))
                 (snd (clear_all_tags rt h st))
  = clear_all_tags rt h st /\
  (g_jvmti st = true -> iterate_fails rt None = false ->
   visit_abort rt JVMTI_ITERATION_CONTINUE = false ->
   Forall (fun o => obj_tag o = 0) (fst (clear_all_tags rt h st))) /\
  (forall (tag_ptr : option Z) (u : unit) (s : agent_state) (v : Z),
      cb_stored (clear_tag_cb tag_ptr u s) = Some v ->
      v = 0 /\ exists cur, tag_ptr = Some cur /\ cur <> 0).
Proof.
  split; [|split].
  - rewrite !clear_all_tags_eq. cbn [fst snd]. f_equal.
    destruct (negb (g_jvmti st) || iterate_fails rt None); [reflexivity|].
    destruct (visit_abort rt JVMTI_ITERATION_CONTINUE).
    + destruct h; reflexivity.
    + rewrite map_map. apply map_ext. intros o. apply untag_untag.
  - intros Hj Hi Hc. rewrite clear_all_tags_eq, Hj, Hi, Hc. cbn [fst negb orb].
    apply Forall_forall. intros o Hin. apply in_map_iff in Hin.
    destruct Hin as (a & <- & _). reflexivity.
  - intros tag_ptr u s v. unfold cb_stored, clear_tag_cb.
    destruct tag_ptr as [cur|]; [|discriminate].
    destruct (cur =? 0) eqn:Hz; simpl; [discriminate|].
    intros H. inversion H. split; [reflexivity|].
    exists cur. split; [reflexivity|]. apply Z.eqb_neq. exact Hz.
Qed.

Lemma clear_all_tags_idempotent_witness :
  clear_all_tags cooperative_runtime
    [mkObject "A" 0; mkObject "B" 0] (started_state [])
  = clear_all_tags cooperative_runtime
      [mkObject "A" 5; mkObject "B" 0] (started_state []) /\
  Forall (fun o => obj_tag o = 0) [mkObject "A" 0; mkObject "B" 0].
Proof.
  pose proof (clear_all_tags_idempotent cooperative_runtime
                [mkObject "A" 5; mkObject "B" 0] (started_state []))
    as (Hidem & Hzero & _).
  split; [exact Hidem | exact (Hzero eq_refl eq_refl eq_refl)].
Defined.

(** ** The snapshot encoder *)

Lemma store_byte_app (pre mid post : list Z) (x v : Z) :
  store_byte (pre ++ mid ++ x :: post) (length pre + length mid) v
  = Some (pre ++ mid ++ v :: post).
Proof.
  unfold store_byte. rewrite app_assoc.
  assert (Hlen : (length pre + length mid = length (pre ++ mid))%nat)
    by (rewrite length_app; reflexivity).
  rewrite Hlen.
  assert (Hlt : Nat.ltb (length (pre ++ mid))
                        (length ((pre ++ mid) ++ x :: post)) = true).
  { apply Nat.ltb_lt. rewrite (length_app (pre ++ mid)). simpl. lia. }
  rewrite Hlt. f_equal.
  rewrite firstn_app, firstn_all, Nat.sub_diag. simpl firstn.
  rewrite app_nil_r.
  change (S (length (pre ++ mid))) with (1 + length (pre ++ mid))%nat.
  rewrite <- skipn_skipn, skipn_app, skipn_all, Nat.sub_diag.
  simpl. rewrite <- app_assoc. reflexivity.
Qed.

Lemma store_byte_here (pre post : list Z) (x v : Z) :
  store_byte (pre ++ x :: post) (length pre) v = Some (pre ++ v :: post).
Proof.
  pose proof (store_byte_app pre [] post x v) as H. simpl in H.
  rewrite Nat.add_0_r in H. exact H.
Qed.

Lemma store_byte_1 (pre post : list Z) (a x v : Z) :
  store_byte (pre ++ a :: x :: post) (length pre + 1) v
  = Some (pre ++ a :: v :: post).
Proof. exact (store_byte_app pre [a] post x v). Qed.

Lemma store_byte_2 (pre post : list Z) (a b x v : Z) :
  store_byte (pre ++ a :: b :: x :: post) (length pre + 2) v
  = Some (pre ++ a :: b :: v :: post).
Proof. exact (store_byte_app pre [a; b] post x v). Qed.

Lemma store_byte_3 (pre post : list Z) (a b c x v : Z) :
  store_byte (pre ++ a :: b :: c :: x :: post) (length pre + 3) v
  = Some (pre ++ a :: b :: c :: v :: post).
Proof. exact (store_byte_app pre [a; b; c] post x v). Qed.

Lemma uchar_low_byte (x : Z) : to_uchar (Z.land x 0xFF) = x mod 256.
Proof.
  unfold to_uchar. change 0xFF with (Z.ones 8).
  rewrite Z.land_ones by lia. change (2 ^ 8) with 256.
  apply Z.mod_mod. lia.
Qed.

Lemma be_bytes_4 (v : Z) :
  be_bytes 4 v
  = [(v / 2 ^ 24) mod 256; (v / 2 ^ 16) mod 256; (v / 2 ^ 8) mod 256;
     v mod 256].
Proof.
  cbn [be_bytes].
  change (256 ^ Z.of_nat 3) with (2 ^ 24).
  change (256 ^ Z.of_nat 2) with (2 ^ 16).
  change (256 ^ Z.of_nat 1) with (2 ^ 8).
  change (256 ^ Z.of_nat 0) with 1.
  rewrite Z.div_1_r. reflexivity.
Qed.

Lemma put_be32_app (pre mid post : list Z) (v : Z) :
  length mid = 4%nat ->
  put_be32 (pre ++ mid ++ post) (length pre) v
  = Some (pre ++ be_bytes 4 v ++ post).
Proof.
  intros Hlen.
  destruct mid as [|a [|b [|c [|d [|? ?]]]]]; try discriminate.
  unfold put_be32. rewrite !uchar_low_byte, !Z.shiftr_div_pow2 by lia.
  cbn [app]. rewrite store_byte_here. cbn [bind_opt].
  rewrite store_byte_1. cbn [bind_opt].
  rewrite store_byte_2. cbn [bind_opt].
  rewrite store_byte_3. rewrite be_bytes_4. reflexivity.
Qed.

Lemma be_bytes_snoc (b : nat) (v : Z) :
  be_bytes (S b) v = be_bytes b (v / 256) ++ [v mod 256].
Proof.
  induction b as [|b IH].
  - simpl. rewrite Z.div_1_r. reflexivity.
  - change (be_bytes (S (S b)) v)
      with ((v / 256 ^ Z.of_nat (S b)) mod 256 :: be_bytes (S b) v).
    rewrite IH. cbn [be_bytes app]. f_equal.
    rewrite Z.div_div by lia. rewrite Nat2Z.inj_succ, Z.pow_succ_r by lia.
    reflexivity.
Qed.

Lemma length_be_bytes (n : nat) (v : Z) : length (be_bytes n v) = n.
Proof. induction n; simpl; auto. Qed.

Lemma split_last {A : Type} (l : list A) (n : nat) :
  length l = S n -> exists l' x, l = l' ++ [x] /\ length l' = n.
Proof.
  intros H. destruct (exists_last (l := l)) as (l' & x & ->).
  - intros ->. discriminate.
  - exists l', x. split; auto. rewrite length_app in H. simpl in H. lia.
Qed.

Lemma put_be64_from_app (n : nat) : forall (pre mid post : list Z) (ut : Z),
  length mid = n -> 0 <= ut < 2 ^ 64 ->
  put_be64_from n (pre ++ mid ++ post) (length pre) ut
  = Some (pre ++ be_bytes n ut ++ post).
Proof.
  induction n as [|b IH]; intros pre mid post ut Hlen Hut.
  - destruct mid; [reflexivity | discriminate].
  - destruct (split_last mid b Hlen) as (mid' & x & -> & Hlen').
    cbn [put_be64_from]. rewrite <- (app_assoc mid'). cbn [app].
    rewrite <- Hlen' at 1. rewrite store_byte_app. cbn [bind_opt].
    rewrite uchar_low_byte, Z.shiftr_div_pow2 by lia.
    change (2 ^ 8) with 256.
    assert (Hq : 0 <= ut / 256 < 2 ^ 64).
    { split; [apply Z.div_pos; lia|].
      apply Z.div_lt_upper_bound; lia. }
    unfold to_uint64. rewrite (Z.mod_small (ut / 256)) by exact Hq.
    rewrite (IH pre mid' (ut mod 256 :: post) (ut / 256) Hlen' Hq).
    rewrite be_bytes_snoc, <- app_assoc. reflexivity.
Qed.

Lemma put_be64_app (pre mid post : list Z) (t : Z) :
  length mid = 8%nat ->
  put_be64 (pre ++ mid ++ post) (length pre) t
  = Some (pre ++ be_bytes 8 (to_uint64 t) ++ post).
Proof.
  intros Hlen. unfold put_be64. apply put_be64_from_app; auto.
  unfold to_uint64. apply Z.mod_pos_bound. lia.
Qed.

Lemma store_bytes_app (src : list Z) : forall (pre mid post : list Z),
  length mid = length src ->
  store_bytes (pre ++ mid ++ post) (length pre) src
  = Some (pre ++ src ++ post).
Proof.
  induction src as [|b src IH]; intros pre mid post Hlen.
  - destruct mid; [reflexivity | discriminate].
  - destruct mid as [|x mid]; [discriminate|].
    cbn [store_bytes app]. rewrite store_byte_here. cbn [bind_opt].
    replace (S (length pre)) with (length (pre ++ [b]))
      by (rewrite length_app; simpl; lia).
    replace (pre ++ b :: mid ++ post) with ((pre ++ [b]) ++ mid ++ post)
      by (rewrite <- app_assoc; reflexivity).
    rewrite IH by (simpl in Hlen; lia).
    rewrite <- app_assoc. reflexivity.
Qed.

Lemma split_length {A : Type} (l : list A) (n m : nat) :
  length l = (n + m)%nat ->
  exists l1 l2, l = l1 ++ l2 /\ length l1 = n /\ length l2 = m.
Proof.
  intros H. exists (firstn n l), (skipn n l).
  rewrite firstn_skipn, length_firstn, length_skipn.
  repeat split; lia.
Qed.

Lemma nth_error_map_middle {A B : Type} (f : A -> B) (done : list A)
    (r : A) (rest : list A) :
  nth_error (map f (done ++ r :: rest)) (length done) = Some (f r).
Proof.
  rewrite map_app. rewrite nth_error_app2 by (rewrite length_map; lia).
  rewrite length_map, Nat.sub_diag. reflexivity.
Qed.

(** The record loop stores the layout of the remaining records, one after
    the other, from the current position on. *)
Lemma encode_records_layout (recs : list (Z * list Z)) :
  forall (done : list (Z * list Z)) (pre mid post : list Z),
    length mid = length (concat (map record_layout recs)) ->
    encode_records (length recs) (length done)
      (Some (map fst (done ++ recs)))
      (map (fun r => Z.of_nat (length (snd r))) (done ++ recs))
      (map name_entry (done ++ recs))
      (pre ++ mid ++ post) (length pre)
    = Some (pre ++ concat (map record_layout recs) ++ post,
            (length pre + length mid)%nat).
Proof.
  induction recs as [|r recs IH]; intros done pre mid post Hlen.
  - destruct mid; [|discriminate]. simpl. rewrite Nat.add_0_r. reflexivity.
  - cbn [length encode_records].
    rewrite !nth_error_map_middle. cbn [bind_opt].
    cbn [map concat] in Hlen. rewrite length_app in Hlen.
    destruct (split_length mid _ _ Hlen) as (slot & mid' & -> & Hslot & Hmid').
    unfold record_layout in Hslot. rewrite !length_app in Hslot.
    rewrite !length_be_bytes in Hslot.
    destruct (split_length slot _ _ Hslot) as (s8 & slot' & -> & Hs8 & Hslot').
    destruct (split_length slot' _ _ Hslot') as (s4 & sn & -> & Hs4 & Hsn).
    rewrite <- !app_assoc.
    rewrite (put_be64_app pre s8 _ (fst r) Hs8). cbn [bind_opt].
    replace (length pre + 8)%nat
      with (length (pre ++ be_bytes 8 (to_uint64 (fst r))))
      by (rewrite length_app, length_be_bytes; reflexivity).
    rewrite (app_assoc pre (be_bytes 8 _)).
    rewrite (put_be32_app _ s4 _ _ Hs4). cbn [bind_opt].
    set (pre2 := (pre ++ be_bytes 8 (to_uint64 (fst r)))
                 ++ be_bytes 4 (Z.of_nat (length (snd r)))).
    assert (Hpre2 : (length pre + 12 = length pre2)%nat).
    { unfold pre2. rewrite !length_app, !length_be_bytes. lia. }
    assert (Hnext : forall buf' p',
      buf' = (pre2 ++ snd r) ++ mid' ++ post ->
      p' = length (pre2 ++ snd r) ->
      encode_records (length recs) (S (length done))
        (Some (map fst (done ++ r :: recs)))
        (map (fun r0 => Z.of_nat (length (snd r0))) (done ++ r :: recs))
        (map name_entry (done ++ r :: recs)) buf' p'
      = Some (pre ++ concat (map record_layout (r :: recs)) ++ post,
              (length pre + length (s8 ++ s4 ++ sn ++ mid'))%nat)).
    { intros buf' p' -> ->.
      replace (S (length done)) with (length (done ++ [r]))
        by (rewrite length_app; simpl; lia).
      replace (done ++ r :: recs) with ((done ++ [r]) ++ recs)
        by (rewrite <- app_assoc; reflexivity).
      rewrite (IH (done ++ [r]) (pre2 ++ snd r) mid' post Hmid').
      f_equal. f_equal.
      - unfold pre2. cbn [map concat]. unfold record_layout.
        rewrite <- !app_assoc. reflexivity.
      - unfold pre2. rewrite !length_app, !length_be_bytes. lia. }
    rewrite (app_assoc (pre ++ be_bytes 8 _) (be_bytes 4 _)).
    fold pre2. rewrite Hpre2.
    unfold name_entry at 1. destruct (snd r) as [|c cs] eqn:Hname.
    + destruct sn; [|discriminate]. cbn [app].
      apply Hnext; rewrite ?app_nil_r; reflexivity.
    + assert (Hpos : (Z.of_nat (length (c :: cs)) >? 0) = true)
        by (apply Z.gtb_lt; simpl length; lia).
      rewrite Hpos. unfold memcpy. rewrite Nat2Z.id, Nat.leb_refl.
      rewrite firstn_all.
      rewrite (store_bytes_app (c :: cs) pre2 sn _ Hsn). cbn [bind_opt].
      replace (length pre2 + length (c :: cs))%nat
        with (length (pre2 ++ c :: cs)) by (rewrite length_app; reflexivity).
      apply Hnext; [rewrite <- app_assoc|]; reflexivity.
Qed.

(** On a buffer of the size of the layout the encoder leaves the layout. *)
Lemma encode_snapshot_records (records : list (Z * list Z)) (buf : list Z) :
  length buf = length (snapshot_layout records) ->
  encode_snapshot (Z.of_nat (length records)) (Some (map fst records))
    (map (fun r => Z.of_nat (length (snd r))) records)
    (map name_entry records) buf
  = Some (snapshot_layout records).
Proof.
  intros Hlen.
  unfold snapshot_layout in *. rewrite length_app, length_be_bytes in Hlen.
  destruct (split_length buf _ _ Hlen) as (b4 & body & -> & Hb4 & Hbody).
  unfold encode_snapshot.
  pose proof (put_be32_app [] b4 body (Z.of_nat (length records)) Hb4) as H32.
  cbn [app length] in H32. rewrite H32. cbn [bind_opt].
  rewrite Nat2Z.id.
  pose proof (encode_records_layout records []
                (be_bytes 4 (Z.of_nat (length records))) body [] Hbody) as Hr.
  rewrite app_nil_r in Hr. cbn [app length] in Hr.
  rewrite length_be_bytes in Hr. rewrite Hr. cbn [bind_opt fst].
  rewrite app_nil_r. reflexivity.
Qed.

(** C2. On a buffer of exactly the size of the layout, the snapshot encoder
    produces: the 4-byte big-endian count N of the records, then for each
    record its 8-byte big-endian identifier, the 4-byte big-endian byte
    length L of its class name and the L name bytes, with no terminator.
    For the single entry (tag = 5, name = "A") these are the 17 bytes
    00 00 00 01, 00 00 00 00 00 00 00 05, 00 00 00 01, 'A'. *)
Theorem encode_snapshot_layout (records : list (Z * list Z))
    (buf : list Z) :
  length buf = length (snapshot_layout records) ->
  encode_snapshot (Z.of_nat (length records)) (Some (map fst records))
    (map (fun r => Z.of_nat (length (snd r))) records)
    (map name_entry records) buf
  = Some (snapshot_layout records) /\
  snapshot_layout [(5, string_bytes "A")]
  = [0; 0; 0; 1;  0; 0; 0; 0; 0; 0; 0; 5;  0; 0; 0; 1;  65].
Proof.
  intros Hlen. split; [|reflexivity].
  apply encode_snapshot_records. exact Hlen.
Qed.

Lemma encode_snapshot_layout_witness :
  length (repeat 0 17) = length (snapshot_layout [(5, [65])]) /\
  encode_snapshot 1 (Some [5]) [1] [Some [65]] (repeat 0 17)
  = Some [0; 0; 0; 1;  0; 0; 0; 0; 0; 0; 0; 5;  0; 0; 0; 1;  65].
Proof.
  split; [reflexivity|].
  exact (proj1 (encode_snapshot_layout [(5, [65])] (repeat 0 17) eq_refl)).
Defined.

(** ** The single-class snapshot and the multi-class walk *)

(** C9. When the single-class snapshot finds no matching object (the tag
    collector ends the pass with count 0, or the resolution of the collected
    tags yields no object) and the remaining requests succeed (the lookups of
    java/lang/Class and getName, the 4-byte output buffer, the byte array),
    the operation returns, not NULL, but the 4 bytes 00 00 00 00: a snapshot
    whose count field is 0 and which has no record. The output buffer is
    not initialised when it is allocated (agent.c:336): whatever it held,
    the four stores of agent.c:351-354 leave the count 0 in it. *)
Theorem empty_snapshot (rt : runtime) (className : string) (h : heap_t)
    (st : agent_state) (err : jvmtiError) (h2 : heap_t)
    (col : tag_collector_t) (st3 : agent_state) (found : Z)
    (objects : option (list jobject)) (tagsOut : option (list Z))
    (st4 : agent_state) :
  g_jvmti st = true ->
  utf_chars_ok rt className = true ->
  class_found rt className = true ->
  IterateThroughHeap rt (Some className) heap_tagging_cb
    (fst (clear_all_tags rt h st)) col_zero
    (set_local_counter (snd (clear_all_tags rt h st)) 1)
  = (err, h2, col, st3) ->
  resolve_collected rt col h2 st3 = (found, objects, tagsOut, st4) ->
  count col = 0 \/ found = 0 ->
  class_found rt "java/lang/Class" = true ->
  getName_found rt = true ->
  fst (request_memory st4) = true ->
  new_byte_array_ok rt 4 = true ->
  Java_migrator_heap_NativeHeapWalker_nativeSnapshotBytes
    rt (Some className) h st
  = (Value [0; 0; 0; 0], h2, snd (request_memory st4)).
Proof.
  intros Hj Hu Hc Hit Hres Hzero HC HN Hm HB.
  assert (Hfound : found = 0).
  { destruct Hzero as [Hz | Hz]; [|exact Hz].
    unfold resolve_collected in Hres. rewrite Hz in Hres. simpl in Hres.
    inversion Hres. reflexivity. }
  subst found.
  unfold Java_migrator_heap_NativeHeapWalker_nativeSnapshotBytes.
  rewrite Hj, Hu, Hc. cbn [negb].
  destruct (clear_all_tags rt h st) as [h1 st1]. cbn [fst snd] in Hit.
  rewrite Hit, Hres, HC, HN. cbn [negb].
  unfold allocate_name_arrays, first_objects. cbn [Z.gtb Z.compare negb].
  replace (resolve_names rt h2
             match objects with
             | Some l => firstn (Z.to_nat 0) l
             | None => []
             end [] [] 4 st4)
    with (Some ([] : list (option (list Z)), [] : list Z, 4), st4)
    by (destruct objects; reflexivity).
  change (4 >? INT_MAX) with false. cbv iota.
  destruct (request_memory st4) as [ok st7]. cbn [fst snd] in *. subst ok.
  cbn [negb]. change (Z.to_nat 4) with 4%nat.
  unfold encode_snapshot, malloc_buffer. cbn. rewrite HB. reflexivity.
Qed.

(** The buffer holds A5 A5 A5 A5 when it is allocated. *)
Lemma empty_snapshot_witness :
  malloc_buffer cooperative_runtime 4 = [165; 165; 165; 165] /\
  Java_migrator_heap_NativeHeapWalker_nativeSnapshotBytes
    cooperative_runtime (Some "A"%string)
    [mkObject "B" 7; mkObject "B" 0] (started_state [])
  = (Value [0; 0; 0; 0], [mkObject "B" 0; mkObject "B" 0], started_state []).
Proof.
  split; [reflexivity|].
  exact (empty_snapshot cooperative_runtime "A"
           [mkObject "B" 7; mkObject "B" 0] (started_state [])
           JVMTI_ERROR_NONE [mkObject "B" 0; mkObject "B" 0] col_zero
           (started_state []) 0 None None (started_state [])
           eq_refl eq_refl eq_refl eq_refl eq_refl (or_introl eq_refl)
           eq_refl eq_refl eq_refl eq_refl).
Defined.

(** C1 (the code departs from the claim). 129 instances of class A, the
    growth of the tag buffer failing at the 129th append: the pass ends with
    the failure recorded and 128 tags collected, and the operation returns,
    not NULL, but the snapshot of the 128 objects tagged before the failure,
    whether or not the heap iteration stops on the callback's
    JVMTI_ITERATION_ABORT. With a single instance and the failure at the
    first append it returns the empty snapshot 00 00 00 00, not NULL
    either. *)
Theorem snapshot_after_failed_append :
  (let col := snd (fst (IterateThroughHeap cooperative_runtime
                          (Some "A"%string) heap_tagging_cb heap_129 col_zero
                          (set_local_counter
                             (started_state plan_fail_second) 1))) in
   alloc_failed col = 1 /\ count col = 128) /\
  fst (fst (Java_migrator_heap_NativeHeapWalker_nativeSnapshotBytes
              cooperative_runtime (Some "A"%string) heap_129
              (started_state plan_fail_second)))
  = Value (snapshot_layout records_128) /\
  fst (fst (Java_migrator_heap_NativeHeapWalker_nativeSnapshotBytes
              visit_flags_runtime (Some "A"%string) heap_129
              (started_state plan_fail_second)))
  = Value (snapshot_layout records_128) /\
  fst (fst (Java_migrator_heap_NativeHeapWalker_nativeSnapshotBytes
              cooperative_runtime (Some "A"%string) [mkObject "A" 0]
              (started_state [false])))
  = Value [0; 0; 0; 0].
Proof.
  split; [|split; [|split]]; vm_compute; auto.
Qed.

(** ** The epoch *)

Section EpochFrame.

Variable rt : runtime.

Lemma iterate_tagging_epoch klass h col st err h' col' st' :
  IterateThroughHeap rt klass heap_tagging_cb h col (set_local_counter st 1)
  = (err, h', col', st') ->
  g_epoch st' = g_epoch st.
Proof.
  intros H. apply IterateThroughHeap_cases in H.
  destruct H as [(_ & _ & _ & _ & ->) | (_ & _ & Hv)]; [reflexivity|].
  destruct (visit_tagging rt klass h _ _ _ _ _ 1 Hv eq_refl)
    as (k' & _ & _ & He & _).
  exact He.
Qed.

Lemma GetObjectsWithTags_epoch cnt ts h st err found objs tagsOut st' :
  GetObjectsWithTags rt cnt ts h st = (err, found, objs, tagsOut, st') ->
  g_epoch st' = g_epoch st.
Proof.
  unfold GetObjectsWithTags.
  destruct (get_objects_fails rt _); intros H; inversion H; reflexivity.
Qed.

Lemma delete_local_refs_epoch objs : forall st,
  g_epoch (delete_local_refs objs st) = g_epoch st.
Proof.
  unfold delete_local_refs.
  induction objs as [|o objs IH]; intros st; simpl; [reflexivity|].
  rewrite IH. reflexivity.
Qed.

Lemma request_memory_epoch st ok st' :
  request_memory st = (ok, st') -> g_epoch st' = g_epoch st.
Proof.
  intros H. pose proof (request_memory_frame st) as (_ & He & _).
  rewrite H in He. exact He.
Qed.

Lemma resolve_collected_epoch col h st found objs tagsOut st' :
  resolve_collected rt col h st = (found, objs, tagsOut, st') ->
  g_epoch st' = g_epoch st.
Proof.
  unfold resolve_collected. destruct (count col >? 0).
  - destruct (GetObjectsWithTags rt (count col) (tags col) h st)
      as [[[[e f] o] t] s] eqn:Hg.
    apply GetObjectsWithTags_epoch in Hg.
    destruct e; intros H; inversion H; subst; exact Hg.
  - intros H; inversion H; reflexivity.
Qed.

Lemma allocate_name_arrays_epoch found st ok st' :
  allocate_name_arrays found st = (ok, st') -> g_epoch st' = g_epoch st.
Proof.
  unfold allocate_name_arrays. destruct (found >? 0).
  - destruct (request_memory st) as [ok1 st1] eqn:H1.
    destruct (request_memory st1) as [ok2 st2] eqn:H2.
    apply request_memory_epoch in H1, H2.
    intros H; inversion H; subst. congruence.
  - intros H; inversion H; reflexivity.
Qed.

Lemma resolve_names_epoch h objects : forall names lens total st r st',
  resolve_names rt h objects names lens total st = (r, st') ->
  g_epoch st' = g_epoch st.
Proof.
  induction objects as [|obj rest IH]; intros names lens total st r st' H.
  - inversion H; reflexivity.
  - cbn [resolve_names] in H.
    destruct (bind_opt (nth_error h obj) _) as [cn|].
    + destruct (to_jint (Z.of_nat (length cn)) >? 0).
      * destruct (request_memory st) as [ok st1] eqn:Hm.
        apply request_memory_epoch in Hm.
        destruct ok; cbn [negb] in H.
        -- apply IH in H. rewrite H. exact Hm.
        -- inversion H; subst. exact Hm.
      * apply IH in H. exact H.
    + apply IH in H. exact H.
Qed.

Lemma clear_all_tags_state h st : snd (clear_all_tags rt h st) = st.
Proof. rewrite clear_all_tags_eq. reflexivity. Qed.

Lemma nativeSnapshotBytes_epoch jClassName h st r h' st' :
  Java_migrator_heap_NativeHeapWalker_nativeSnapshotBytes rt jClassName h st
  = (r, h', st') ->
  g_epoch st' = g_epoch st.
Proof.
  unfold Java_migrator_heap_NativeHeapWalker_nativeSnapshotBytes.
  destruct jClassName as [className|]; [|intros H; inversion H; reflexivity].
  destruct (g_jvmti st); cbn [negb]; [|intros H; inversion H; reflexivity].
  pose proof (clear_all_tags_state h st) as Hc.
  destruct (clear_all_tags rt h st) as [h1 st1]. cbn [snd] in Hc. subst st1.
  destruct (utf_chars_ok rt className); cbn [negb];
    [|intros H; inversion H; reflexivity].
  destruct (class_found rt className); cbn [negb];
    [|intros H; inversion H; reflexivity].
  destruct (IterateThroughHeap rt (Some className) heap_tagging_cb h1
              col_zero (set_local_counter st 1))
    as [[[e h2] col] st3] eqn:Hit.
  apply iterate_tagging_epoch in Hit.
  destruct (resolve_collected rt col h2 st3) as [[[found objs] tagsOut] st4]
    eqn:Hres.
  apply resolve_collected_epoch in Hres.
  destruct (class_found rt "java/lang/Class"); cbn [negb];
    [|intros H; inversion H; congruence].
  destruct (getName_found rt); cbn [negb];
    [|intros H; inversion H; congruence].
  destruct (allocate_name_arrays found st4) as [ok st5] eqn:Hal.
  apply allocate_name_arrays_epoch in Hal.
  destruct ok; cbn [negb]; [|intros H; inversion H; congruence].
  destruct (resolve_names rt h2 (first_objects found objs) [] [] 4 st5)
    as [res st6] eqn:Hnames.
  apply resolve_names_epoch in Hnames.
  destruct res as [[[names lens] total]|];
    [|intros H; inversion H; congruence].
  destruct (total >? INT_MAX); [intros H; inversion H; congruence|].
  destruct (request_memory st6) as [ok st7] eqn:Hm.
  apply request_memory_epoch in Hm.
  destruct ok; cbn [negb]; [|intros H; inversion H; congruence].
  destruct (encode_snapshot found tagsOut lens names _);
    [|intros H; inversion H; congruence].
  destruct (new_byte_array_ok rt total); cbn [negb];
    intros H; inversion H; congruence.
Qed.

Lemma nativeResolve_epoch tag h st r st' :
  Java_migrator_heap_NativeHeapWalker_nativeResolve rt tag h st = (r, st') ->
  g_epoch st' = g_epoch st.
Proof.
  unfold Java_migrator_heap_NativeHeapWalker_nativeResolve.
  destruct (g_jvmti st); cbn [negb]; [|intros H; inversion H; reflexivity].
  destruct (GetObjectsWithTags rt 1 [tag] h st)
    as [[[[e cnt] objs] t] st1] eqn:Hg.
  apply GetObjectsWithTags_epoch in Hg.
  destruct e; [|intros H; inversion H; congruence].
  destruct objs as [[|res others]|]; try (intros H; inversion H; congruence).
  destruct (cnt >? 0); intros H; inversion H; subst; [|congruence].
  rewrite delete_local_refs_epoch. exact Hg.
Qed.

Lemma nativeWalkHeap_epoch h st r h' st' :
  Java_migrator_heap_NativeHeapWalker_nativeWalkHeap rt h st = (r, h', st') ->
  g_epoch st' = g_epoch st.
Proof.
  unfold Java_migrator_heap_NativeHeapWalker_nativeWalkHeap.
  destruct (g_jvmti st); cbn [negb]; [|intros H; inversion H; reflexivity].
  pose proof (clear_all_tags_state h st) as Hc.
  destruct (clear_all_tags rt h st) as [h1 st1]. cbn [snd] in Hc. subst st1.
  destruct (IterateThroughHeap rt None heap_tagging_cb h1 col_zero
              (set_local_counter st 1))
    as [[[e h2] col] st3] eqn:Hit.
  apply iterate_tagging_epoch in Hit.
  destruct (count col <=? 0); [intros H; inversion H; congruence|].
  destruct (GetObjectsWithTags rt (count col) (tags col) h2 st3)
    as [[[[e2 found] objs] t] st4] eqn:Hg.
  apply GetObjectsWithTags_epoch in Hg.
  destruct e2; [|intros H; inversion H; congruence].
  destruct (class_found rt "java/lang/Object"); cbn [negb];
    [|intros H; inversion H; congruence].
  destruct (new_object_array_ok rt found); cbn [negb];
    intros H; inversion H; subst; [|congruence].
  rewrite delete_local_refs_epoch. congruence.
Qed.

(** The loop over the classes raises the epoch once per class it tags. *)
Lemma walk_classes_epoch classNames :
  forall h st collected cnt cap r h' st',
    walk_classes rt classNames h st collected cnt cap = (r, h', st') ->
    is_jlong (g_epoch st) ->
    g_epoch st + Z.of_nat (length classNames) <= JLONG_MAX ->
    g_epoch st <= g_epoch st' <= g_epoch st + Z.of_nat (length classNames).
Proof.
  induction classNames as [|jName rest IH];
    intros h st collected cnt cap r h' st' H Hr Hb.
  - inversion H; subst. simpl. lia.
  - cbn [length] in *. rewrite Nat2Z.inj_succ in *.
    assert (Hskip : forall h0 c0 n0 p0,
               walk_classes rt rest h0 st c0 n0 p0 = (r, h', st') ->
               g_epoch st <= g_epoch st'
               <= g_epoch st + Z.succ (Z.of_nat (length rest))).
    { intros h0 c0 n0 p0 H0. apply IH in H0; [lia | exact Hr | lia]. }
    cbn [walk_classes] in H.
    destruct jName as [cname|]; [|eauto].
    destruct (utf_chars_ok rt cname); cbn [negb] in H; [|eauto].
    destruct (class_found rt cname); cbn [negb] in H; [|eauto].
    unfold fetch_and_add_epoch in H.
    set (st1 := set_epoch st (to_jlong (g_epoch st + 1))) in *.
    assert (He1 : g_epoch st1 = g_epoch st + 1).
    { unfold st1. simpl. apply to_jlong_small.
      unfold is_jlong, JLONG_MAX in *. lia. }
    assert (Hnext : forall h0 s0 c0 n0 p0,
               g_epoch s0 = g_epoch st1 ->
               walk_classes rt rest h0 s0 c0 n0 p0 = (r, h', st') ->
               g_epoch st <= g_epoch st'
               <= g_epoch st + Z.succ (Z.of_nat (length rest))).
    { intros h0 s0 c0 n0 p0 Hs0 H0. apply IH in H0.
      - lia.
      - unfold is_jlong, JLONG_MAX in *. lia.
      - lia. }
    destruct (IterateThroughHeap rt (Some cname) heap_tagging_cb h col_zero
                (set_local_counter st1 1))
      as [[[e h1] col] st3] eqn:Hit.
    apply iterate_tagging_epoch in Hit.
    destruct e; [|eauto].
    destruct (count col <=? 0); [eauto|].
    destruct (GetObjectsWithTags rt (count col) (tags col) h1 st3)
      as [[[[e2 found] objs] t] st4] eqn:Hg.
    apply GetObjectsWithTags_epoch in Hg.
    assert (H4 : g_epoch st4 = g_epoch st1) by congruence.
    destruct e2; [|eauto].
    destruct objs as [os|]; [|eauto].
    destruct (found >? 0); [|eauto].
    destruct (to_jint (cnt + found) >? cap); [|eauto].
    destruct (request_memory st4) as [ok st5] eqn:Hm.
    apply request_memory_epoch in Hm.
    destruct ok; cbn [negb] in H.
    + eapply Hnext; [|exact H]. congruence.
    + inversion H; subst. rewrite delete_local_refs_epoch. lia.
Qed.

Lemma nativeWalkHeapFiltered_epoch names h st r h' st' :
  Java_migrator_heap_NativeHeapWalker_nativeWalkHeapFiltered rt names h st
  = (r, h', st') ->
  is_jlong (g_epoch st) ->
  g_epoch st + max_bumps (WalkHeapFiltered names) <= JLONG_MAX ->
  g_epoch st <= g_epoch st' <= g_epoch st + max_bumps (WalkHeapFiltered names).
Proof.
  unfold Java_migrator_heap_NativeHeapWalker_nativeWalkHeapFiltered.
  destruct names as [classNames|]; cbn [max_bumps];
    [|intros H; inversion H; lia].
  intros H Hr Hb.
  destruct (g_jvmti st); cbn [negb] in H; [|inversion H; lia].
  destruct (Z.of_nat (length classNames) =? 0); [inversion H; lia|].
  destruct (walk_classes rt classNames h st [] 0 0) as [[res h1] st1] eqn:Hw.
  apply walk_classes_epoch in Hw; auto.
  destruct res as [[[collected cnt] cap]|]; [|inversion H; subst; lia].
  destruct (cnt =? 0); [inversion H; subst; lia|].
  destruct (class_found rt "java/lang/Object"); cbn [negb] in H;
    [|inversion H; subst; rewrite delete_local_refs_epoch; lia].
  destruct (new_object_array_ok rt cnt); cbn [negb] in H;
    inversion H; subst; rewrite delete_local_refs_epoch; lia.
Qed.

Lemma run_call_epoch c h st h' st' :
  run_call rt c (h, st) = (h', st') ->
  is_jlong (g_epoch st) ->
  g_epoch st + max_bumps c <= JLONG_MAX ->
  g_epoch st <= g_epoch st' <= g_epoch st + max_bumps c.
Proof.
  unfold run_call, native_return. intros H Hr Hb.
  destruct c as [n | t | | a |].
  - destruct (Java_migrator_heap_NativeHeapWalker_nativeSnapshotBytes _ _ _ _)
      as [[r h1] st1] eqn:Hop.
    apply nativeSnapshotBytes_epoch in Hop. inversion H; subst.
    cbn [g_epoch set_local_refs max_bumps]. lia.
  - destruct (Java_migrator_heap_NativeHeapWalker_nativeResolve _ _ _ _)
      as [r st1] eqn:Hop.
    apply nativeResolve_epoch in Hop. inversion H; subst.
    cbn [g_epoch set_local_refs max_bumps snd]. lia.
  - destruct (Java_migrator_heap_NativeHeapWalker_nativeWalkHeap _ _ _)
      as [[r h1] st1] eqn:Hop.
    apply nativeWalkHeap_epoch in Hop. inversion H; subst.
    cbn [g_epoch set_local_refs max_bumps]. lia.
  - destruct (Java_migrator_heap_NativeHeapWalker_nativeWalkHeapFiltered _ _ _ _)
      as [[r h1] st1] eqn:Hop.
    apply nativeWalkHeapFiltered_epoch in Hop; auto. inversion H; subst.
    cbn [g_epoch set_local_refs]. lia.
  - inversion H; subst. simpl in *.
    rewrite to_jlong_small by (unfold is_jlong, JLONG_MAX in *; lia). lia.
Qed.

Lemma max_bumps_nonneg c : 0 <= max_bumps c.
Proof. destruct c as [| | |[?|]|]; simpl; lia. Qed.

Lemma total_bumps_nonneg cs : 0 <= total_bumps cs.
Proof.
  induction cs as [|c cs IH]; [simpl; lia|].
  change (total_bumps (c :: cs)) with (max_bumps c + total_bumps cs).
  pose proof (max_bumps_nonneg c). lia.
Qed.

Lemma run_calls_epoch cs : forall h st h' st',
  run_calls rt cs (h, st) = (h', st') ->
  is_jlong (g_epoch st) ->
  g_epoch st + total_bumps cs <= JLONG_MAX ->
  g_epoch st <= g_epoch st' <= g_epoch st + total_bumps cs.
Proof.
  unfold run_calls.
  induction cs as [|c cs IH]; intros h st h' st' H Hr Hb.
  - inversion H; subst. simpl. lia.
  - change (total_bumps (c :: cs)) with (max_bumps c + total_bumps cs) in *.
    cbn [fold_left] in H.
    pose proof (max_bumps_nonneg c) as Hc0.
    pose proof (total_bumps_nonneg cs) as Ht0.
    destruct (run_call rt c (h, st)) as [h1 st1] eqn:Hc.
    apply run_call_epoch in Hc; [|exact Hr|lia].
    apply IH in H.
    + lia.
    + unfold is_jlong, JLONG_MAX in *. lia.
    + lia.
Qed.

Lemma run_advance_epoch (N : nat) : forall h st,
  is_jlong (g_epoch st) ->
  g_epoch st + Z.of_nat N <= JLONG_MAX ->
  g_epoch (snd (run_calls rt (repeat AdvanceEpoch N) (h, st)))
  = g_epoch st + Z.of_nat N.
Proof.
  unfold run_calls.
  induction N as [|N IH]; intros h st Hr Hb.
  - simpl. lia.
  - cbn [repeat fold_left run_call].
    rewrite Nat2Z.inj_succ in *.
    rewrite IH.
    + simpl. rewrite to_jlong_small
        by (unfold is_jlong, JLONG_MAX in *; lia). lia.
    + simpl. apply to_jlong_range.
    + simpl. rewrite to_jlong_small
        by (unfold is_jlong, JLONG_MAX in *; lia). lia.
Qed.

End EpochFrame.

(** C7. N calls of advanceEpoch raise the epoch by exactly N, each call
    being one increment, and no operation of the agent lowers or resets it:
    over any sequence of calls the epoch only grows, by at most one per
    advanceEpoch call and one per class name of a multi-class walk. The
    epoch is a 64-bit counter: this holds as long as it does not pass
    2^63 - 1. *)
Theorem epoch_monotonic (rt : runtime) (h : heap_t) (st : agent_state) :
  is_jlong (g_epoch st) ->
  (forall N : nat,
      g_epoch st + Z.of_nat N <= JLONG_MAX ->
      g_epoch (snd (run_calls rt (repeat AdvanceEpoch N) (h, st)))
      = g_epoch st + Z.of_nat N) /\
  (g_epoch st < JLONG_MAX ->
   g_epoch (Java_migrator_heap_NativeHeapWalker_nativeAdvanceEpoch st)
   = g_epoch st + 1) /\
  (forall cs : list native_call,
      g_epoch st + total_bumps cs <= JLONG_MAX ->
      g_epoch st <= g_epoch (snd (run_calls rt cs (h, st)))
      <= g_epoch st + total_bumps cs).
Proof.
  intros Hr. split; [|split].
  - intros N Hb. apply run_advance_epoch; assumption.
  - intros Hb. simpl. apply to_jlong_small.
    unfold is_jlong, JLONG_MAX in *. lia.
  - intros cs Hb.
    destruct (run_calls rt cs (h, st)) as [h' st'] eqn:Hrun.
    apply run_calls_epoch in Hrun; assumption.
Qed.

Lemma epoch_monotonic_witness :
  is_jlong (g_epoch (started_state [])) /\
  g_epoch (snd (run_calls cooperative_runtime (repeat AdvanceEpoch 3)
                  ([mkObject "A" 0], started_state []))) = 1 + 3 /\
  1 <= g_epoch (snd (run_calls cooperative_runtime
                       [SnapshotBytes (Some "A"%string); AdvanceEpoch;
                        WalkHeapFiltered (Some [Some "A"%string]); WalkHeap]
                       ([mkObject "A" 0], started_state []))) <= 1 + 2.
Proof.
  assert (Hr : is_jlong (g_epoch (started_state [])))
    by (unfold is_jlong, JLONG_MAX; simpl; lia).
  split; [exact Hr|].
  pose proof (epoch_monotonic cooperative_runtime [mkObject "A" 0]
                (started_state []) Hr) as (Hadv & _ & Hall).
  split.
  - apply (Hadv 3%nat). unfold JLONG_MAX. simpl. lia.
  - apply (Hall [SnapshotBytes (Some "A"%string); AdvanceEpoch;
                 WalkHeapFiltered (Some [Some "A"%string]); WalkHeap]).
    unfold JLONG_MAX. simpl. lia.
Defined.

(** ** The snapshot as a whole *)

Section SnapshotSizes.

Variable rt : runtime.
Variable h : heap_t.

Lemma to_jint_small (x : Z) : 0 <= x < 2 ^ 31 -> to_jint x = x.
Proof.
  intros H. unfold to_jint. rewrite Z.mod_small by lia. lia.
Qed.

(** When every name is read, the pre-pass of agent.c:252-321 fills [names]
    and [lens] with the entries of the records and adds to [total] the size
    of their layout. *)
Lemma resolve_names_readable (resolved : list (jobject * Z)) :
  forall names lens total st names' lens' total' st',
    Forall (fun ot => readable rt h (fst ot)) resolved ->
    0 <= total ->
    total + Z.of_nat (length resolved) * (12 + 2 ^ 31) < 2 ^ 64 ->
    resolve_names rt h (map fst resolved) names lens total st
    = (Some (names', lens', total'), st') ->
    names' = names ++ map name_entry (snapshot_records rt h resolved) /\
    lens' = lens ++ map (fun r => Z.of_nat (length (snd r)))
                        (snapshot_records rt h resolved) /\
    total' = total + Z.of_nat (length (concat (map record_layout
                                 (snapshot_records rt h resolved)))).
Proof.
  induction resolved as [|[obj t] rest IH];
    intros names lens total st names' lens' total' st' Hr H0 Hb H.
  - simpl in *. inversion H; subst. rewrite !app_nil_r. repeat split. lia.
  - inversion Hr as [|? ? [Hsome Hlen] Hrest]; subst. cbn [fst] in *.
    cbn [map fst resolve_names] in H.
    unfold name_bytes in Hlen.
    cbn [snapshot_records map concat fst snd].
    fold (snapshot_records rt h rest).
    unfold name_entry at 1, record_layout at 1. cbn [fst snd].
    unfold name_bytes at 1 2 3 4 5.
    destruct (bind_opt (nth_error h obj) _) as [cn|]; [|contradiction].
    rewrite (to_jint_small (Z.of_nat (length cn))) in H by lia.
    cbn [length] in Hb. rewrite Nat2Z.inj_succ in Hb.
    rewrite !length_app, !length_be_bytes.
    assert (Hlen64 : to_uint64 (Z.of_nat (length cn)) = Z.of_nat (length cn))
      by (unfold to_uint64; apply Z.mod_small; lia).
    rewrite Hlen64 in H.
    assert (Htot : to_uint64 (total + 8 + 4 + Z.of_nat (length cn))
                   = total + 8 + 4 + Z.of_nat (length cn))
      by (unfold to_uint64; apply Z.mod_small; lia).
    rewrite Htot in H.
    destruct cn as [|c cs].
    + cbn [length Z.of_nat Z.gtb Z.compare] in H.
      apply IH in H; [|assumption|simpl; lia|simpl; lia].
      destruct H as (-> & -> & ->).
      rewrite <- !app_assoc. cbn [app length].
      repeat split. lia.
    + assert (Hpos : (Z.of_nat (length (c :: cs)) >? 0) = true)
        by (apply Z.gtb_lt; simpl length; lia).
      rewrite Hpos in H.
      destruct (request_memory st) as [ok st1].
      destruct ok; cbn [negb] in H; [|discriminate].
      rewrite Nat2Z.id, firstn_all in H.
      apply IH in H; [|assumption|lia|lia].
      destruct H as (-> & -> & ->).
      rewrite <- !app_assoc. cbn [app].
      repeat split. lia.
Qed.

End SnapshotSizes.

Lemma objects_with_tags_valid req h i t :
  In (i, t) (objects_with_tags req h) ->
  exists o, nth_error h i = Some o /\ obj_tag o = t.
Proof.
  unfold objects_with_tags. intros Hin.
  apply in_map_iff in Hin. destruct Hin as ([j o] & Heq & Hin).
  simpl in Heq. inversion Heq; subst.
  apply filter_In in Hin. destruct Hin as [Hin _].
  apply in_combine_seq in Hin. destruct Hin as [_ Hn].
  rewrite Nat.sub_0_r in Hn. exists o. auto.
Qed.

Lemma objects_with_tags_length req h :
  (length (objects_with_tags req h) <= length h)%nat.
Proof.
  unfold objects_with_tags. rewrite length_map.
  eapply Nat.le_trans; [apply filter_length_le|].
  rewrite length_combine, length_seq. lia.
Qed.

Lemma nth_error_in_combine_seq {A : Type} (l : list A) : forall s i x,
  nth_error l i = Some x -> In ((s + i)%nat, x) (combine (seq s (length l)) l).
Proof.
  induction l as [|a l IH]; intros s i x Hi.
  - destruct i; discriminate.
  - cbn [length seq combine]. destruct i as [|i]; simpl in Hi.
    + inversion Hi; subst. left. rewrite Nat.add_0_r. reflexivity.
    + right. replace (s + S i)%nat with (S s + i)%nat by lia.
      apply IH. exact Hi.
Qed.

Lemma objects_with_tags_found req h i o :
  nth_error h i = Some o -> In (obj_tag o) req ->
  In (i, obj_tag o) (objects_with_tags req h).
Proof.
  intros Hi Hin. unfold objects_with_tags.
  apply in_map_iff. exists (i, o). split; [reflexivity|].
  apply filter_In. split.
  - exact (nth_error_in_combine_seq h 0 i o Hi).
  - apply existsb_exists. exists (obj_tag o). split; auto.
    apply Z.eqb_refl.
Qed.

Lemma objects_with_tags_distinct req h :
  NoDup (map fst (objects_with_tags req h)).
Proof.
  unfold objects_with_tags. rewrite map_map. cbn [fst].
  assert (H : forall s,
    NoDup (map (fun io : nat * heap_object => fst io)
             (filter (fun io => existsb (Z.eqb (obj_tag (snd io))) req)
                (combine (seq s (length h)) h))) /\
    forall x, In x (map (fun io : nat * heap_object => fst io)
             (filter (fun io => existsb (Z.eqb (obj_tag (snd io))) req)
                (combine (seq s (length h)) h))) -> (s <= x)%nat).
  { induction h as [|o h IH]; intros s.
    - simpl. split; [constructor | intros x []].
    - cbn [length seq combine filter snd].
      destruct (IH (S s)) as [Hnd Hge].
      destruct (existsb (Z.eqb (obj_tag o)) req); cbn [map fst].
      + split.
        * constructor; [|exact Hnd]. intros Hin. apply Hge in Hin. lia.
        * intros x [<- | Hin]; [lia|]. apply Hge in Hin. lia.
      + split; [exact Hnd|]. intros x Hin. apply Hge in Hin. lia. }
  apply H.
Qed.

Lemma length_malloc_buffer rt n : length (malloc_buffer rt n) = n.
Proof. unfold malloc_buffer. rewrite length_map. apply length_seq. Qed.

(** The order of the listing does not matter to what is listed. *)
Lemma listing_in rt (l : list (jobject * Z)) x :
  In x (listing rt l) <-> In x l.
Proof.
  split; intros H.
  - eapply Permutation_in; [apply Permutation_sym, listing_perm | exact H].
  - eapply Permutation_in; [apply listing_perm | exact H].
Qed.

Lemma listing_length rt (l : list (jobject * Z)) :
  length (listing rt l) = length l.
Proof. symmetry. apply Permutation_length, listing_perm. Qed.

Lemma listing_in_fst rt (l : list (jobject * Z)) i :
  In i (map fst (listing rt l)) <-> In i (map fst l).
Proof.
  split; intros H; apply in_map_iff in H; destruct H as (x & <- & Hx);
    apply in_map; apply (listing_in rt l x); exact Hx.
Qed.

Lemma listing_in_snd rt (l : list (jobject * Z)) t :
  In t (map snd (listing rt l)) <-> In t (map snd l).
Proof.
  split; intros H; apply in_map_iff in H; destruct H as (x & <- & Hx);
    apply in_map; apply (listing_in rt l x); exact Hx.
Qed.

(** What GetObjectsWithTags lists, whatever the order of the listing. *)
Lemma listed_valid rt req h i t :
  In (i, t) (listing rt (objects_with_tags req h)) ->
  exists o, nth_error h i = Some o /\ obj_tag o = t.
Proof.
  intros H. apply listing_in in H. eapply objects_with_tags_valid; eauto.
Qed.

Lemma listed_found rt req h i o :
  nth_error h i = Some o -> In (obj_tag o) req ->
  In (i, obj_tag o) (listing rt (objects_with_tags req h)).
Proof.
  intros Hi Hin. apply listing_in. apply objects_with_tags_found; auto.
Qed.

Lemma listed_in rt req h i :
  In i (map fst (listing rt (objects_with_tags req h))) ->
  exists o, nth_error h i = Some o /\ In (obj_tag o) req.
Proof.
  intros H. apply listing_in_fst in H. apply objects_with_tags_in. exact H.
Qed.

Lemma listed_length rt req h :
  (length (listing rt (objects_with_tags req h)) <= length h)%nat.
Proof. rewrite listing_length. apply objects_with_tags_length. Qed.

Lemma listed_distinct rt req h :
  NoDup (map fst (listing rt (objects_with_tags req h))).
Proof.
  eapply Permutation_NoDup; [|apply (objects_with_tags_distinct req h)].
  apply Permutation_map, listing_perm.
Qed.

(** What [resolve_collected] hands to the encoder: the count, the
    references and the tags of a list of resolved objects of the heap. *)
Lemma resolve_collected_cases rt col h st found objects tagsOut st' :
  resolve_collected rt col h st = (found, objects, tagsOut, st') ->
  exists resolved,
    found = Z.of_nat (length resolved) /\
    first_objects found objects = map fst resolved /\
    (tagsOut = Some (map snd resolved) \/ resolved = []) /\
    (length resolved <= length h)%nat /\
    (forall i t, In (i, t) resolved ->
                 exists o, nth_error h i = Some o /\ obj_tag o = t).
Proof.
  unfold resolve_collected, GetObjectsWithTags.
  destruct (count col >? 0).
  - destruct (get_objects_fails rt _).
    + intros H; inversion H; subst. exists []. simpl.
      repeat split; auto; try lia; try (intros ? ? []).
    + intros H; inversion H; subst.
      set (r := listing rt (objects_with_tags _ h)).
      exists r. unfold first_objects. rewrite Nat2Z.id.
      rewrite <- (length_map fst r), firstn_all, length_map.
      repeat split; auto.
      * unfold r. rewrite listing_length. apply objects_with_tags_length.
      * intros i t Hin. apply listing_in in Hin.
        eapply objects_with_tags_valid; eauto.
  - intros H; inversion H; subst. exists []. simpl.
    repeat split; auto; try lia; try (intros ? ? []).
Qed.

Lemma clear_all_tags_length rt h st :
  length (fst (clear_all_tags rt h st)) = length h.
Proof.
  rewrite clear_all_tags_eq. cbn [fst].
  destruct (negb (g_jvmti st) || iterate_fails rt None); [reflexivity|].
  destruct (visit_abort rt JVMTI_ITERATION_CONTINUE).
  - destruct h; reflexivity.
  - apply length_map.
Qed.

(** X19. Whenever the single-class snapshot returns a byte array while every
    class name can be read and the heap has fewer than 2^31 objects, the
    array is the layout of the records of the resolved objects: on that
    path the size computed by the pre-pass is the size of the layout. *)
Theorem snapshot_bytes_layout (rt : runtime) (jClassName : option string)
    (h : heap_t) (st : agent_state) (bytes : list Z) (h' : heap_t)
    (st' : agent_state) :
  (forall c, exists cn, display_name rt c = Some cn /\
                        Z.of_nat (length cn) < 2 ^ 31) ->
  Z.of_nat (length h) < 2 ^ 31 ->
  Java_migrator_heap_NativeHeapWalker_nativeSnapshotBytes rt jClassName h st
  = (Value bytes, h', st') ->
  exists resolved : list (jobject * Z),
    bytes = snapshot_layout (snapshot_records rt h' resolved) /\
    (forall i t, In (i, t) resolved ->
                 exists o, nth_error h' i = Some o /\ obj_tag o = t).
Proof.
  intros Hnames Hsize.
  unfold Java_migrator_heap_NativeHeapWalker_nativeSnapshotBytes.
  destruct jClassName as [className|]; [|discriminate].
  destruct (g_jvmti st); cbn [negb]; [|discriminate].
  pose proof (clear_all_tags_length rt h st) as Hlen1.
  destruct (clear_all_tags rt h st) as [h1 st1]. cbn [fst] in Hlen1.
  destruct (utf_chars_ok rt className); cbn [negb]; [|discriminate].
  destruct (class_found rt className); cbn [negb]; [|discriminate].
  destruct (IterateThroughHeap rt (Some className) heap_tagging_cb h1
              col_zero (set_local_counter st1 1))
    as [[[e h2] col] st3] eqn:Hit.
  assert (Hlen2 : length h2 = length h1).
  { apply IterateThroughHeap_cases in Hit.
    destruct Hit as [(_ & _ & -> & _) | (_ & _ & Hv)]; [reflexivity|].
    destruct (visit_tagging rt _ h1 _ _ _ _ _ 1 Hv eq_refl) as (k' & Htg & _).
    apply tagging_bounds in Htg. tauto. }
  destruct (resolve_collected rt col h2 st3) as [[[found objs] tagsOut] st4]
    eqn:Hres.
  apply resolve_collected_cases in Hres.
  destruct Hres as (resolved & -> & Hobjs & Htags & Hle & Hvalid).
  destruct (class_found rt "java/lang/Class"); cbn [negb]; [|discriminate].
  destruct (getName_found rt); cbn [negb]; [|discriminate].
  destruct (allocate_name_arrays _ st4) as [ok st5].
  destruct ok; cbn [negb]; [|discriminate].
  rewrite Hobjs.
  destruct (resolve_names rt h2 (map fst resolved) [] [] 4 st5)
    as [res st6] eqn:Hn.
  destruct res as [[[names lens] total]|]; [|discriminate].
  apply resolve_names_readable in Hn.
  - destruct Hn as (-> & -> & ->). cbn [app].
    destruct (_ >? INT_MAX); [discriminate|].
    destruct (request_memory st6) as [ok st7].
    destruct ok; cbn [negb]; [|discriminate].
    set (records := snapshot_records rt h2 resolved).
    assert (Hbuf : length (malloc_buffer rt (Z.to_nat
                     (4 + Z.of_nat (length (concat (map record_layout
                                                       records))))))
                   = length (snapshot_layout records)).
    { rewrite length_malloc_buffer. unfold snapshot_layout.
      rewrite length_app, length_be_bytes. lia. }
    assert (Henc : encode_snapshot (Z.of_nat (length resolved)) tagsOut
                     (map (fun r => Z.of_nat (length (snd r))) records)
                     (map name_entry records)
                     (malloc_buffer rt (Z.to_nat (4 + Z.of_nat (length (concat
                        (map record_layout records))))))
                   = Some (snapshot_layout records)).
    { pose proof (encode_snapshot_records records _ Hbuf) as Hrec.
      assert (Hl : length records = length resolved)
        by (unfold records, snapshot_records; apply length_map).
      assert (Hf : map fst records = map snd resolved).
      { unfold records, snapshot_records. rewrite map_map.
        apply map_ext. reflexivity. }
      rewrite Hl, Hf in Hrec.
      destruct Htags as [-> | Hnil]; [exact Hrec|].
      revert Hrec. unfold records. rewrite Hnil. reflexivity. }
    rewrite Henc.
    destruct (new_byte_array_ok rt _); cbn [negb]; [|discriminate].
    intros H. inversion H; subst. exists resolved. auto.
  - apply Forall_forall. intros [i t] Hin.
    destruct (Hvalid i t Hin) as (o & Ho & _).
    destruct (Hnames (obj_class o)) as (cn & Hcn & Hcnlen).
    unfold readable, name_bytes. cbn [fst]. rewrite Ho. cbn [bind_opt].
    rewrite Hcn. split; [discriminate | exact Hcnlen].
  - lia.
  - lia.
Qed.

(** When a name cannot be read, the entry is left out of the size
    (agent.c:261-287 leave the loop body before agent.c:315) while the encoder
    still stores its 12 bytes (agent.c:357-371): with one instance and an
    unreadable name the buffer has 4 bytes and the stores leave it. *)
Lemma unreadable_name_overflows :
  fst (fst (Java_migrator_heap_NativeHeapWalker_nativeSnapshotBytes
              runtime_unreadable_names (Some "A"%string) [mkObject "A" 0]
              (started_state [])))
  = Undefined.
Proof. reflexivity. Qed.

(** ** The tag buffer over a pass *)

Lemma tag_add_success c t st c' st' :
  tag_add c t st = (0, c', st') ->
  tags c' = tags c ++ [t] /\
  count c' = to_jint (count c + 1) /\
  alloc_failed c' = 0 /\
  (capacity c' = capacity c /\ count c < capacity c /\ st' = st \/
   capacity c <= count c /\
   capacity c' = (if capacity c =? 0 then 128 else to_jint (capacity c * 2)) /\
   request_memory st = (true, st')).
Proof.
  unfold tag_add.
  destruct (alloc_failed c =? 0) eqn:Hf; simpl; [|discriminate].
  apply Z.eqb_eq in Hf.
  destruct (count c >=? capacity c) eqn:Hfull.
  - destruct (request_memory st) as [ok st1]. destruct ok; simpl;
      [|discriminate].
    intros H. inversion H; subst; simpl. repeat split; auto.
    right. repeat split. apply Z.geb_le in Hfull. lia.
  - intros H. inversion H; subst; simpl. repeat split; auto.
    left. repeat split. rewrite Z.geb_leb in Hfull.
    apply Z.leb_gt in Hfull. lia.
Qed.

Lemma tag_add_failure c t st rc c' st' :
  tag_add c t st = (rc, c', st') -> rc <> 0 ->
  tags c' = tags c /\ count c' = count c /\ capacity c' = capacity c /\
  (alloc_failed c' = alloc_failed c \/ alloc_failed c' = 1).
Proof.
  unfold tag_add.
  destruct (alloc_failed c =? 0) eqn:Hf; simpl.
  - destruct (count c >=? capacity c).
    + destruct (request_memory st) as [ok st1]. destruct ok; simpl;
        intros H Hrc; inversion H; subst; simpl; [contradiction|auto].
    + intros H Hrc; inversion H; subst. contradiction.
  - intros H _. inversion H; subst. auto.
Qed.

Lemma pow2_double (n : nat) : 2 * (128 * 2 ^ Z.of_nat n) = 128 * 2 ^ Z.of_nat (S n).
Proof. rewrite Nat2Z.inj_succ, Z.pow_succ_r by lia. lia. Qed.

(** One append keeps the buffer well formed while it holds fewer than 2^30
    tags. *)
Lemma tag_add_keeps_ok c t st rc c' st' :
  tag_add c t st = (rc, c', st') ->
  collector_ok c -> count c < 2 ^ 30 ->
  collector_ok c'.
Proof.
  intros H (Hcnt & Hle & Hcap & Hamort & Hfl) Hsmall.
  destruct (Z.eq_dec rc 0) as [-> | Hrc].
  - apply tag_add_success in H.
    destruct H as (Ht & Hc & Hf & Hcase).
    assert (Hc1 : count c' = count c + 1).
    { rewrite Hc. apply to_jint_small. lia. }
    unfold collector_ok. rewrite Ht, length_app, Hc1. simpl length.
    split; [lia|].
    destruct Hcase as [(Hcap' & Hlt & _) | (Hfull & Hcap' & _)].
    + rewrite Hcap'. repeat split; auto; lia.
    + assert (Heq : capacity c = count c) by lia.
      destruct (capacity c =? 0) eqn:Hz.
      * apply Z.eqb_eq in Hz. rewrite Hcap'. repeat split; try lia.
        right. exists 0%nat. reflexivity.
      * apply Z.eqb_neq in Hz.
        destruct Hcap as [Hcap | (n & Hn)]; [contradiction|].
        assert (Hd : to_jint (capacity c * 2) = 2 * capacity c)
          by (rewrite to_jint_small; lia).
        rewrite Hcap', Hd. repeat split; try lia.
        right. exists (S n). rewrite Hn. apply pow2_double.
  - destruct (tag_add_failure _ _ _ _ _ _ H Hrc) as (Ht & Hc & Hcp & Hf).
    unfold collector_ok. rewrite Ht, Hc, Hcp. repeat split; auto.
    destruct Hf as [-> | ->]; auto.
Qed.

Lemma heap_tagging_cb_collector tag_ptr col st rc w col' st' :
  heap_tagging_cb tag_ptr col st = (rc, w, col', st') ->
  col' = col \/ exists t s1 rc0, tag_add col t s1 = (rc0, col', st').
Proof.
  unfold heap_tagging_cb. destruct tag_ptr as [cur|].
  - destruct (negb (cur =? 0)).
    + intros H; inversion H; auto.
    + destruct (fetch_and_add_local st) as [local st1].
      destruct (tag_add col (make_tag (g_epoch st1) local) st1)
        as [[rc0 c0] s0] eqn:Ht.
      intros H. right. exists (make_tag (g_epoch st1) local), st1, rc0.
      destruct (negb (rc0 =? 0)); inversion H; subst; exact Ht.
  - intros H; inversion H; auto.
Qed.

Section Collecting.

Variable rt : runtime.
Variable klass : option string.

(** A pass keeps the tag buffer well formed. *)
Lemma visit_keeps_ok os : forall col st os' col' st',
  visit_objects rt heap_tagging_cb klass os col st = (os', col', st') ->
  collector_ok col ->
  count col + Z.of_nat (length os) <= 2 ^ 30 ->
  collector_ok col' /\ count col' <= count col + Z.of_nat (length os).
Proof.
  induction os as [|o os IH]; intros col st os' col' st' Hv Hok Hb.
  - inversion Hv; subst. split; [auto | simpl; lia].
  - cbn [visit_objects] in Hv. cbn [length] in *.
    rewrite Nat2Z.inj_succ in *.
    destruct (class_matches klass o).
    + destruct (heap_tagging_cb (Some (obj_tag o)) col st)
        as [[[rc w] c1] s1] eqn:Hcb.
      assert (Hc1 : collector_ok c1 /\ count c1 <= count col + 1).
      { pose proof Hok as (Hcnt & _).
        apply heap_tagging_cb_collector in Hcb.
        destruct Hcb as [-> | (t & s0 & rc0 & Ht)]; [split; [auto|lia]|].
        split; [eapply tag_add_keeps_ok; eauto; lia|].
        destruct (Z.eq_dec rc0 0) as [-> | Hrc].
        - apply tag_add_success in Ht. destruct Ht as (_ & Hc & _).
          rewrite Hc, to_jint_small; lia.
        - destruct (tag_add_failure _ _ _ _ _ _ Ht Hrc) as (_ & Hc & _). lia. }
      destruct Hc1 as [Hok1 Hle1].
      destruct (visit_abort rt rc).
      * inversion Hv; subst. split; [auto | lia].
      * destruct (visit_objects rt heap_tagging_cb klass os c1 s1)
          as [[r' c2] s2] eqn:Hrest.
        inversion Hv; subst; clear Hv.
        destruct (IH _ _ _ _ _ Hrest Hok1 ltac:(lia)) as [Hok2 Hle2].
        split; [auto | lia].
    + destruct (visit_objects rt heap_tagging_cb klass os col st)
        as [[r' c2] s2] eqn:Hrest.
      inversion Hv; subst; clear Hv.
      destruct (IH _ _ _ _ _ Hrest Hok ltac:(lia)) as [Hok2 Hle2].
      split; [auto | lia].
Qed.

(** A pass that is never stopped and in which no append failed collects
    the identifiers of the eligible objects, in heap order. *)
Lemma visit_collects os : forall col st os' col' st' k,
  visit_objects rt heap_tagging_cb klass os col st = (os', col', st') ->
  visit_abort rt JVMTI_ITERATION_CONTINUE = false ->
  alloc_failed col' = 0 ->
  g_local_counter st = to_jlong k ->
  tags col' = tags col ++ issued_tags klass (g_epoch st) k os.
Proof.
  induction os as [|o os IH]; intros col st os' col' st' k Hv Hc Hn Hk.
  - inversion Hv; subst. simpl. rewrite app_nil_r. reflexivity.
  - cbn [visit_objects] in Hv. cbn [issued_tags]. unfold eligible.
    destruct (class_matches klass o); simpl andb.
    + destruct (Z.eq_dec (obj_tag o) 0) as [Hz | Hnz].
      * rewrite Hz in *. simpl Z.eqb. cbv iota.
        destruct (heap_tagging_cb (Some 0) col st)
          as [[[rc w] c1] s1] eqn:Hcb.
        apply heap_tagging_cb_untagged in Hcb.
        destruct Hcb as (-> & Hj & He & Hc1 & Hr & Hcase).
        assert (Hk1 : g_local_counter s1 = to_jlong (k + 1)).
        { rewrite Hc1. apply to_jlong_succ. exact Hk. }
        assert (Htag : make_tag (g_epoch st) (g_local_counter st)
                       = make_tag (g_epoch st) k)
          by (rewrite Hk; apply make_tag_to_jlong).
        destruct Hcase as [(-> & _ & _ & Ht1) | (-> & Hf1 & _)].
        -- rewrite Hc in Hv.
           destruct (visit_objects rt heap_tagging_cb klass os c1 s1)
             as [[r' c2] s2] eqn:Hrest.
           inversion Hv; subst; clear Hv.
           rewrite (IH _ _ _ _ _ (k + 1) Hrest Hc Hn Hk1), Ht1, Htag, He.
           rewrite <- app_assoc. reflexivity.
        -- exfalso. destruct (visit_abort rt JVMTI_ITERATION_ABORT).
           ++ inversion Hv; subst. contradiction.
           ++ destruct (visit_objects rt heap_tagging_cb klass os c1 s1)
                as [[r' c2] s2] eqn:Hrest.
              inversion Hv; subst; clear Hv.
              destruct (visit_failed_tags rt klass os _ _ _ _ _ Hrest Hf1).
              contradiction.
      * rewrite (heap_tagging_cb_tagged _ col st Hnz) in Hv.
        apply Z.eqb_neq in Hnz. rewrite Hnz. rewrite Hc in Hv.
        destruct (visit_objects rt heap_tagging_cb klass os col st)
          as [[r' c2] s2] eqn:Hrest.
        inversion Hv; subst; clear Hv. eapply IH; eauto.
    + destruct (visit_objects rt heap_tagging_cb klass os col st)
        as [[r' c2] s2] eqn:Hrest.
      inversion Hv; subst; clear Hv. eapply IH; eauto.
Qed.

(** Every identifier a pass appends to the buffer is the tag that an
    object of the heap, untagged before, carries after the pass. *)
Lemma visit_collected_carried os : forall col st os' col' st',
  visit_objects rt heap_tagging_cb klass os col st = (os', col', st') ->
  exists new,
    tags col' = tags col ++ new /\
    forall t, In t new ->
      exists i o o',
        nth_error os i = Some o /\ eligible klass o = true /\
        nth_error os' i = Some o' /\ obj_tag o' = t.
Proof.
  induction os as [|o os IH]; intros col st os' col' st' Hv.
  - inversion Hv; subst. exists []. rewrite app_nil_r. split; auto.
    intros t [].
  - cbn [visit_objects] in Hv.
    destruct (class_matches klass o) eqn:Hm.
    + destruct (Z.eq_dec (obj_tag o) 0) as [Hz | Hnz].
      * rewrite Hz in Hv.
        destruct (heap_tagging_cb (Some 0) col st)
          as [[[rc w] c1] s1] eqn:Hcb.
        apply heap_tagging_cb_untagged in Hcb.
        destruct Hcb as (-> & _ & _ & _ & _ & Hcase).
        assert (Hel : eligible klass o = true)
          by (unfold eligible; rewrite Hm, Hz; reflexivity).
        set (tg := make_tag (g_epoch st) (g_local_counter st)) in *.
        assert (H1 : exists new1, tags c1 = tags col ++ new1 /\
                       forall t, In t new1 -> t = tg).
        { destruct Hcase as [(_ & _ & _ & Ht) | (_ & _ & Ht & _)].
          - exists [tg]. split; auto. intros t [<- | []]. reflexivity.
          - exists []. rewrite app_nil_r. split; auto. intros t []. }
        destruct H1 as (new1 & Hn1 & Hall1).
        cbn [store_tag] in Hv.
        destruct (visit_abort rt rc).
        -- inversion Hv; subst. exists new1. split; auto.
           intros t Hin. apply Hall1 in Hin. subst t.
           exists 0%nat, o, (mkObject (obj_class o) tg). auto.
        -- destruct (visit_objects rt heap_tagging_cb klass os c1 s1)
             as [[r' c2] s2] eqn:Hrest.
           inversion Hv; subst; clear Hv.
           destruct (IH _ _ _ _ _ Hrest) as (new2 & Hn2 & Hall2).
           exists (new1 ++ new2). split.
           ++ rewrite Hn2, Hn1, app_assoc. reflexivity.
           ++ intros t Hin. apply in_app_or in Hin.
              destruct Hin as [Hin | Hin].
              ** apply Hall1 in Hin. subst t.
                 exists 0%nat, o, (mkObject (obj_class o) tg). auto.
              ** destruct (Hall2 t Hin) as (i & a & a' & Ha & Hea & Ha' & Ht).
                 exists (S i), a, a'. auto.
      * rewrite (heap_tagging_cb_tagged _ col st Hnz) in Hv.
        cbn [store_tag] in Hv.
        destruct (visit_abort rt JVMTI_ITERATION_CONTINUE).
        -- inversion Hv; subst. exists []. rewrite app_nil_r. split; auto.
           intros t [].
        -- destruct (visit_objects rt heap_tagging_cb klass os col st)
             as [[r' c2] s2] eqn:Hrest.
           inversion Hv; subst; clear Hv.
           destruct (IH _ _ _ _ _ Hrest) as (new2 & Hn2 & Hall2).
           exists new2. split; auto. intros t Hin.
           destruct (Hall2 t Hin) as (i & a & a' & Ha & Hea & Ha' & Ht).
           exists (S i), a, a'. auto.
    + destruct (visit_objects rt heap_tagging_cb klass os col st)
        as [[r' c2] s2] eqn:Hrest.
      inversion Hv; subst; clear Hv.
      destruct (IH _ _ _ _ _ Hrest) as (new2 & Hn2 & Hall2).
      exists new2. split; auto. intros t Hin.
      destruct (Hall2 t Hin) as (i & a & a' & Ha & Hea & Ha' & Ht).
      exists (S i), a, a'. auto.
Qed.

End Collecting.

(** ** Complete passes and tag resolution *)

Lemma collector_ok_zero : collector_ok col_zero.
Proof.
  unfold collector_ok, col_zero. simpl. repeat split; auto; lia.
Qed.

(** X1. The tag buffer a pass hands back is well formed: its count is the
    number of tags it holds, the count fits the capacity, the capacity is 0
    or 128 doubled some number of times and never more than twice the count
    (or 128), and the failure flag is 0 or 1. Stated for heaps of at most
    2^30 objects, below which the doubling stays in the range of jint. *)
Theorem tag_buffer_invariant (rt : runtime) (klass : option string)
    (h : heap_t) (st : agent_state) (err : jvmtiError) (h' : heap_t)
    (col' : tag_collector_t) (st' : agent_state) :
  Z.of_nat (length h) <= 2 ^ 30 ->
  IterateThroughHeap rt klass heap_tagging_cb h col_zero st
  = (err, h', col', st') ->
  count col' = Z.of_nat (length (tags col')) /\
  count col' <= capacity col' /\
  (capacity col' = 0 \/ exists n : nat, capacity col' = 128 * 2 ^ Z.of_nat n) /\
  capacity col' <= Z.max 128 (2 * count col') /\
  (alloc_failed col' = 0 \/ alloc_failed col' = 1) /\
  count col' <= Z.of_nat (length h).
Proof.
  intros Hb Hit. apply IterateThroughHeap_cases in Hit.
  destruct Hit as [(_ & _ & _ & -> & _) | (_ & _ & Hv)].
  - pose proof collector_ok_zero as (H1 & H2 & H3 & H4 & H5).
    repeat split; auto. simpl. lia.
  - destruct (visit_keeps_ok rt klass h _ _ _ _ _ Hv collector_ok_zero)
      as [(H1 & H2 & H3 & H4 & H5) Hle]; [simpl; lia|].
    simpl in Hle. repeat split; auto.
Qed.

Lemma tag_buffer_invariant_witness :
  Z.of_nat (length [mkObject "A" 0; mkObject "B" 0; mkObject "A" 0])
  <= 2 ^ 30 /\
  (let col' := mkCollector [4294967297; 4294967298] 2 128 0 in
   count col' = Z.of_nat (length (tags col')) /\
   count col' <= capacity col' /\
   (capacity col' = 0 \/
    exists n : nat, capacity col' = 128 * 2 ^ Z.of_nat n) /\
   capacity col' <= Z.max 128 (2 * count col') /\
   (alloc_failed col' = 0 \/ alloc_failed col' = 1) /\
   count col' <= Z.of_nat (length [mkObject "A" 0; mkObject "B" 0;
                                   mkObject "A" 0])).
Proof.
  split; [vm_compute; discriminate|].
  exact (tag_buffer_invariant cooperative_runtime (Some "A"%string)
           [mkObject "A" 0; mkObject "B" 0; mkObject "A" 0]
           (started_state []) JVMTI_ERROR_NONE
           [mkObject "A" 4294967297; mkObject "B" 0; mkObject "A" 4294967298]
           (mkCollector [4294967297; 4294967298] 2 128 0)
           (mkState true 1 3 [] [])
           ltac:(vm_compute; discriminate) eq_refl).
Defined.

Lemma length_issued_tags klass e h : forall k,
  length (issued_tags klass e k h) = eligible_count klass h.
Proof.
  unfold eligible_count.
  induction h as [|o h IH]; intros k; cbn [issued_tags filter]; auto.
  destruct (eligible klass o); simpl; auto.
Qed.

Lemma tag_all_issued klass e h : forall k i o,
  nth_error h i = Some o -> eligible klass o = true ->
  exists l,
    nth_error (tag_all klass e k h) i
    = Some (mkObject (obj_class o) (make_tag e l)) /\
    In (make_tag e l) (issued_tags klass e k h).
Proof.
  induction h as [|a h IH]; intros k i o Hi He.
  - destruct i; discriminate.
  - cbn [tag_all issued_tags]. destruct i as [|i]; simpl in Hi.
    + inversion Hi; subst. rewrite He. exists k. simpl. auto.
    + destruct (eligible klass a).
      * destruct (IH (k + 1) i o Hi He) as (l & Hl & Hin).
        exists l. simpl. auto.
      * destruct (IH k i o Hi He) as (l & Hl & Hin).
        exists l. simpl. auto.
Qed.

(** X2. A tagging pass that ran to the end with every append successful
    leaves every untagged instance of the class tagged with the identifier
    of the next counter value, in heap order, leaves the other objects as
    they were, and collects exactly these identifiers, in the same order:
    each eligible object is reported once. *)
Theorem complete_pass (rt : runtime) (klass : option string) (h : heap_t)
    (st : agent_state) (h' : heap_t) (col' : tag_collector_t)
    (st' : agent_state) :
  IterateThroughHeap rt klass heap_tagging_cb h col_zero
                     (set_local_counter st 1)
  = (JVMTI_ERROR_NONE, h', col', st') ->
  visit_abort rt JVMTI_ITERATION_CONTINUE = false ->
  alloc_failed col' = 0 ->
  h' = tag_all klass (g_epoch st) 1 h /\
  tags col' = issued_tags klass (g_epoch st) 1 h /\
  length (tags col') = eligible_count klass h /\
  (forall i o,
      nth_error h i = Some o -> eligible klass o = true ->
      exists o', nth_error h' i = Some o' /\ obj_class o' = obj_class o /\
                 In (obj_tag o') (tags col')).
Proof.
  intros Hit Hc Hf. apply IterateThroughHeap_cases in Hit.
  destruct Hit as [(Habs & _) | (_ & _ & Hv)]; [discriminate|].
  pose proof (visit_complete rt klass h _ _ _ _ _ 1 Hv Hc (or_introl Hf)
                eq_refl) as Hh.
  pose proof (visit_collects rt klass h _ _ _ _ _ 1 Hv Hc Hf eq_refl) as Ht.
  change (g_epoch (set_local_counter st 1)) with (g_epoch st) in *.
  simpl in Ht. split; [exact Hh|]. split; [exact Ht|]. split.
  - rewrite Ht. apply length_issued_tags.
  - intros i o Hi He.
    destruct (tag_all_issued klass (g_epoch st) h 1 i o Hi He)
      as (l & Hl & Hin).
    exists (mkObject (obj_class o) (make_tag (g_epoch st) l)).
    rewrite Hh, Ht. auto.
Qed.

Lemma complete_pass_witness :
  tag_all (Some "A"%string) 1 1
    [mkObject "A" 0; mkObject "B" 0; mkObject "A" 7; mkObject "A" 0]
  = [mkObject "A" 4294967297; mkObject "B" 0; mkObject "A" 7;
     mkObject "A" 4294967298] /\
  issued_tags (Some "A"%string) 1 1
    [mkObject "A" 0; mkObject "B" 0; mkObject "A" 7; mkObject "A" 0]
  = [4294967297; 4294967298].
Proof.
  pose proof (complete_pass cooperative_runtime (Some "A"%string)
                [mkObject "A" 0; mkObject "B" 0; mkObject "A" 7;
                 mkObject "A" 0]
                (started_state [])
                [mkObject "A" 4294967297; mkObject "B" 0; mkObject "A" 7;
                 mkObject "A" 4294967298]
                (mkCollector [4294967297; 4294967298] 2 128 0)
                (mkState true 1 3 [] [])
                eq_refl eq_refl eq_refl) as (Hh & Ht & _).
  split; [symmetry; exact Hh | symmetry; exact Ht].
Defined.

(** The two outcomes of nativeResolve. *)
Lemma nativeResolve_cases rt tag h st :
  (fst (Java_migrator_heap_NativeHeapWalker_nativeResolve rt tag h st) = Null
   /\ (g_jvmti st = false \/ get_objects_fails rt [tag] = true \/
       forall o, In o h -> obj_tag o <> tag)) \/
  (exists i o,
      fst (Java_migrator_heap_NativeHeapWalker_nativeResolve rt tag h st)
      = Value i /\
      g_jvmti st = true /\ get_objects_fails rt [tag] = false /\
      nth_error h i = Some o /\ obj_tag o = tag).
Proof.
  unfold Java_migrator_heap_NativeHeapWalker_nativeResolve, GetObjectsWithTags.
  destruct (g_jvmti st); cbn [negb]; [|left; auto].
  change (firstn (Z.to_nat 1) [tag]) with [tag].
  destruct (get_objects_fails rt [tag]); [left; auto|].
  destruct (listing rt (objects_with_tags [tag] h)) as [|[i t] r] eqn:Hr;
    cbn [map fst].
  - left. split; [reflexivity|]. right. right. intros o Hin Ht.
    apply In_nth_error in Hin. destruct Hin as (j & Hj).
    assert (Hf : In (j, obj_tag o) (listing rt (objects_with_tags [tag] h))).
    { apply listing_in. apply objects_with_tags_found; [exact Hj|].
      left. symmetry. exact Ht. }
    rewrite Hr in Hf. destruct Hf.
  - right.
    assert (Hpos : (Z.of_nat (length ((i, t) :: r)) >? 0) = true)
      by (apply Z.gtb_lt; simpl length; lia).
    rewrite Hpos. cbn [fst].
    assert (Hi : In i (map fst (objects_with_tags [tag] h))).
    { apply (listing_in_fst rt). rewrite Hr. left. reflexivity. }
    apply objects_with_tags_in in Hi. destruct Hi as (o & Ho & [Ht | []]).
    exists i, o. auto.
Qed.

(** X3. nativeResolve returns an object that carries the requested tag
    whenever it returns an object, and it returns NULL exactly when no
    object carries the tag, when the JVMTI environment is missing or when
    GetObjectsWithTags reports an error. Which object it returns when
    several carry the tag depends on the order in which GetObjectsWithTags
    lists them. *)
Theorem nativeResolve_tagged (rt : runtime) (tag : Z) (h : heap_t)
    (st : agent_state) :
  (forall i,
      fst (Java_migrator_heap_NativeHeapWalker_nativeResolve rt tag h st)
      = Value i ->
      exists o, nth_error h i = Some o /\ obj_tag o = tag) /\
  (fst (Java_migrator_heap_NativeHeapWalker_nativeResolve rt tag h st) = Null
   <-> g_jvmti st = false \/ get_objects_fails rt [tag] = true \/
       forall o, In o h -> obj_tag o <> tag) /\
  fst (Java_migrator_heap_NativeHeapWalker_nativeResolve rt tag h st)
  <> Undefined.
Proof.
  destruct (nativeResolve_cases rt tag h st)
    as [(Hn & Hwhy) | (i & o & Hv & Hj & Hg & Ho & Ht)].
  - rewrite Hn. split; [discriminate|]. split; [tauto | discriminate].
  - rewrite Hv. split; [|split; [|discriminate]].
    + intros j Hj'. inversion Hj'; subst j. eauto.
    + split; [discriminate|].
      intros [F | [F | F]]; [congruence | congruence |].
      exfalso. apply (F o); [eapply nth_error_In; eauto | exact Ht].
Qed.

(** X4. Every identifier a tagging pass collected resolves right after the
    pass: nativeResolve returns, not NULL, but an object that carries it
    (the JVMTI environment being present and GetObjectsWithTags reporting
    no error). *)
Theorem resolve_after_tag (rt : runtime) (klass : option string)
    (h : heap_t) (st : agent_state) (err : jvmtiError) (h' : heap_t)
    (col' : tag_collector_t) (st' : agent_state) (t : Z)
    (st2 : agent_state) :
  IterateThroughHeap rt klass heap_tagging_cb h col_zero st
  = (err, h', col', st') ->
  In t (tags col') ->
  g_jvmti st2 = true -> get_objects_fails rt [t] = false ->
  exists i o,
    fst (Java_migrator_heap_NativeHeapWalker_nativeResolve rt t h' st2)
    = Value i /\
    nth_error h' i = Some o /\ obj_tag o = t.
Proof.
  intros Hit Hin Hj Hg. apply IterateThroughHeap_cases in Hit.
  destruct Hit as [(_ & _ & _ & -> & _) | (_ & _ & Hv)]; [destruct Hin|].
  destruct (visit_collected_carried rt klass h _ _ _ _ _ Hv)
    as (new & Hnew & Hall).
  simpl in Hnew. rewrite Hnew in Hin.
  destruct (Hall t Hin) as (i & o & o' & _ & _ & Ho' & Ht).
  destruct (nativeResolve_cases rt t h' st2)
    as [(_ & [F | [F | F]]) | (j & a & Hres & _ & _ & Ha & Hta)].
  - congruence.
  - congruence.
  - exfalso. apply (F o'); [eapply nth_error_In; eauto | exact Ht].
  - exists j, a. auto.
Qed.

Lemma resolve_after_tag_witness :
  exists i o,
    fst (Java_migrator_heap_NativeHeapWalker_nativeResolve
           cooperative_runtime 4294967298
           [mkObject "A" 4294967297; mkObject "B" 0; mkObject "A" 4294967298]
           (mkState true 1 3 [] []))
    = Value i /\
    nth_error [mkObject "A" 4294967297; mkObject "B" 0;
               mkObject "A" 4294967298] i = Some o /\
    obj_tag o = 4294967298.
Proof.
  exact (resolve_after_tag cooperative_runtime (Some "A"%string)
           [mkObject "A" 0; mkObject "B" 0; mkObject "A" 0]
           (set_local_counter (started_state []) 1) JVMTI_ERROR_NONE
           [mkObject "A" 4294967297; mkObject "B" 0; mkObject "A" 4294967298]
           (mkCollector [4294967297; 4294967298] 2 128 0)
           (mkState true 1 3 [] []) 4294967298 (mkState true 1 3 [] [])
           eq_refl (or_intror (or_introl eq_refl)) eq_refl eq_refl).
Defined.

(** ** The full heap walk *)

Lemma request_memory_succeeds st :
  plan_succeeds st ->
  fst (request_memory st) = true /\ plan_succeeds (snd (request_memory st)).
Proof.
  unfold plan_succeeds, request_memory. intros H.
  destruct (alloc_plan st) as [|ok rest] eqn:Hp; simpl.
  - rewrite Hp. auto.
  - inversion H; subst. auto.
Qed.

Lemma heap_tagging_cb_succeeds tag_ptr col st rc w col' st' :
  heap_tagging_cb tag_ptr col st = (rc, w, col', st') ->
  plan_succeeds st -> alloc_failed col = 0 ->
  alloc_failed col' = 0 /\ plan_succeeds st'.
Proof.
  unfold heap_tagging_cb. destruct tag_ptr as [cur|].
  - destruct (negb (cur =? 0)).
    + intros H; inversion H; subst; auto.
    + unfold fetch_and_add_local, tag_add. cbn [g_epoch set_local_counter].
      intros H Hp Hf. rewrite Hf in H. cbn [Z.eqb negb] in H.
      set (s1 := set_local_counter st _) in *.
      assert (Hp1 : plan_succeeds s1) by exact Hp.
      destruct (count col >=? capacity col).
      * destruct (request_memory_succeeds s1 Hp1) as [Hok Hp2].
        destruct (request_memory s1) as [ok s2]. cbn [fst snd] in *.
        subst ok. cbn [negb Z.eqb] in H. inversion H; subst. auto.
      * cbn [negb Z.eqb] in H. inversion H; subst. auto.
  - intros H; inversion H; subst; auto.
Qed.

Lemma visit_succeeds rt klass os : forall col st os' col' st',
  visit_objects rt heap_tagging_cb klass os col st = (os', col', st') ->
  plan_succeeds st -> alloc_failed col = 0 ->
  alloc_failed col' = 0 /\ plan_succeeds st'.
Proof.
  induction os as [|o os IH]; intros col st os' col' st' Hv Hp Hf.
  - inversion Hv; subst. auto.
  - cbn [visit_objects] in Hv. destruct (class_matches klass o).
    + destruct (heap_tagging_cb (Some (obj_tag o)) col st)
        as [[[rc w] c1] s1] eqn:Hcb.
      destruct (heap_tagging_cb_succeeds _ _ _ _ _ _ _ Hcb Hp Hf) as [Hf1 Hp1].
      destruct (visit_abort rt rc).
      * inversion Hv; subst. auto.
      * destruct (visit_objects rt heap_tagging_cb klass os c1 s1)
          as [[r' c2] s2] eqn:Hrest.
        inversion Hv; subst. eauto.
    + destruct (visit_objects rt heap_tagging_cb klass os col st)
        as [[r' c2] s2] eqn:Hrest.
      inversion Hv; subst. eauto.
Qed.

Lemma eligible_untagged o : obj_tag o = 0 -> eligible None o = true.
Proof. intros H. unfold eligible, class_matches. rewrite H. reflexivity. Qed.

Lemma issued_tags_all e os : forall k,
  Forall (fun o => obj_tag o = 0) os ->
  issued_tags None e k os = map obj_tag (tag_all None e k os) /\
  eligible_count None os = length os.
Proof.
  unfold eligible_count.
  induction os as [|o os IH]; intros k H; [auto|].
  inversion H as [|? ? Ho Hos]; subst.
  cbn [issued_tags tag_all filter]. rewrite (eligible_untagged o Ho).
  cbn [map obj_tag length].
  destruct (IH (k + 1) Hos) as [H1 H2]. rewrite H1, H2. auto.
Qed.

Lemma length_tag_all klass e os : forall k,
  length (tag_all klass e k os) = length os.
Proof.
  induction os as [|o os IH]; intros k; cbn [tag_all]; auto.
  destruct (eligible klass o); simpl; auto.
Qed.

Lemma objects_with_tags_all req h :
  (forall o, In o h -> In (obj_tag o) req) ->
  map fst (objects_with_tags req h) = seq 0 (length h).
Proof.
  unfold objects_with_tags. rewrite map_map. cbn [fst].
  generalize 0%nat. induction h as [|o h IH]; intros s Hall; [reflexivity|].
  cbn [length seq combine filter snd].
  assert (Hex : existsb (Z.eqb (obj_tag o)) req = true).
  { apply existsb_exists. exists (obj_tag o). split.
    - apply Hall. left. reflexivity.
    - apply Z.eqb_refl. }
  rewrite Hex. cbn [map fst]. f_equal. apply IH.
  intros a Ha. apply Hall. right. exact Ha.
Qed.

Lemma delete_local_refs_prefix objs : forall st rest,
  local_refs st = objs ++ rest ->
  local_refs (delete_local_refs objs st) = rest.
Proof.
  unfold delete_local_refs.
  induction objs as [|o objs IH]; intros st rest H; [exact H|].
  cbn [fold_left]. apply IH. unfold DeleteLocalRef. cbn [local_refs].
  rewrite H. cbn [app remove_first]. rewrite Nat.eqb_refl. reflexivity.
Qed.

(** X5. nativeWalkHeap on a non-empty heap of at most 2^30 objects, when
    every request it makes succeeds and the iteration visits every object,
    returns an array that holds every object of the heap exactly once (in
    the order in which GetObjectsWithTags lists them), leaves each object
    tagged with the identifier of its rank in the iteration (whatever tag
    it carried before), keeps the epoch, and has deleted every local
    reference GetObjectsWithTags handed out when it returns. *)
Theorem nativeWalkHeap_all (rt : runtime) (h : heap_t) (st : agent_state) :
  g_jvmti st = true ->
  iterate_fails rt None = false ->
  visit_abort rt JVMTI_ITERATION_CONTINUE = false ->
  (forall req, get_objects_fails rt req = false) ->
  class_found rt "java/lang/Object" = true ->
  new_object_array_ok rt (Z.of_nat (length h)) = true ->
  plan_succeeds st ->
  local_refs st = [] ->
  h <> [] ->
  Z.of_nat (length h) <= 2 ^ 30 ->
  exists objs st',
    Java_migrator_heap_NativeHeapWalker_nativeWalkHeap rt h st
    = (Value objs, tag_all None (g_epoch st) 1 (map untag h), st') /\
    Permutation objs (seq 0 (length h)) /\
    local_refs st' = [] /\ g_epoch st' = g_epoch st.
Proof.
  intros Hj Hi Hc Hg Ho Ha Hp Hr Hne Hsz.
  unfold Java_migrator_heap_NativeHeapWalker_nativeWalkHeap.
  rewrite Hj. cbn [negb].
  rewrite clear_all_tags_eq, Hj, Hi, Hc. cbn [negb orb].
  set (h1 := map untag h).
  assert (Hz1 : Forall (fun o => obj_tag o = 0) h1).
  { apply Forall_forall. intros o Hin. apply in_map_iff in Hin.
    destruct Hin as (a & <- & _). reflexivity. }
  assert (Hl1 : length h1 = length h) by apply length_map.
  unfold IterateThroughHeap. rewrite Hi.
  destruct (visit_objects rt heap_tagging_cb None h1 col_zero
              (set_local_counter st 1)) as [[h2 col] st3] eqn:Hv.
  destruct (visit_succeeds rt None h1 _ _ _ _ _ Hv Hp eq_refl) as [Hf Hp3].
  pose proof (visit_complete rt None h1 _ _ _ _ _ 1 Hv Hc (or_introl Hf)
                eq_refl) as Hh2.
  pose proof (visit_collects rt None h1 _ _ _ _ _ 1 Hv Hc Hf eq_refl) as Ht.
  destruct (visit_keeps_ok rt None h1 _ _ _ _ _ Hv collector_ok_zero)
    as [(Hcnt & _) _]; [simpl; lia|].
  destruct (visit_tagging rt None h1 _ _ _ _ _ 1 Hv eq_refl)
    as (k' & _ & _ & He3 & _ & Hr3 & _).
  change (g_epoch (set_local_counter st 1)) with (g_epoch st) in *.
  change (local_refs (set_local_counter st 1)) with (local_refs st) in *.
  simpl in Ht.
  destruct (issued_tags_all (g_epoch st) h1 1 Hz1) as [Hiss Hel].
  assert (Hlen : length (tags col) = length h).
  { rewrite Ht, length_issued_tags, Hel. exact Hl1. }
  assert (Hpos : (count col <=? 0) = false).
  { apply Z.leb_gt. rewrite Hcnt, Hlen. destruct h; [contradiction|].
    simpl length. lia. }
  rewrite Hpos. unfold GetObjectsWithTags.
  rewrite Hcnt, Nat2Z.id, firstn_all, Hg.
  assert (Hall : map fst (objects_with_tags (tags col) h2)
                 = seq 0 (length h)).
  { rewrite <- Hl1, <- (length_tag_all None (g_epoch st) h1 1), <- Hh2.
    apply objects_with_tags_all. intros o Hin.
    rewrite Ht, Hiss, <- Hh2. apply in_map. exact Hin. }
  set (r := listing rt (objects_with_tags (tags col) h2)).
  assert (Hperm : Permutation (map fst r) (seq 0 (length h))).
  { rewrite <- Hall. apply Permutation_map, Permutation_sym, listing_perm. }
  assert (Hfound : length r = length h).
  { unfold r. rewrite listing_length, <- (length_map fst), Hall.
    apply length_seq. }
  assert (Ha' : new_object_array_ok rt (Z.of_nat (length r)) = true)
    by (rewrite Hfound; exact Ha).
  rewrite Ho, Ha'. cbn [negb].
  unfold first_objects. rewrite Nat2Z.id.
  rewrite <- (length_map fst r), firstn_all.
  exists (map fst r). eexists.
  split; [rewrite Hh2; reflexivity|]. split; [exact Hperm|]. split.
  - apply delete_local_refs_prefix. cbn [local_refs set_local_refs].
    rewrite Hr3, Hr, app_nil_r. reflexivity.
  - rewrite delete_local_refs_epoch. exact He3.
Qed.

(** With a JVM that lists the objects in the reverse of the heap order. *)
Lemma nativeWalkHeap_all_witness :
  fst (fst (Java_migrator_heap_NativeHeapWalker_nativeWalkHeap
              reversed_listing_runtime [mkObject "A" 9; mkObject "B" 0]
              (started_state [])))
  = Value [1%nat; 0%nat] /\
  exists objs st',
    Java_migrator_heap_NativeHeapWalker_nativeWalkHeap
      reversed_listing_runtime [mkObject "A" 9; mkObject "B" 0]
      (started_state [])
    = (Value objs,
       [mkObject "A" 4294967297; mkObject "B" 4294967298], st') /\
    Permutation objs [0%nat; 1%nat] /\
    local_refs st' = [] /\ g_epoch st' = 1.
Proof.
  split; [reflexivity|].
  exact (nativeWalkHeap_all reversed_listing_runtime
           [mkObject "A" 9; mkObject "B" 0] (started_state [])
           eq_refl eq_refl eq_refl (fun _ => eq_refl) eq_refl eq_refl
           (Forall_nil _) eq_refl ltac:(discriminate)
           ltac:(vm_compute; discriminate)).
Defined.

Lemma to_jint_succ (a : Z) : to_jint (to_jint a + 1) = to_jint (a + 1).
Proof.
  unfold to_jint.
  replace ((a + 2 ^ 31) mod 2 ^ 32 - 2 ^ 31 + 1 + 2 ^ 31)
    with ((a + 2 ^ 31) mod 2 ^ 32 + 1) by lia.
  rewrite Zplus_mod_idemp_l. f_equal. f_equal. lia.
Qed.

(** Whatever the size of the heap, the count of the buffer is the number of
    tags it holds, as a jint. *)
Lemma visit_count_jint rt klass os : forall col st os' col' st',
  visit_objects rt heap_tagging_cb klass os col st = (os', col', st') ->
  count col = to_jint (Z.of_nat (length (tags col))) ->
  count col' = to_jint (Z.of_nat (length (tags col'))).
Proof.
  induction os as [|o os IH]; intros col st os' col' st' Hv Hc.
  - inversion Hv; subst. exact Hc.
  - cbn [visit_objects] in Hv. destruct (class_matches klass o).
    + destruct (heap_tagging_cb (Some (obj_tag o)) col st)
        as [[[rc w] c1] s1] eqn:Hcb.
      assert (Hc1 : count c1 = to_jint (Z.of_nat (length (tags c1)))).
      { apply heap_tagging_cb_collector in Hcb.
        destruct Hcb as [-> | (t & s0 & rc0 & Ht)]; [exact Hc|].
        destruct (Z.eq_dec rc0 0) as [-> | Hrc].
        - apply tag_add_success in Ht. destruct Ht as (Htg & Hcn & _).
          rewrite Hcn, Htg, length_app, Hc. simpl length.
          rewrite to_jint_succ. f_equal. lia.
        - destruct (tag_add_failure _ _ _ _ _ _ Ht Hrc) as (Htg & Hcn & _).
          rewrite Hcn, Htg. exact Hc. }
      destruct (visit_abort rt rc).
      * inversion Hv; subst. exact Hc1.
      * destruct (visit_objects rt heap_tagging_cb klass os c1 s1)
          as [[r' c2] s2] eqn:Hrest.
        inversion Hv; subst. eauto.
    + destruct (visit_objects rt heap_tagging_cb klass os col st)
        as [[r' c2] s2] eqn:Hrest.
      inversion Hv; subst. eauto.
Qed.

(** X6. nativeWalkHeap never returns an empty array: it returns NULL or an
    array of at least one object; the objects are objects of the heap, each
    at most once, and no local reference is held when the array is
    returned (none being held at entry). *)
Theorem nativeWalkHeap_nonempty (rt : runtime) (h : heap_t)
    (st : agent_state) (objs : list jobject) (h' : heap_t)
    (st' : agent_state) :
  Java_migrator_heap_NativeHeapWalker_nativeWalkHeap rt h st
  = (Value objs, h', st') ->
  objs <> [] /\ NoDup objs /\
  (forall i, In i objs -> exists o, nth_error h' i = Some o) /\
  (local_refs st = [] -> local_refs st' = []).
Proof.
  unfold Java_migrator_heap_NativeHeapWalker_nativeWalkHeap.
  destruct (g_jvmti st); cbn [negb]; [|discriminate].
  pose proof (clear_all_tags_state rt h st) as Hcs.
  destruct (clear_all_tags rt h st) as [h1 st1]. cbn [snd] in Hcs. subst st1.
  destruct (IterateThroughHeap rt None heap_tagging_cb h1 col_zero
              (set_local_counter st 1)) as [[[e h2] col] st3] eqn:Hit.
  destruct (count col <=? 0) eqn:Hpos; [discriminate|].
  apply Z.leb_gt in Hpos.
  apply IterateThroughHeap_cases in Hit.
  destruct Hit as [(_ & _ & _ & -> & _) | (_ & _ & Hv)];
    [simpl in Hpos; lia|].
  pose proof (visit_count_jint rt None h1 _ _ _ _ _ Hv eq_refl) as Hcnt.
  destruct (visit_collected_carried rt None h1 _ _ _ _ _ Hv)
    as (new & Hnew & Hall).
  destruct (visit_tagging rt None h1 _ _ _ _ _ 1 Hv eq_refl)
    as (k' & _ & _ & _ & _ & Hr3 & _).
  simpl in Hnew.
  unfold GetObjectsWithTags.
  destruct (get_objects_fails rt _); [discriminate|].
  set (req := firstn (Z.to_nat (count col)) (tags col)).
  set (r := listing rt (objects_with_tags req h2)).
  destruct (class_found rt "java/lang/Object"); cbn [negb]; [|discriminate].
  destruct (new_object_array_ok rt _); cbn [negb]; [|discriminate].
  unfold first_objects. rewrite Nat2Z.id.
  rewrite <- (length_map fst r), firstn_all.
  intros H. inversion H; subst objs h' st'. clear H.
  assert (Hreq : exists t0, In t0 req /\ In t0 new).
  { destruct (tags col) as [|t0 ts] eqn:Hts.
    - change (to_jint (Z.of_nat (length (@nil Z)))) with 0 in Hcnt. lia.
    - exists t0. split.
      + unfold req. destruct (Z.to_nat (count col)) eqn:Hn; [lia|].
        left. reflexivity.
      + rewrite <- Hnew. left. reflexivity. }
  destruct Hreq as (t0 & Hin0 & Hnew0).
  destruct (Hall t0 Hnew0) as (i & o & o' & _ & _ & Ho' & Ht0).
  assert (Hfound : In (i, obj_tag o') r).
  { apply listed_found; [exact Ho' | rewrite Ht0; exact Hin0]. }
  apply (in_map fst) in Hfound. cbn [fst] in Hfound.
  split; [|split; [|split]].
  - intros Hnil. apply (@in_nil jobject i). rewrite <- Hnil. exact Hfound.
  - apply listed_distinct.
  - intros j Hj. apply in_map_iff in Hj. destruct Hj as ([j' t] & <- & Hj).
    apply listed_valid in Hj. destruct Hj as (a & Ha & _).
    exists a. exact Ha.
  - intros Hr. apply delete_local_refs_prefix. cbn [local_refs set_local_refs].
    rewrite Hr3. cbn [local_refs set_local_counter]. rewrite Hr, app_nil_r.
    reflexivity.
Qed.

Lemma nativeWalkHeap_nonempty_witness :
  [0%nat] <> [] /\ NoDup [0%nat].
Proof.
  pose proof (nativeWalkHeap_nonempty cooperative_runtime
                [mkObject "A" 9] (started_state []) [0%nat]
                [mkObject "A" 4294967297] (mkState true 1 2 [] [])
                eq_refl) as (Hne & Hnd & _).
  split; [exact Hne | exact Hnd].
Defined.

(** ** The multi-class walk: unresolved names and tagged instances *)

Section FilteredWalk.

Variable rt : runtime.

Lemma walk_classes_skip jName rest h st collected cnt cap :
  resolvable rt jName = false ->
  walk_classes rt (jName :: rest) h st collected cnt cap
  = walk_classes rt rest h st collected cnt cap.
Proof.
  intros H. cbn [walk_classes]. destruct jName as [cname|]; [|reflexivity].
  simpl in H. destruct (utf_chars_ok rt cname); [|reflexivity].
  simpl in H. rewrite H. reflexivity.
Qed.

Lemma walk_classes_unresolved classNames : forall h st collected cnt cap,
  Forall (fun n => resolvable rt n = false) classNames ->
  walk_classes rt classNames h st collected cnt cap
  = (Some (collected, cnt, cap), h, st).
Proof.
  induction classNames as [|n rest IH]; intros h st collected cnt cap H.
  - reflexivity.
  - inversion H; subst. rewrite walk_classes_skip by assumption. auto.
Qed.

(** A pass over a heap without eligible object changes nothing. *)
Lemma visit_nothing klass os : forall col st,
  Forall (fun o => eligible klass o = false) os ->
  visit_objects rt heap_tagging_cb klass os col st = (os, col, st).
Proof.
  induction os as [|o os IH]; intros col st H; [reflexivity|].
  inversion H as [|? ? Ho Hos]; subst. cbn [visit_objects].
  unfold eligible in Ho. destruct (class_matches klass o).
  - simpl in Ho. apply Z.eqb_neq in Ho.
    rewrite (heap_tagging_cb_tagged _ col st Ho). cbn [store_tag].
    rewrite (IH col st Hos).
    destruct (visit_abort rt JVMTI_ITERATION_CONTINUE); reflexivity.
  - rewrite (IH col st Hos). reflexivity.
Qed.

Lemma walk_classes_nothing_eligible classNames :
  forall h st collected cnt cap,
    (forall c, In (Some c) classNames ->
               Forall (fun o => eligible (Some c) o = false) h) ->
    exists st',
      walk_classes rt classNames h st collected cnt cap
      = (Some (collected, cnt, cap), h, st') /\
      local_refs st' = local_refs st.
Proof.
  induction classNames as [|n rest IH]; intros h st collected cnt cap H.
  - exists st. auto.
  - assert (Hrest : forall c, In (Some c) rest ->
                      Forall (fun o => eligible (Some c) o = false) h)
      by (intros c Hc; apply H; right; exact Hc).
    cbn [walk_classes]. destruct n as [cname|]; [|auto].
    destruct (utf_chars_ok rt cname); cbn [negb]; [|auto].
    destruct (class_found rt cname); cbn [negb]; [|auto].
    unfold fetch_and_add_epoch, IterateThroughHeap.
    rewrite (visit_nothing (Some cname) h) by (apply H; left; reflexivity).
    destruct (iterate_fails rt (Some cname)).
    + destruct (IH h (set_local_counter
                        (set_epoch st (to_jlong (g_epoch st + 1))) 1)
                   collected cnt cap Hrest) as (st' & Hw & Hr).
      exists st'. auto.
    + cbn [count col_zero Z.leb Z.compare].
      destruct (IH h (set_local_counter
                        (set_epoch st (to_jlong (g_epoch st + 1))) 1)
                   collected cnt cap Hrest) as (st' & Hw & Hr).
      exists st'. auto.
Qed.

End FilteredWalk.

(** X7. The multi-class walk skips what it cannot resolve: when the array
    is NULL or empty, or each of its elements is NULL or a name that cannot
    be read or resolved, the operation returns NULL and changes neither the
    heap nor the agent state (the epoch in particular). *)
Theorem filtered_walk_nothing_resolved (rt : runtime)
    (classNamesArray : option (list (option string))) (h : heap_t)
    (st : agent_state) :
  (forall names, classNamesArray = Some names ->
                 Forall (fun n => resolvable rt n = false) names) ->
  Java_migrator_heap_NativeHeapWalker_nativeWalkHeapFiltered
    rt classNamesArray h st
  = (Null, h, st).
Proof.
  intros H.
  unfold Java_migrator_heap_NativeHeapWalker_nativeWalkHeapFiltered.
  destruct classNamesArray as [names|]; [|reflexivity].
  destruct (g_jvmti st); cbn [negb]; [|reflexivity].
  destruct (Z.of_nat (length names) =? 0); [reflexivity|].
  rewrite (walk_classes_unresolved rt names h st [] 0 0 (H names eq_refl)).
  reflexivity.
Qed.

Lemma filtered_walk_nothing_resolved_witness :
  Java_migrator_heap_NativeHeapWalker_nativeWalkHeapFiltered
    runtime_without_object_class
    (Some [None; Some "java/lang/Object"%string]) [mkObject "A" 0]
    (started_state [])
  = (Null, [mkObject "A" 0], started_state []).
Proof.
  apply filtered_walk_nothing_resolved.
  intros names H. inversion H; subst.
  repeat constructor.
Defined.

(** X8. The multi-class walk does not clear tags and its passes skip
    tagged objects: when no instance of a requested class is untagged, it
    returns NULL and leaves the heap as it is (an instance that already
    carries a tag is never reported). *)
Theorem filtered_walk_skips_tagged (rt : runtime)
    (classNamesArray : option (list (option string))) (h : heap_t)
    (st : agent_state) :
  (forall names c, classNamesArray = Some names -> In (Some c) names ->
                   Forall (fun o => eligible (Some c) o = false) h) ->
  exists st',
    Java_migrator_heap_NativeHeapWalker_nativeWalkHeapFiltered
      rt classNamesArray h st
    = (Null, h, st') /\
    local_refs st' = local_refs st.
Proof.
  intros H.
  unfold Java_migrator_heap_NativeHeapWalker_nativeWalkHeapFiltered.
  destruct classNamesArray as [names|]; [|eauto].
  destruct (g_jvmti st); cbn [negb]; [|eauto].
  destruct (Z.of_nat (length names) =? 0); [eauto|].
  destruct (walk_classes_nothing_eligible rt names h st [] 0 0
              (fun c Hc => H names c eq_refl Hc)) as (st' & Hw & Hr).
  rewrite Hw. cbn [Z.eqb]. eauto.
Qed.

(** A second walk for the same class, on the heap the first walk left. *)
Lemma filtered_walk_skips_tagged_witness :
  fst (fst (Java_migrator_heap_NativeHeapWalker_nativeWalkHeapFiltered
              cooperative_runtime (Some [Some "A"%string])
              [mkObject "A" 0; mkObject "B" 0] (started_state [])))
  = Value [0%nat] /\
  exists st',
    Java_migrator_heap_NativeHeapWalker_nativeWalkHeapFiltered
      cooperative_runtime (Some [Some "A"%string])
      [mkObject "A" 8589934593; mkObject "B" 0] (mkState true 2 2 [] [])
    = (Null, [mkObject "A" 8589934593; mkObject "B" 0], st') /\
    local_refs st' = [].
Proof.
  split; [reflexivity|].
  apply (filtered_walk_skips_tagged cooperative_runtime
           (Some [Some "A"%string])
           [mkObject "A" 8589934593; mkObject "B" 0]
           (mkState true 2 2 [] [])).
  intros names c Hn Hc. inversion Hn; subst.
  destruct Hc as [Hc | []]. inversion Hc; subst.
  repeat constructor.
Defined.

(** ** The multi-class walk: epoch and reference buffer *)

Section FilteredWalkState.

Variable rt : runtime.

Lemma iterate_tagging_frame klass h col st err h' col' st' :
  IterateThroughHeap rt klass heap_tagging_cb h col (set_local_counter st 1)
  = (err, h', col', st') ->
  length h' = length h /\ local_refs st' = local_refs st /\
  g_epoch st' = g_epoch st.
Proof.
  intros H. apply IterateThroughHeap_cases in H.
  destruct H as [(_ & _ & -> & _ & ->) | (_ & _ & Hv)]; [auto|].
  destruct (visit_tagging rt klass h _ _ _ _ _ 1 Hv eq_refl)
    as (k' & Htg & _ & He & _ & Hr & _).
  apply tagging_bounds in Htg. tauto.
Qed.

(** When the loop over the classes ends without the failure exit, the
    epoch was raised once for each name that resolved. *)
Lemma walk_classes_epoch_exact classNames :
  forall h st collected cnt cap r h' st',
    walk_classes rt classNames h st collected cnt cap = (Some r, h', st') ->
    is_jlong (g_epoch st) ->
    g_epoch st + Z.of_nat (length classNames) <= JLONG_MAX ->
    g_epoch st' = g_epoch st + Z.of_nat (resolvable_count rt classNames).
Proof.
  unfold resolvable_count.
  induction classNames as [|jName rest IH];
    intros h st collected cnt cap r h' st' H Hr Hb.
  - inversion H; subst. simpl. lia.
  - cbn [length] in Hb. rewrite Nat2Z.inj_succ in Hb.
    destruct (resolvable rt jName) eqn:Hres.
    + cbn [filter]. rewrite Hres. cbn [length]. rewrite Nat2Z.inj_succ.
      destruct jName as [cname|]; [|discriminate]. simpl in Hres.
      apply andb_prop in Hres. destruct Hres as [Hu Hc].
      cbn [walk_classes] in H. rewrite Hu, Hc in H. cbn [negb] in H.
      unfold fetch_and_add_epoch in H.
      set (st1 := set_epoch st (to_jlong (g_epoch st + 1))) in *.
      assert (He1 : g_epoch st1 = g_epoch st + 1).
      { unfold st1. simpl. apply to_jlong_small.
        unfold is_jlong, JLONG_MAX in *. lia. }
      assert (Hnext : forall h0 s0 c0 n0 p0,
                 g_epoch s0 = g_epoch st1 ->
                 walk_classes rt rest h0 s0 c0 n0 p0 = (Some r, h', st') ->
                 g_epoch st'
                 = g_epoch st + Z.succ (Z.of_nat
                     (length (filter (resolvable rt) rest)))).
      { intros h0 s0 c0 n0 p0 Hs0 H0. apply IH in H0.
        - lia.
        - unfold is_jlong, JLONG_MAX in *. lia.
        - lia. }
      destruct (IterateThroughHeap rt (Some cname) heap_tagging_cb h col_zero
                  (set_local_counter st1 1))
        as [[[e h1] col] st3] eqn:Hit.
      apply iterate_tagging_epoch in Hit.
      destruct e; [|eauto].
      destruct (count col <=? 0); [eauto|].
      destruct (GetObjectsWithTags rt (count col) (tags col) h1 st3)
        as [[[[e2 found] objs] t] st4] eqn:Hg.
      apply GetObjectsWithTags_epoch in Hg.
      assert (H4 : g_epoch st4 = g_epoch st1) by congruence.
      destruct e2; [|eauto].
      destruct objs as [os|]; [|eauto].
      destruct (found >? 0); [|eauto].
      destruct (to_jint (cnt + found) >? cap); [|eauto].
      destruct (request_memory st4) as [ok st5] eqn:Hm.
      apply request_memory_epoch in Hm.
      destruct ok; cbn [negb] in H; [|discriminate].
      eapply Hnext; [|exact H]. congruence.
    + cbn [filter]. rewrite Hres.
      rewrite walk_classes_skip in H by exact Hres.
      apply IH in H; [exact H | exact Hr | lia].
Qed.

(** The reference buffer over the loop: its count is the number of
    references it holds, which are the local references the call acquired
    and are objects of the heap. *)
Lemma walk_classes_collected classNames :
  forall h st collected cnt cap collected' cnt' cap' h' st',
    walk_classes rt classNames h st collected cnt cap
    = (Some (collected', cnt', cap'), h', st') ->
    cnt = Z.of_nat (length collected) ->
    Z.of_nat (length collected)
    + Z.of_nat (length classNames) * Z.of_nat (length h) < 2 ^ 31 ->
    length h' = length h /\
    cnt' = Z.of_nat (length collected') /\
    exists more,
      collected' = collected ++ more /\
      local_refs st' = local_refs st ++ more /\
      forall i, In i more -> (i < length h)%nat.
Proof.
  induction classNames as [|jName rest IH];
    intros h st collected cnt cap collected' cnt' cap' h' st' H Hc Hb.
  - inversion H; subst. repeat split; auto.
    exists []. rewrite !app_nil_r. repeat split; auto. intros i [].
  - cbn [length] in Hb. rewrite Nat2Z.inj_succ in Hb.
    assert (Hskip : forall s0,
               local_refs s0 = local_refs st ->
               walk_classes rt rest h s0 collected cnt cap
               = (Some (collected', cnt', cap'), h', st') ->
               length h' = length h /\
               cnt' = Z.of_nat (length collected') /\
               exists more,
                 collected' = collected ++ more /\
                 local_refs st' = local_refs st ++ more /\
                 forall i, In i more -> (i < length h)%nat).
    { intros s0 Hs0 H0. apply IH in H0; [|exact Hc|nia].
      rewrite Hs0 in H0. exact H0. }
    cbn [walk_classes] in H.
    destruct jName as [cname|]; [|eauto].
    destruct (utf_chars_ok rt cname); cbn [negb] in H; [|eauto].
    destruct (class_found rt cname); cbn [negb] in H; [|eauto].
    unfold fetch_and_add_epoch in H.
    set (st1 := set_epoch st (to_jlong (g_epoch st + 1))) in *.
    destruct (IterateThroughHeap rt (Some cname) heap_tagging_cb h col_zero
                (set_local_counter st1 1))
      as [[[e h1] col] st3] eqn:Hit.
    apply iterate_tagging_frame in Hit. destruct Hit as (Hl1 & Hr3 & _).
    change (local_refs st1) with (local_refs st) in Hr3.
    assert (Hnext : forall s0 c0 n0 p0 batch,
               local_refs s0 = local_refs st ++ batch ->
               c0 = collected ++ batch ->
               n0 = Z.of_nat (length c0) ->
               (length batch <= length h)%nat ->
               (forall i, In i batch -> (i < length h)%nat) ->
               walk_classes rt rest h1 s0 c0 n0 p0
               = (Some (collected', cnt', cap'), h', st') ->
               length h' = length h /\
               cnt' = Z.of_nat (length collected') /\
               exists more,
                 collected' = collected ++ more /\
                 local_refs st' = local_refs st ++ more /\
                 forall i, In i more -> (i < length h)%nat).
    { intros s0 c0 n0 p0 batch Hs0 Hc0 Hn0 Hlb Hvb H0.
      apply IH in H0; [|exact Hn0|].
      - destruct H0 as (Hl' & Hc' & more & Hm & Hrm & Hv).
        split; [congruence|]. split; [exact Hc'|].
        exists (batch ++ more). subst c0.
        rewrite Hm, Hrm, Hs0, <- !app_assoc. repeat split.
        intros i Hi. apply in_app_or in Hi. destruct Hi as [Hi | Hi]; auto.
        apply Hv in Hi. lia.
      - subst c0. rewrite length_app, Hl1. nia. }
    assert (Hsame : forall s0,
               local_refs s0 = local_refs st ->
               walk_classes rt rest h1 s0 collected cnt cap
               = (Some (collected', cnt', cap'), h', st') ->
               length h' = length h /\
               cnt' = Z.of_nat (length collected') /\
               exists more,
                 collected' = collected ++ more /\
                 local_refs st' = local_refs st ++ more /\
                 forall i, In i more -> (i < length h)%nat).
    { intros s0 Hs0 H0.
      apply (Hnext s0 collected cnt cap [] (eq_trans Hs0
               (eq_sym (app_nil_r _))) (eq_sym (app_nil_r _)) Hc
               (Nat.le_0_l _) (fun i (F : In i []) => match F with end) H0). }
    destruct e; [|eauto].
    destruct (count col <=? 0); [eauto|].
    unfold GetObjectsWithTags in H.
    destruct (get_objects_fails rt _); [eauto|].
    set (r := listing rt (objects_with_tags _ h1)) in *.
    assert (Hlr : (length r <= length h)%nat).
    { rewrite <- Hl1. apply listed_length. }
    assert (Hvr : forall i, In i (map fst r) -> (i < length h)%nat).
    { intros i Hi. apply in_map_iff in Hi. destruct Hi as ([j t] & <- & Hj).
      apply listed_valid in Hj. destruct Hj as (o & Ho & _).
      rewrite <- Hl1. apply nth_error_Some. simpl. congruence. }
    destruct (Z.of_nat (length r) >? 0) eqn:Hpos.
    + rewrite Nat2Z.id in H.
      rewrite <- (length_map fst r), firstn_all in H.
      assert (Hsum : to_jint (cnt + Z.of_nat (length (map fst r)))
                     = Z.of_nat (length (collected ++ map fst r))).
      { rewrite length_app, length_map, Hc. rewrite to_jint_small; nia. }
      rewrite Hsum in H.
      destruct (_ >? cap).
      * match type of H with
        | context [request_memory ?s] =>
            destruct (request_memory s) as [ok' s5] eqn:Hm'
        end.
        pose proof (request_memory_frame
                      (set_local_refs st3 (local_refs st3 ++ map fst r)))
          as Hfr.
        rewrite Hm' in Hfr. destruct Hfr as (_ & _ & _ & Hfr).
        cbn [snd local_refs set_local_refs] in Hfr.
        destruct ok'; cbn [negb] in H; [|discriminate].
        apply (Hnext s5 _ _ _ (map fst r)) in H; auto.
        -- rewrite Hfr, Hr3. reflexivity.
        -- rewrite length_map. exact Hlr.
      * apply (Hnext _ _ _ _ (map fst r)) in H; auto.
        -- cbn [local_refs set_local_refs]. rewrite Hr3. reflexivity.
        -- rewrite length_map. exact Hlr.
    + apply Hsame in H; auto. cbn [local_refs set_local_refs].
      destruct r; [|discriminate Hpos]. simpl. rewrite app_nil_r. exact Hr3.
Qed.

End FilteredWalkState.

(** ** The multi-class walk: classes of the collected objects *)

Lemma make_tag_epoch_congr (e e' l : Z) :
  e mod 2 ^ 32 = e' mod 2 ^ 32 -> make_tag e l = make_tag e' l.
Proof.
  intros H. unfold make_tag, to_uint32. rewrite H. reflexivity.
Qed.

Lemma make_tag_epoch_inj (e e' l l' : Z) :
  make_tag e l = make_tag e' l' -> e mod 2 ^ 32 = e' mod 2 ^ 32.
Proof.
  intros H. apply (f_equal to_uint64) in H.
  rewrite !make_tag_unsigned in H.
  pose proof (Z.mod_pos_bound l (2 ^ 32) ltac:(lia)).
  pose proof (Z.mod_pos_bound l' (2 ^ 32) ltac:(lia)).
  lia.
Qed.

Lemma make_tag_later_epoch (e d l l' : Z) :
  0 < d < 2 ^ 32 -> make_tag e l <> make_tag (e + d) l'.
Proof.
  intros Hd H. apply make_tag_epoch_inj in H.
  assert (Hz : (e + d - e) mod 2 ^ 32 = 0).
  { rewrite Zminus_mod, <- H, Z.sub_diag. reflexivity. }
  replace (e + d - e) with d in Hz by lia.
  rewrite Z.mod_small in Hz by lia. lia.
Qed.

Lemma nth_error_same_length {A B : Type} (l : list A) (l' : list B) i x :
  length l = length l' -> nth_error l i = Some x ->
  exists y, nth_error l' i = Some y.
Proof.
  intros Hl Hx.
  destruct (nth_error l' i) as [y|] eqn:Hy; [eauto|].
  apply nth_error_None in Hy.
  assert (Hs : nth_error l i <> None) by congruence.
  apply nth_error_Some in Hs. lia.
Qed.

Section FilteredWalkClasses.

Variable rt : runtime.
Variable all : list (option string).
Variable h0 : heap_t.

(** Over the loop, every collected reference is an object that was an
    untagged instance of a requested class when the call began, as long as
    the heap held no identifier of the epochs the loop goes through. *)
Lemma walk_classes_requested classNames :
  forall h st collected cnt cap collected' cnt' cap' h' st',
    walk_classes rt classNames h st collected cnt cap
    = (Some (collected', cnt', cap'), h', st') ->
    incl classNames all ->
    Z.of_nat (length classNames) < 2 ^ 32 ->
    length h = length h0 ->
    (forall i o0 o, nth_error h0 i = Some o0 -> nth_error h i = Some o ->
                    obj_class o = obj_class o0 /\
                    (obj_tag o = 0 -> obj_tag o0 = 0)) ->
    (forall o d l, In o h -> 0 < d <= Z.of_nat (length classNames) ->
                   obj_tag o <> make_tag (g_epoch st + d) l) ->
    (forall i, In i collected ->
               exists o, nth_error h0 i = Some o /\ obj_tag o = 0 /\
                         In (Some (obj_class o)) all) ->
    forall i, In i collected' ->
              exists o, nth_error h0 i = Some o /\ obj_tag o = 0 /\
                        In (Some (obj_class o)) all.
Proof.
  induction classNames as [|jName rest IH];
    intros h st collected cnt cap collected' cnt' cap' h' st'
           H Hin Hn Hlen Hrel Hfresh Hcol.
  - inversion H; subst. exact Hcol.
  - assert (Hin' : incl rest all).
    { intros x Hx. apply Hin. right. exact Hx. }
    assert (Hhead : In jName all) by (apply Hin; left; reflexivity).
    cbn [length] in Hn, Hfresh. rewrite Nat2Z.inj_succ in Hn, Hfresh.
    assert (Hskip : forall s0 c0 n0,
               g_epoch s0 = g_epoch st ->
               walk_classes rt rest h s0 collected c0 n0
               = (Some (collected', cnt', cap'), h', st') ->
               forall i, In i collected' ->
                 exists o, nth_error h0 i = Some o /\ obj_tag o = 0 /\
                           In (Some (obj_class o)) all).
    { intros s0 c0 n0 Hs0 H0.
      eapply IH; eauto; [lia|].
      intros o d l Ho Hd. rewrite Hs0. apply Hfresh; [exact Ho|lia]. }
    cbn [walk_classes] in H.
    destruct jName as [cname|]; [|eapply Hskip; eauto].
    destruct (utf_chars_ok rt cname); cbn [negb] in H;
      [|eapply Hskip; eauto].
    destruct (class_found rt cname); cbn [negb] in H;
      [|eapply Hskip; eauto].
    unfold fetch_and_add_epoch in H.
    set (st1 := set_epoch st (to_jlong (g_epoch st + 1))) in *.
    destruct (IterateThroughHeap rt (Some cname) heap_tagging_cb h col_zero
                (set_local_counter st1 1))
      as [[[e h1] col] st3] eqn:Hit.
    (* what the pass over the heap did *)
    assert (Hpass :
              g_epoch st3 = to_jlong (g_epoch st + 1) /\
              exists k',
                tagging (Some cname) (to_jlong (g_epoch st + 1)) 1 h h1 k' /\
                Forall (fun t => exists l,
                          t = make_tag (to_jlong (g_epoch st + 1)) l)
                       (tags col)).
    { apply IterateThroughHeap_cases in Hit.
      destruct Hit as [(_ & _ & -> & -> & ->) | (_ & _ & Hv)].
      - split; [reflexivity|]. exists 1. split; [apply tagging_refl|].
        constructor.
      - destruct (visit_tagging rt (Some cname) h _ _ _ _ _ 1 Hv eq_refl)
          as (k' & Htg & _ & He & _ & _ & new & Hnew & Hall).
        split; [exact He|]. exists k'. split; [exact Htg|].
        rewrite Hnew. cbn [tags col_zero app].
        eapply Forall_impl; [|exact Hall].
        intros t (l & _ & ->). exists l. reflexivity. }
    destruct Hpass as (He3 & k' & Htg & Htags).
    pose proof (tagging_bounds _ _ _ _ _ _ Htg) as (_ & _ & Hl1).
    pose proof (tagging_nth _ _ _ _ _ _ Htg) as Hnth.
    assert (Hcongr : forall d l,
               make_tag (to_jlong (g_epoch st + 1) + d) l
               = make_tag (g_epoch st + (d + 1)) l).
    { intros d l. apply make_tag_epoch_congr.
      rewrite Zplus_mod, mod32_to_jlong, <- Zplus_mod. f_equal. lia. }
    (* the heap after the pass still stands in the relation to [h0] *)
    assert (Hrel1 : forall i o0 o,
               nth_error h0 i = Some o0 -> nth_error h1 i = Some o ->
               obj_class o = obj_class o0 /\
               (obj_tag o = 0 -> obj_tag o0 = 0)).
    { intros i o0 o1 H0 H1.
      destruct (nth_error_same_length h0 h i _ ltac:(congruence) ltac:(eassumption))
        as (o & Hi).
      destruct (Hrel i o0 o H0 Hi) as (Hc & Ht).
      destruct (Hnth i o o1 Hi H1) as [-> | (Hel & l & _ & ->)].
      - auto.
      - cbn [obj_class obj_tag]. split; [exact Hc|]. intros _.
        apply Ht. unfold eligible in Hel. apply andb_prop in Hel.
        destruct Hel as (_ & Hz). apply Z.eqb_eq in Hz. exact Hz. }
    assert (Hfresh1 : forall s0, g_epoch s0 = g_epoch st3 ->
               forall o d l, In o h1 -> 0 < d <= Z.of_nat (length rest) ->
                             obj_tag o <> make_tag (g_epoch s0 + d) l).
    { intros s0 Hs0 o1 d l Ho1 Hd.
      rewrite Hs0, He3, Hcongr.
      apply In_nth_error in Ho1. destruct Ho1 as (i & H1).
      destruct (nth_error_same_length h1 h i _ ltac:(congruence) ltac:(eassumption))
        as (o & Hi).
      destruct (Hnth i o o1 Hi H1) as [-> | (Hel & l1 & _ & ->)].
      - apply Hfresh; [eapply nth_error_In; eauto | lia].
      - cbn [obj_tag].
        rewrite (make_tag_epoch_congr (to_jlong (g_epoch st + 1))
                   (g_epoch st + 1)) by apply mod32_to_jlong.
        replace (g_epoch st + (d + 1)) with (g_epoch st + 1 + d) by lia.
        apply make_tag_later_epoch. lia. }
    assert (Hsame : forall s0 c0 n0,
               g_epoch s0 = g_epoch st3 ->
               walk_classes rt rest h1 s0 collected c0 n0
               = (Some (collected', cnt', cap'), h', st') ->
               forall i, In i collected' ->
                 exists o, nth_error h0 i = Some o /\ obj_tag o = 0 /\
                           In (Some (obj_class o)) all).
    { intros s0 c0 n0 Hs0 H0.
      eapply IH; eauto; [lia | congruence]. }
    destruct e; [|eapply Hsame; eauto].
    destruct (count col <=? 0); [eapply Hsame; eauto|].
    unfold GetObjectsWithTags in H.
    destruct (get_objects_fails rt _); [eapply Hsame; eauto|].
    set (r := listing rt (objects_with_tags _ h1)) in *.
    assert (Hbatch : forall i, In i (map fst r) ->
               exists o, nth_error h0 i = Some o /\ obj_tag o = 0 /\
                         In (Some (obj_class o)) all).
    { intros i Hi. apply listed_in in Hi.
      destruct Hi as (o1 & H1 & Hreq).
      assert (Ht : exists l,
                 obj_tag o1 = make_tag (to_jlong (g_epoch st + 1)) l).
      { rewrite Forall_forall in Htags. apply Htags.
        rewrite <- (firstn_skipn (Z.to_nat (count col)) (tags col)).
        apply in_or_app. left. exact Hreq. }
      destruct Ht as (l & Ht).
      destruct (nth_error_same_length h1 h i _ ltac:(congruence) ltac:(eassumption))
        as (o & Hi).
      destruct (nth_error_same_length h h0 i _ ltac:(congruence) ltac:(eassumption))
        as (o0 & Hi0).
      destruct (Hrel i o0 o Hi0 Hi) as (Hc & Hz).
      exists o0. split; [exact Hi0|].
      destruct (Hnth i o o1 Hi H1) as [-> | (Hel & _)].
      - exfalso. apply (Hfresh o 1 l); [eapply nth_error_In; eauto | lia |].
        rewrite Ht. apply make_tag_epoch_congr, mod32_to_jlong.
      - unfold eligible in Hel. apply andb_prop in Hel.
        destruct Hel as (Hcl & Hz0). apply Z.eqb_eq in Hz0.
        cbn [class_matches] in Hcl. apply String.eqb_eq in Hcl.
        split; [auto|]. rewrite <- Hc, Hcl. exact Hhead. }
    assert (Hboth : forall i, In i (collected ++ map fst r) ->
               exists o, nth_error h0 i = Some o /\ obj_tag o = 0 /\
                         In (Some (obj_class o)) all).
    { intros i Hi. apply in_app_or in Hi. destruct Hi; auto. }
    destruct (Z.of_nat (length r) >? 0) eqn:Hpos.
    + rewrite Nat2Z.id in H.
      rewrite <- (length_map fst r), firstn_all in H.
      destruct (_ >? cap).
      * match type of H with
        | context [request_memory ?s] =>
            destruct (request_memory s) as [ok' s5] eqn:Hm'
        end.
        apply request_memory_epoch in Hm'.
        destruct ok'; cbn [negb] in H; [|discriminate].
        apply (IH _ _ _ _ _ _ _ _ _ _ H Hin' ltac:(lia) ltac:(congruence)
                 Hrel1 (Hfresh1 s5 Hm') Hboth).
      * apply (IH _ _ _ _ _ _ _ _ _ _ H Hin' ltac:(lia) ltac:(congruence)
                 Hrel1 (Hfresh1 _ eq_refl) Hboth).
    + eapply Hsame; [|exact H]. reflexivity.
Qed.

End FilteredWalkClasses.

(** ** The multi-class walk: the tail *)

Section FilteredWalkResults.

Variable rt : runtime.

Lemma iterate_tagging_succeeds klass h st err h' col' st' :
  IterateThroughHeap rt klass heap_tagging_cb h col_zero st
  = (err, h', col', st') ->
  plan_succeeds st -> plan_succeeds st'.
Proof.
  intros H Hp. apply IterateThroughHeap_cases in H.
  destruct H as [(_ & _ & _ & _ & ->) | (_ & _ & Hv)]; [exact Hp|].
  apply (visit_succeeds _ _ _ _ _ _ _ _ Hv Hp eq_refl).
Qed.

(** When no memory request fails, the loop over the classes runs to its
    end. *)
Lemma walk_classes_succeeds classNames : forall h st collected cnt cap,
  plan_succeeds st ->
  exists r h' st', walk_classes rt classNames h st collected cnt cap
                   = (Some r, h', st').
Proof.
  induction classNames as [|jName rest IH]; intros h st collected cnt cap Hp.
  - simpl. eauto.
  - cbn [walk_classes].
    destruct jName as [cname|]; [|auto].
    destruct (utf_chars_ok rt cname); cbn [negb]; [|auto].
    destruct (class_found rt cname); cbn [negb]; [|auto].
    unfold fetch_and_add_epoch.
    set (st1 := set_epoch st (to_jlong (g_epoch st + 1))).
    destruct (IterateThroughHeap rt (Some cname) heap_tagging_cb h col_zero
                (set_local_counter st1 1))
      as [[[e h1] col] st3] eqn:Hit.
    apply iterate_tagging_succeeds in Hit; [|exact Hp].
    destruct e; [|auto].
    destruct (count col <=? 0); [auto|].
    unfold GetObjectsWithTags.
    destruct (get_objects_fails rt _); [auto|].
    set (r := listing rt (objects_with_tags _ h1)).
    set (st4 := set_local_refs st3 _).
    assert (Hp4 : plan_succeeds st4) by exact Hit.
    destruct (Z.of_nat (length r) >? 0); [|auto].
    destruct (_ >? cap); [|auto].
    destruct (request_memory_succeeds st4 Hp4) as [Hok Hp5].
    destruct (request_memory st4) as [ok st5]. cbn [fst snd] in *.
    subst ok. cbn [negb]. auto.
Qed.

Lemma firstn_length_all {A : Type} (l : list A) :
  firstn (Z.to_nat (Z.of_nat (length l))) l = l.
Proof. rewrite Nat2Z.id. apply firstn_all. Qed.

(** The tail of the multi-class walk (agent.c:651-682) after a loop that
    ran to its end from an empty reference buffer. *)
Lemma filtered_walk_tail classNames h st collected cnt cap h1 st1 op :
  walk_classes rt classNames h st [] 0 0 = (Some (collected, cnt, cap), h1, st1) ->
  Z.of_nat (length classNames) * Z.of_nat (length h) < 2 ^ 31 ->
  g_jvmti st = true -> classNames <> [] ->
  Java_migrator_heap_NativeHeapWalker_nativeWalkHeapFiltered rt
    (Some classNames) h st = op ->
  length h1 = length h /\
  local_refs st1 = local_refs st ++ collected /\
  (forall i, In i collected -> (i < length h)%nat) /\
  op = (if (Z.of_nat (length collected) =? 0)
           || negb (class_found rt "java/lang/Object")
           || negb (new_object_array_ok rt (Z.of_nat (length collected)))
        then Null else Value collected,
        h1, delete_local_refs collected st1).
Proof.
  intros Hw Hb Hj Hne Hop.
  destruct (walk_classes_collected rt _ _ _ _ _ _ _ _ _ _ _ Hw eq_refl)
    as (Hl & Hc & more & Hm & Hr & Hv); [simpl; lia|].
  simpl in Hm. subst more. repeat split; auto.
  unfold Java_migrator_heap_NativeHeapWalker_nativeWalkHeapFiltered in Hop.
  rewrite Hj, Hw in Hop. cbn [negb] in Hop.
  destruct classNames as [|n ns]; [congruence|].
  replace (Z.of_nat (length (n :: ns)) =? 0) with false in Hop
    by (symmetry; apply Z.eqb_neq; simpl; lia).
  rewrite Hc, firstn_length_all in Hop. subst op.
  destruct (Z.of_nat (length collected) =? 0) eqn:Hz.
  - cbn [orb]. destruct collected; [reflexivity|discriminate].
  - cbn [orb]. destruct (class_found rt "java/lang/Object"); cbn [negb orb];
      [|reflexivity].
    destruct (new_object_array_ok rt _); reflexivity.
Qed.

End FilteredWalkResults.

(** ** The multi-class walk: distinct references *)

Section FilteredWalkDistinct.

Variable rt : runtime.

(** What a pass of the multi-class walk leaves: the heap is the one before
    where some eligible objects carry identifiers of the pass's epoch, with
    counter values from 1 up to the size of the heap, and the collector
    holds identifiers of that epoch only. *)
Lemma class_pass cname h st e h1 col st3 :
  IterateThroughHeap rt (Some cname) heap_tagging_cb h col_zero
    (set_local_counter st 1) = (e, h1, col, st3) ->
  g_epoch st3 = g_epoch st /\
  length h1 = length h /\
  Forall (fun t => exists l, t = make_tag (g_epoch st) l) (tags col) /\
  forall i o o1,
    nth_error h i = Some o -> nth_error h1 i = Some o1 ->
    o1 = o \/
    (eligible (Some cname) o = true /\
     exists l, 1 <= l <= Z.of_nat (length h) /\
               o1 = mkObject (obj_class o) (make_tag (g_epoch st) l)).
Proof.
  intros Hit. apply IterateThroughHeap_cases in Hit.
  destruct Hit as [(_ & _ & -> & -> & ->) | (_ & _ & Hv)].
  - repeat split; [constructor|]. intros i o o1 H H1. left. congruence.
  - destruct (visit_tagging rt (Some cname) h _ _ _ _ _ 1 Hv eq_refl)
      as (k' & Htg & _ & He & _ & _ & new & Hnew & Hall).
    cbn [g_epoch set_local_counter] in *.
    pose proof (tagging_bounds _ _ _ _ _ _ Htg) as (_ & Hk & Hl1).
    pose proof (filter_length_le (eligible (Some cname)) h) as Hle.
    unfold eligible_count in Hk.
    repeat split; auto.
    + rewrite Hnew. cbn [tags col_zero app].
      eapply Forall_impl; [|exact Hall].
      intros t (l & _ & ->). exists l. reflexivity.
    + intros i o o1 H H1.
      destruct (tagging_nth _ _ _ _ _ _ Htg i o o1 H H1)
        as [-> | (Hel & l & Hl & ->)]; [auto|].
      right. split; [exact Hel|]. exists l. split; [lia|reflexivity].
Qed.

(** Over the loop, the collected references stay pairwise distinct and
    each of them is an object that carries an identifier. *)
Lemma walk_classes_distinct classNames :
  forall h st collected cnt cap collected' cnt' cap' h' st',
    walk_classes rt classNames h st collected cnt cap
    = (Some (collected', cnt', cap'), h', st') ->
    Z.of_nat (length classNames) < 2 ^ 32 ->
    Z.of_nat (length h) < 2 ^ 32 ->
    (forall o d l, In o h -> 0 < d <= Z.of_nat (length classNames) ->
                   obj_tag o <> make_tag (g_epoch st + d) l) ->
    NoDup collected ->
    (forall i, In i collected ->
               exists o, nth_error h i = Some o /\ obj_tag o <> 0) ->
    NoDup collected' /\
    forall i, In i collected' ->
              exists o, nth_error h' i = Some o /\ obj_tag o <> 0.
Proof.
  induction classNames as [|jName rest IH];
    intros h st collected cnt cap collected' cnt' cap' h' st'
           H Hn Hlen Hfresh Hnd Hcol.
  - inversion H; subst. auto.
  - cbn [length] in Hn, Hfresh. rewrite Nat2Z.inj_succ in Hn, Hfresh.
    assert (Hskip : forall s0 c0 n0,
               g_epoch s0 = g_epoch st ->
               walk_classes rt rest h s0 collected c0 n0
               = (Some (collected', cnt', cap'), h', st') ->
               NoDup collected' /\
               forall i, In i collected' ->
                 exists o, nth_error h' i = Some o /\ obj_tag o <> 0).
    { intros s0 c0 n0 Hs0 H0.
      eapply IH; eauto; [lia|].
      intros o d l Ho Hd. rewrite Hs0. apply Hfresh; [exact Ho|lia]. }
    cbn [walk_classes] in H.
    destruct jName as [cname|]; [|eapply Hskip; eauto].
    destruct (utf_chars_ok rt cname); cbn [negb] in H;
      [|eapply Hskip; eauto].
    destruct (class_found rt cname); cbn [negb] in H;
      [|eapply Hskip; eauto].
    unfold fetch_and_add_epoch in H.
    set (st1 := set_epoch st (to_jlong (g_epoch st + 1))) in *.
    destruct (IterateThroughHeap rt (Some cname) heap_tagging_cb h col_zero
                (set_local_counter st1 1))
      as [[[e h1] col] st3] eqn:Hit.
    apply class_pass in Hit.
    change (g_epoch st1) with (to_jlong (g_epoch st + 1)) in Hit.
    destruct Hit as (He3 & Hl1 & Htags & Hnth).
    assert (Hcongr : forall d l,
               make_tag (to_jlong (g_epoch st + 1) + d) l
               = make_tag (g_epoch st + (d + 1)) l).
    { intros d l. apply make_tag_epoch_congr.
      rewrite Zplus_mod, mod32_to_jlong, <- Zplus_mod. f_equal. lia. }
    assert (Hnz : forall l, 1 <= l <= Z.of_nat (length h) ->
               make_tag (to_jlong (g_epoch st + 1)) l <> 0).
    { intros l Hl. apply make_tag_nonzero. left.
      rewrite Z.mod_small by lia. lia. }
    assert (Hfresh1 : forall s0, g_epoch s0 = g_epoch st3 ->
               forall o d l, In o h1 -> 0 < d <= Z.of_nat (length rest) ->
                             obj_tag o <> make_tag (g_epoch s0 + d) l).
    { intros s0 Hs0 o1 d l Ho1 Hd.
      rewrite Hs0, He3, Hcongr.
      apply In_nth_error in Ho1. destruct Ho1 as (i & H1).
      destruct (nth_error_same_length h1 h i _ Hl1 H1) as (o & Hi).
      destruct (Hnth i o o1 Hi H1) as [-> | (Hel & l1 & _ & ->)].
      - apply Hfresh; [eapply nth_error_In; eauto | lia].
      - cbn [obj_tag].
        rewrite (make_tag_epoch_congr (to_jlong (g_epoch st + 1))
                   (g_epoch st + 1)) by apply mod32_to_jlong.
        replace (g_epoch st + (d + 1)) with (g_epoch st + 1 + d) by lia.
        apply make_tag_later_epoch. lia. }
    assert (Hcol1 : forall i, In i collected ->
               exists o, nth_error h1 i = Some o /\ obj_tag o <> 0).
    { intros i Hi. destruct (Hcol i Hi) as (o & Ho & Hz).
      destruct (nth_error_same_length h h1 i _ (eq_sym Hl1) Ho) as (o1 & H1).
      exists o1. split; [exact H1|].
      destruct (Hnth i o o1 Ho H1) as [-> | (Hel & _)]; [exact Hz|].
      unfold eligible in Hel. apply andb_prop in Hel.
      destruct Hel as (_ & Hz0). apply Z.eqb_eq in Hz0. contradiction. }
    assert (Hsame : forall s0 c0 n0,
               g_epoch s0 = g_epoch st3 ->
               walk_classes rt rest h1 s0 collected c0 n0
               = (Some (collected', cnt', cap'), h', st') ->
               NoDup collected' /\
               forall i, In i collected' ->
                 exists o, nth_error h' i = Some o /\ obj_tag o <> 0).
    { intros s0 c0 n0 Hs0 H0.
      apply (IH _ _ _ _ _ _ _ _ _ _ H0 ltac:(lia) ltac:(lia)
               (Hfresh1 s0 Hs0) Hnd Hcol1). }
    destruct e; [|eapply Hsame; eauto].
    destruct (count col <=? 0); [eapply Hsame; eauto|].
    unfold GetObjectsWithTags in H.
    destruct (get_objects_fails rt _); [eapply Hsame; eauto|].
    set (r := listing rt (objects_with_tags _ h1)) in *.
    assert (Hbatch : forall i, In i (map fst r) ->
               (exists o, nth_error h i = Some o /\ obj_tag o = 0) /\
               (exists o, nth_error h1 i = Some o /\ obj_tag o <> 0)).
    { intros i Hi. apply listed_in in Hi.
      destruct Hi as (o1 & H1 & Hreq).
      assert (Ht : exists l,
                 obj_tag o1 = make_tag (to_jlong (g_epoch st + 1)) l).
      { rewrite Forall_forall in Htags. apply Htags.
        rewrite <- (firstn_skipn (Z.to_nat (count col)) (tags col)).
        apply in_or_app. left. exact Hreq. }
      destruct Ht as (l & Ht).
      destruct (nth_error_same_length h1 h i _ Hl1 H1) as (o & Hi).
      destruct (Hnth i o o1 Hi H1) as [-> | (Hel & l1 & Hl1' & ->)].
      - exfalso. apply (Hfresh o 1 l); [eapply nth_error_In; eauto | lia |].
        rewrite Ht. apply make_tag_epoch_congr, mod32_to_jlong.
      - unfold eligible in Hel. apply andb_prop in Hel.
        destruct Hel as (_ & Hz0). apply Z.eqb_eq in Hz0.
        split; [eauto|]. eexists. split; [exact H1|].
        cbn [obj_tag]. apply Hnz. exact Hl1'. }
    assert (Hnd1 : NoDup (collected ++ map fst r)).
    { apply NoDup_app; [exact Hnd | apply listed_distinct |].
      intros i Hi Hb. destruct (Hcol i Hi) as (o & Ho & Hz).
      destruct (Hbatch i Hb) as ((o' & Ho' & Hz') & _). congruence. }
    assert (Hboth : forall i, In i (collected ++ map fst r) ->
               exists o, nth_error h1 i = Some o /\ obj_tag o <> 0).
    { intros i Hi. apply in_app_or in Hi. destruct Hi as [Hi | Hi]; auto.
      apply Hbatch in Hi. tauto. }
    destruct (Z.of_nat (length r) >? 0) eqn:Hpos.
    + rewrite Nat2Z.id in H.
      rewrite <- (length_map fst r), firstn_all in H.
      destruct (_ >? cap).
      * match type of H with
        | context [request_memory ?s] =>
            destruct (request_memory s) as [ok' s5] eqn:Hm'
        end.
        apply request_memory_epoch in Hm'.
        destruct ok'; cbn [negb] in H; [|discriminate].
        apply (IH _ _ _ _ _ _ _ _ _ _ H ltac:(lia) ltac:(lia)
                 (Hfresh1 s5 Hm') Hnd1 Hboth).
      * apply (IH _ _ _ _ _ _ _ _ _ _ H ltac:(lia) ltac:(lia)
                 (Hfresh1 _ eq_refl) Hnd1 Hboth).
    + eapply Hsame; [|exact H]. reflexivity.
Qed.

End FilteredWalkDistinct.

(** ** The multi-class walk: results *)

(** An identifier of an epoch up to [e] is none of a later epoch [e + d],
    while the epochs are below 2^32. *)
Lemma older_tag_fresh (t e d l : Z) :
  0 <= t < (e + 1) * 2 ^ 32 -> 0 <= e -> 0 < d -> e + d < 2 ^ 32 ->
  t <> make_tag (e + d) l.
Proof.
  intros Ht He Hd Hb H. apply (f_equal to_uint64) in H.
  rewrite make_tag_unsigned in H. unfold to_uint64 in H.
  rewrite (Z.mod_small t) in H by nia.
  rewrite (Z.mod_small (e + d)) in H by lia.
  pose proof (Z.mod_pos_bound l (2 ^ 32) ltac:(lia)). nia.
Qed.

Lemma heap_a_c_b_fresh o d l :
  In o heap_a_c_b -> 0 < d <= 3 -> obj_tag o <> make_tag (1 + d) l.
Proof.
  intros Ho Hd. apply older_tag_fresh; try lia.
  simpl in Ho.
  destruct Ho as [<- | [<- | [<- | [<- | []]]]]; simpl; lia.
Qed.

(** X9. When no memory request fails, the multi-class walk has deleted
    every local reference GetObjectsWithTags handed out during the call
    when it returns, whatever it returns (none being held at entry, and the
    counts of the call not overflowing jint). *)
Theorem filtered_walk_releases_references (rt : runtime)
    (classNamesArray : option (list (option string))) (h : heap_t)
    (st : agent_state) op h' st' :
  Java_migrator_heap_NativeHeapWalker_nativeWalkHeapFiltered
    rt classNamesArray h st = (op, h', st') ->
  plan_succeeds st ->
  local_refs st = [] ->
  (forall names, classNamesArray = Some names ->
     Z.of_nat (length names) * Z.of_nat (length h) < 2 ^ 31) ->
  local_refs st' = [].
Proof.
  intros H Hp Hr Hb.
  destruct classNamesArray as [names|]; [|inversion H; subst; auto].
  specialize (Hb names eq_refl).
  destruct (g_jvmti st) eqn:Hj.
  2:{ unfold Java_migrator_heap_NativeHeapWalker_nativeWalkHeapFiltered in H.
      rewrite Hj in H. inversion H; subst; auto. }
  destruct names as [|n ns] eqn:Hn.
  { unfold Java_migrator_heap_NativeHeapWalker_nativeWalkHeapFiltered in H.
    rewrite Hj in H. inversion H; subst; auto. }
  rewrite <- Hn in *.
  destruct (walk_classes_succeeds rt names h st [] 0 0 Hp)
    as ([[collected cnt] cap] & h1 & st1 & Hw).
  destruct (filtered_walk_tail rt _ _ _ _ _ _ _ _ _ Hw Hb Hj
              ltac:(congruence) H) as (Hl & Hrefs & _ & Hop).
  inversion Hop; subst op h' st'.
  apply delete_local_refs_prefix. rewrite Hrefs, Hr, app_nil_r. reflexivity.
Qed.

(** The walk collects the references to the objects 0 and 2 and returns
    them in an array. *)
Lemma filtered_walk_releases_references_witness :
  fst (fst (Java_migrator_heap_NativeHeapWalker_nativeWalkHeapFiltered
              cooperative_runtime (Some names_a_b) heap_a_c_b
              (started_state [])))
  = Value [0%nat; 2%nat] /\
  local_refs (mkState true 3 2 [] []) = [].
Proof.
  split; [reflexivity|].
  apply (filtered_walk_releases_references cooperative_runtime
           (Some names_a_b) heap_a_c_b (started_state [])
           (Value [0%nat; 2%nat]) heap_a_c_b_walked).
  - reflexivity.
  - constructor.
  - reflexivity.
  - intros names H. inversion H; subst. simpl. lia.
Defined.

(** X10. Every object in the array the multi-class walk returns was, when
    the call began, an untagged instance of one of the requested classes,
    provided no object then carried an identifier of one of the epochs the
    call goes through. *)
Theorem filtered_walk_returns_requested (rt : runtime)
    (classNames : list (option string)) (h : heap_t) (st : agent_state)
    objs h' st' :
  Java_migrator_heap_NativeHeapWalker_nativeWalkHeapFiltered
    rt (Some classNames) h st = (Value objs, h', st') ->
  Z.of_nat (length classNames) < 2 ^ 31 ->
  (forall o d l, In o h -> 0 < d <= Z.of_nat (length classNames) ->
                 obj_tag o <> make_tag (g_epoch st + d) l) ->
  forall i, In i objs ->
    exists o, nth_error h i = Some o /\ obj_tag o = 0 /\
              In (Some (obj_class o)) classNames.
Proof.
  intros H Hn Hfresh.
  unfold Java_migrator_heap_NativeHeapWalker_nativeWalkHeapFiltered in H.
  destruct (negb (g_jvmti st)); [discriminate|].
  destruct (Z.of_nat (length classNames) =? 0); [discriminate|].
  destruct (walk_classes rt classNames h st [] 0 0)
    as [[[[[collected cnt] cap]|] h1] st1] eqn:Hw; [|discriminate].
  destruct (cnt =? 0); [discriminate|].
  assert (Hobjs : objs = firstn (Z.to_nat cnt) collected).
  { destruct (negb (class_found rt "java/lang/Object")); [discriminate|].
    destruct (negb (new_object_array_ok rt cnt)); [discriminate|].
    inversion H; reflexivity. }
  intros i Hi.
  apply (walk_classes_requested rt classNames h classNames h st [] 0 0
           collected cnt cap h1 st1 Hw (incl_refl _) ltac:(lia) eq_refl).
  - intros j o0 o H0 H1. rewrite H0 in H1. inversion H1; subst. auto.
  - exact Hfresh.
  - intros j [].
  - rewrite <- (firstn_skipn (Z.to_nat cnt) collected).
    apply in_or_app. left. rewrite <- Hobjs. exact Hi.
Qed.

Lemma filtered_walk_returns_requested_witness :
  exists o, nth_error heap_a_c_b 2 = Some o /\ obj_tag o = 0 /\
            In (Some (obj_class o)) names_a_b.
Proof.
  apply (filtered_walk_returns_requested cooperative_runtime names_a_b
           heap_a_c_b (started_state []) [0%nat; 2%nat]
           heap_a_c_b_walked (mkState true 3 2 [] [])).
  - reflexivity.
  - simpl. lia.
  - intros o d l. apply heap_a_c_b_fresh.
  - right. left. reflexivity.
Defined.

(** X11. The array the multi-class walk returns is never empty and holds
    no object twice, and each of its objects carries an identifier when
    the call returns; the counts of the call are assumed not to overflow
    and the heap to hold no identifier of the epochs the call goes
    through. *)
Theorem filtered_walk_distinct (rt : runtime)
    (classNames : list (option string)) (h : heap_t) (st : agent_state)
    objs h' st' :
  Java_migrator_heap_NativeHeapWalker_nativeWalkHeapFiltered
    rt (Some classNames) h st = (Value objs, h', st') ->
  Z.of_nat (length classNames) < 2 ^ 31 ->
  Z.of_nat (length classNames) * Z.of_nat (length h) < 2 ^ 31 ->
  (forall o d l, In o h -> 0 < d <= Z.of_nat (length classNames) ->
                 obj_tag o <> make_tag (g_epoch st + d) l) ->
  objs <> [] /\ NoDup objs /\
  forall i, In i objs ->
    exists o, nth_error h' i = Some o /\ obj_tag o <> 0.
Proof.
  intros H Hn Hb Hfresh.
  assert (Hj : g_jvmti st = true).
  { unfold Java_migrator_heap_NativeHeapWalker_nativeWalkHeapFiltered in H.
    destruct (g_jvmti st); [reflexivity|discriminate]. }
  assert (Hne : classNames <> []).
  { intros ->.
    unfold Java_migrator_heap_NativeHeapWalker_nativeWalkHeapFiltered in H.
    rewrite Hj in H. discriminate H. }
  destruct (walk_classes rt classNames h st [] 0 0)
    as [[[[[collected cnt] cap]|] h1] st1] eqn:Hw.
  2:{ unfold Java_migrator_heap_NativeHeapWalker_nativeWalkHeapFiltered in H.
      rewrite Hj, Hw in H. cbn [negb] in H.
      destruct (Z.of_nat (length classNames) =? 0); discriminate. }
  destruct (filtered_walk_tail rt _ _ _ _ _ _ _ _ _ Hw Hb Hj Hne H)
    as (_ & _ & _ & Hop).
  assert (Hlen : Z.of_nat (length h) < 2 ^ 32).
  { destruct classNames; [congruence|]. cbn [length] in Hb.
    rewrite Nat2Z.inj_succ in Hb. nia. }
  destruct (walk_classes_distinct rt classNames h st [] 0 0 collected cnt cap
              h1 st1 Hw ltac:(lia) Hlen Hfresh (NoDup_nil _)
              (fun j (F : In j []) => match F with end)) as (Hnd & Htag).
  destruct (Z.of_nat (length collected) =? 0) eqn:Hz; cbn [orb] in Hop.
  { discriminate Hop. }
  destruct (_ || _) in Hop; [discriminate|].
  inversion Hop; subst objs h' st'.
  split; [|auto].
  intros ->. discriminate Hz.
Qed.

Lemma filtered_walk_distinct_witness :
  [0%nat; 2%nat] <> [] /\ NoDup [0%nat; 2%nat] /\
  forall i, In i [0%nat; 2%nat] ->
    exists o, nth_error heap_a_c_b_walked i = Some o /\ obj_tag o <> 0.
Proof.
  apply (filtered_walk_distinct cooperative_runtime names_a_b
           heap_a_c_b (started_state []) [0%nat; 2%nat]
           heap_a_c_b_walked (mkState true 3 2 [] [])).
  - reflexivity.
  - simpl. lia.
  - simpl. lia.
  - intros o d l. apply heap_a_c_b_fresh.
Defined.

(** X12. When no memory request fails, the multi-class walk raises the
    epoch by exactly the number of class names it could read and resolve;
    names it skips, and classes without instances, make no difference. *)
Theorem filtered_walk_epoch (rt : runtime)
    (classNames : list (option string)) (h : heap_t) (st : agent_state)
    op h' st' :
  Java_migrator_heap_NativeHeapWalker_nativeWalkHeapFiltered
    rt (Some classNames) h st = (op, h', st') ->
  g_jvmti st = true ->
  plan_succeeds st ->
  is_jlong (g_epoch st) ->
  g_epoch st + Z.of_nat (length classNames) <= JLONG_MAX ->
  g_epoch st' = g_epoch st + Z.of_nat (resolvable_count rt classNames).
Proof.
  intros H Hj Hp Hr Hb.
  unfold Java_migrator_heap_NativeHeapWalker_nativeWalkHeapFiltered in H.
  rewrite Hj in H. cbn [negb] in H.
  destruct (Z.of_nat (length classNames) =? 0) eqn:Hz.
  { inversion H; subst. destruct classNames; [|discriminate Hz].
    unfold resolvable_count. simpl. lia. }
  destruct (walk_classes_succeeds rt classNames h st [] 0 0 Hp)
    as ([[collected cnt] cap] & h1 & st1 & Hw).
  rewrite Hw in H.
  pose proof (walk_classes_epoch_exact rt _ _ _ _ _ _ _ _ _ Hw Hr Hb) as He.
  destruct (cnt =? 0); [inversion H; subst; exact He|].
  assert (Hd : g_epoch (delete_local_refs
                          (firstn (Z.to_nat cnt) collected) st1)
               = g_epoch st1) by apply delete_local_refs_epoch.
  destruct (negb (class_found rt "java/lang/Object"));
    [inversion H; subst; congruence|].
  destruct (negb (new_object_array_ok rt cnt));
    inversion H; subst; congruence.
Qed.

Lemma filtered_walk_epoch_witness :
  g_epoch (mkState true 3 2 [] [])
  = g_epoch (started_state [])
    + Z.of_nat (resolvable_count cooperative_runtime names_a_b).
Proof.
  apply (filtered_walk_epoch cooperative_runtime names_a_b
           heap_a_c_b (started_state []) (Value [0%nat; 2%nat])
           heap_a_c_b_walked).
  - reflexivity.
  - reflexivity.
  - constructor.
  - unfold is_jlong, JLONG_MAX. simpl. lia.
  - unfold JLONG_MAX. simpl. lia.
Defined.

(** ** The single-class snapshot: the tags it leaves *)

Section SnapshotHeap.

Variable rt : runtime.

(** The heap the single-class snapshot leaves is the one its clearing pass
    left or the one its tagging pass left. *)
Lemma nativeSnapshotBytes_heap className h st r h' st' :
  Java_migrator_heap_NativeHeapWalker_nativeSnapshotBytes rt
    (Some className) h st = (r, h', st') ->
  g_jvmti st = true ->
  h' = fst (clear_all_tags rt h st) \/
  exists e col st3,
    IterateThroughHeap rt (Some className) heap_tagging_cb
      (fst (clear_all_tags rt h st)) col_zero (set_local_counter st 1)
    = (e, h', col, st3).
Proof.
  unfold Java_migrator_heap_NativeHeapWalker_nativeSnapshotBytes.
  intros H Hj. rewrite Hj in H. cbn [negb] in H.
  pose proof (clear_all_tags_state rt h st) as Hc.
  destruct (clear_all_tags rt h st) as [h1 st1]. cbn [fst snd] in *.
  subst st1.
  destruct (utf_chars_ok rt className); cbn [negb] in H;
    [|inversion H; auto].
  destruct (class_found rt className); cbn [negb] in H;
    [|inversion H; auto].
  destruct (IterateThroughHeap rt (Some className) heap_tagging_cb h1
              col_zero (set_local_counter st 1))
    as [[[e h2] col] st3] eqn:Hit.
  right. exists e, col, st3.
  destruct (resolve_collected rt col h2 st3) as [[[found objs] tagsOut] st4].
  destruct (class_found rt "java/lang/Class"); cbn [negb] in H;
    [|inversion H; subst; reflexivity].
  destruct (getName_found rt); cbn [negb] in H;
    [|inversion H; subst; reflexivity].
  destruct (allocate_name_arrays found st4) as [ok st5].
  destruct ok; cbn [negb] in H; [|inversion H; subst; reflexivity].
  destruct (resolve_names rt h2 (first_objects found objs) [] [] 4 st5)
    as [res st6].
  destruct res as [[[names lens] total]|];
    [|inversion H; subst; reflexivity].
  destruct (total >? INT_MAX); [inversion H; subst; reflexivity|].
  destruct (request_memory st6) as [ok st7].
  destruct ok; cbn [negb] in H; [|inversion H; subst; reflexivity].
  destruct (encode_snapshot found tagsOut lens names _);
    [|inversion H; subst; reflexivity].
  destruct (new_byte_array_ok rt total); cbn [negb] in H;
    inversion H; subst; reflexivity.
Qed.

End SnapshotHeap.

(** The tags the single-class snapshot leaves. *)
Lemma nativeSnapshotBytes_tags (rt : runtime) (className : string)
    (h : heap_t) (st : agent_state) r h' st' :
  Java_migrator_heap_NativeHeapWalker_nativeSnapshotBytes rt
    (Some className) h st = (r, h', st') ->
  g_jvmti st = true ->
  iterate_fails rt None = false ->
  visit_abort rt JVMTI_ITERATION_CONTINUE = false ->
  length h' = length h /\
  forall i o o',
    nth_error h i = Some o -> nth_error h' i = Some o' ->
    obj_class o' = obj_class o /\
    (obj_tag o' = 0 \/
     (obj_class o = className /\
      exists l, 1 <= l <= Z.of_nat (length h) /\
                obj_tag o' = make_tag (g_epoch st) l)).
Proof.
  intros H Hj Hi Hc.
  apply nativeSnapshotBytes_heap in H; [|exact Hj].
  rewrite clear_all_tags_eq, Hj, Hi, Hc in H. cbn [negb orb fst] in H.
  assert (Hun : forall i o o1,
             nth_error h i = Some o -> nth_error (map untag h) i = Some o1 ->
             o1 = untag o).
  { intros i o o1 Ho H1. rewrite nth_error_map, Ho in H1.
    inversion H1; reflexivity. }
  destruct H as [-> | (e & col & st3 & Hit)].
  - split; [apply length_map|]. intros i o o' Ho Ho'.
    rewrite (Hun i o o' Ho Ho'). auto.
  - apply class_pass in Hit. destruct Hit as (_ & Hl & _ & Hnth).
    rewrite length_map in Hl, Hnth. split; [exact Hl|].
    intros i o o' Ho Ho'.
    destruct (nth_error_same_length h (map untag h) i o
                (eq_sym (length_map _ _)) Ho) as (o1 & H1).
    pose proof (Hun i o o1 Ho H1) as ->.
    destruct (Hnth i _ o' H1 Ho') as [-> | (Hel & l & Hlb & ->)].
    + auto.
    + cbn [obj_class obj_tag untag g_epoch set_local_counter].
      split; [reflexivity|]. right.
      unfold eligible in Hel. apply andb_prop in Hel.
      destruct Hel as (Hcl & _). cbn [class_matches untag obj_class] in Hcl.
      apply String.eqb_eq in Hcl. split; [exact Hcl|].
      exists l. auto.
Qed.

(** X13. Whatever the single-class snapshot returns, once its clearing
    pass ran (the JVM did not refuse it and does not read the callback's
    JVMTI_ITERATION_CONTINUE as a request to stop) no tag from before the
    call is left: every object is untagged or is an instance of the
    requested class carrying an identifier of the current epoch, with a
    counter value from 1 up to the size of the heap. *)
Theorem snapshot_replaces_tags (rt : runtime) (className : string)
    (h : heap_t) (st : agent_state) r h' st' :
  Java_migrator_heap_NativeHeapWalker_nativeSnapshotBytes rt
    (Some className) h st = (r, h', st') ->
  g_jvmti st = true ->
  iterate_fails rt None = false ->
  visit_abort rt JVMTI_ITERATION_CONTINUE = false ->
  length h' = length h /\
  forall i o o',
    nth_error h i = Some o -> nth_error h' i = Some o' ->
    obj_class o' = obj_class o /\
    (obj_tag o' = 0 \/
     (obj_class o = className /\
      exists l, 1 <= l <= Z.of_nat (length h) /\
                obj_tag o' = make_tag (g_epoch st) l)).
Proof. apply nativeSnapshotBytes_tags. Qed.

Lemma snapshot_replaces_tags_witness :
  length [mkObject "A" 4294967297; mkObject "B" 0]
  = length [mkObject "A" 9; mkObject "B" 7] /\
  forall i o o',
    nth_error [mkObject "A" 9; mkObject "B" 7] i = Some o ->
    nth_error [mkObject "A" 4294967297; mkObject "B" 0] i = Some o' ->
    obj_class o' = obj_class o /\
    (obj_tag o' = 0 \/
     (obj_class o = "A"%string /\
      exists l, 1 <= l <= Z.of_nat (length [mkObject "A" 9; mkObject "B" 7])
                /\ obj_tag o' = make_tag (g_epoch (started_state [])) l)).
Proof.
  apply (snapshot_replaces_tags cooperative_runtime "A"
           [mkObject "A" 9; mkObject "B" 7] (started_state [])
           (Value [0; 0; 0; 1; 0; 0; 0; 1; 0; 0; 0; 1; 0; 0; 0; 1; 65])
           [mkObject "A" 4294967297; mkObject "B" 0]
           (mkState true 1 2 [] [])).
  - reflexivity.
  - reflexivity.
  - reflexivity.
  - reflexivity.
Defined.

(** ** The single-class snapshot: the records of a class *)

Lemma eligible_untag c o :
  eligible (Some c) (untag o) = String.eqb (obj_class o) c.
Proof. unfold eligible. simpl. apply andb_true_r. Qed.

Lemma eligible_count_untag c h :
  eligible_count (Some c) (map untag h) = instances c h.
Proof.
  unfold eligible_count, instances.
  induction h as [|o h IH]; [reflexivity|].
  cbn [map filter]. rewrite eligible_untag.
  destruct (String.eqb (obj_class o) c); simpl; auto.
Qed.

Lemma issued_tags_seq klass e h : forall k : nat,
  issued_tags klass e (Z.of_nat k) h
  = map (fun j => make_tag e (Z.of_nat j)) (seq k (eligible_count klass h)).
Proof.
  unfold eligible_count.
  induction h as [|o h IH]; intros k; [reflexivity|].
  cbn [issued_tags filter]. destruct (eligible klass o).
  - cbn [length seq map]. f_equal.
    replace (Z.of_nat k + 1) with (Z.of_nat (S k)) by lia. apply IH.
  - apply IH.
Qed.

Lemma objects_with_tags_snd req h :
  map snd (objects_with_tags req h)
  = filter (fun t => existsb (Z.eqb t) req) (map obj_tag h).
Proof.
  unfold objects_with_tags. rewrite map_map. cbn [snd].
  generalize 0%nat. induction h as [|o h IH]; intros s; [reflexivity|].
  cbn [length seq combine filter map snd].
  destruct (existsb (Z.eqb (obj_tag o)) req); cbn [map snd]; rewrite IH;
    reflexivity.
Qed.

(** On a heap tagged by a complete pass from an untagged one, the tags
    among the requested ones are the issued ones, in heap order. *)
Lemma filter_tag_all klass e req h : forall k,
  Forall (fun o => obj_tag o = 0) h ->
  ~ In 0 req ->
  (forall t, In t (issued_tags klass e k h) -> In t req) ->
  filter (fun t => existsb (Z.eqb t) req)
         (map obj_tag (tag_all klass e k h))
  = issued_tags klass e k h.
Proof.
  induction h as [|o h IH]; intros k Hz H0 Hreq; [reflexivity|].
  inversion Hz as [|? ? Ho Hh]; subst.
  cbn [tag_all issued_tags] in *. destruct (eligible klass o).
  - cbn [map filter obj_tag].
    assert (Hex : existsb (Z.eqb (make_tag e k)) req = true).
    { apply existsb_exists. exists (make_tag e k). split.
      - apply Hreq. left. reflexivity.
      - apply Z.eqb_refl. }
    rewrite Hex. f_equal. apply IH; auto.
    intros t Ht. apply Hreq. right. exact Ht.
  - cbn [map filter]. rewrite Ho.
    assert (Hex : existsb (Z.eqb 0) req = false).
    { destruct (existsb (Z.eqb 0) req) eqn:E; [|reflexivity].
      apply existsb_exists in E. destruct E as (x & Hx & Hxe).
      apply Z.eqb_eq in Hxe. subst x. contradiction. }
    rewrite Hex. apply IH; auto.
Qed.

Lemma tag_all_nth klass e h : forall k i o',
  nth_error (tag_all klass e k h) i = Some o' ->
  exists o, nth_error h i = Some o /\ obj_class o' = obj_class o /\
            (o' = o \/ eligible klass o = true).
Proof.
  induction h as [|a h IH]; intros k i o' H.
  - destruct i; discriminate.
  - cbn [tag_all] in H. destruct (eligible klass a) eqn:Hel.
    + destruct i as [|i]; simpl in H.
      * inversion H; subst. exists a. simpl. auto.
      * apply IH in H. exact H.
    + destruct i as [|i]; simpl in H.
      * inversion H; subst. exists o'. simpl. auto.
      * apply IH in H. exact H.
Qed.

Lemma length_named_records (cn : list Z) (ts : list Z) :
  Z.of_nat (length (concat (map record_layout
                              (map (fun t => (t, cn)) ts))))
  = Z.of_nat (length ts) * (12 + Z.of_nat (length cn)).
Proof.
  induction ts as [|t ts IH].
  - reflexivity.
  - cbn [map concat]. rewrite length_app.
    unfold record_layout at 1. cbn [fst snd length].
    rewrite !length_app, !length_be_bytes. lia.
Qed.

Lemma length_named_layout (cn : list Z) (ts : list Z) :
  Z.of_nat (length (snapshot_layout (map (fun t => (t, cn)) ts)))
  = 4 + Z.of_nat (length ts) * (12 + Z.of_nat (length cn)).
Proof.
  unfold snapshot_layout.
  rewrite length_app, length_be_bytes, Nat2Z.inj_add, length_named_records.
  reflexivity.
Qed.

Section SnapshotComplete.

Variable rt : runtime.

(** The pre-pass over the names when no memory request fails: it runs to
    its end and releases the reference of every object. *)
Lemma resolve_names_succeeds h objects : forall names lens total st,
  plan_succeeds st ->
  exists r st',
    resolve_names rt h objects names lens total st = (Some r, st') /\
    plan_succeeds st' /\
    forall rest, local_refs st = objects ++ rest -> local_refs st' = rest.
Proof.
  induction objects as [|obj objs IH]; intros names lens total st Hp.
  - simpl. eauto.
  - cbn [resolve_names].
    assert (Hdel : forall s, plan_succeeds s ->
               plan_succeeds (DeleteLocalRef obj s) /\
               forall rest, local_refs s = (obj :: objs) ++ rest ->
                            local_refs (DeleteLocalRef obj s) = objs ++ rest).
    { intros s Hs. split; [exact Hs|]. intros rest Hr.
      unfold DeleteLocalRef. cbn [local_refs set_local_refs]. rewrite Hr.
      cbn [app remove_first]. rewrite Nat.eqb_refl. reflexivity. }
    assert (Hgo : forall n l t s,
               plan_succeeds s -> local_refs s = local_refs st ->
               exists r st',
                 resolve_names rt h objs n l t (DeleteLocalRef obj s)
                 = (Some r, st') /\
                 plan_succeeds st' /\
                 forall rest, local_refs st = (obj :: objs) ++ rest ->
                              local_refs st' = rest).
    { intros n l t s Hs Hrs. destruct (Hdel s Hs) as [Hp1 Hr1].
      destruct (IH n l t _ Hp1) as (r & st' & Hres & Hp' & Hr').
      exists r, st'. repeat split; auto.
      intros rest Hrest. apply Hr', Hr1. congruence. }
    destruct (bind_opt (nth_error h obj) _) as [cn|]; [|apply Hgo; auto].
    destruct (to_jint (Z.of_nat (length cn)) >? 0); [|apply Hgo; auto].
    destruct (request_memory_succeeds st Hp) as [Hok Hp1].
    pose proof (request_memory_frame st) as (_ & _ & _ & Hfr).
    destruct (request_memory st) as [ok st1]. cbn [fst snd] in *.
    subst ok. cbn [negb]. apply Hgo; auto.
Qed.

End SnapshotComplete.

(** ** The single-class snapshot: the complete snapshot *)

Section SnapshotResolution.

Variable rt : runtime.

(** The tagging pass and the resolution of the single-class snapshot when
    the JVM cooperates and no memory request fails: on the cleared heap the
    pass tags the instances of the class with the identifiers of the
    counter values 1, 2, ... and the resolution finds exactly them. *)
Lemma snapshot_resolution className h st :
  iterate_fails rt (Some className) = false ->
  visit_abort rt JVMTI_ITERATION_CONTINUE = false ->
  plan_succeeds st ->
  Z.of_nat (instances className h) < 2 ^ 31 ->
  exists col st3,
    IterateThroughHeap rt (Some className) heap_tagging_cb (map untag h)
      col_zero (set_local_counter st 1)
    = (JVMTI_ERROR_NONE,
       tag_all (Some className) (g_epoch st) 1 (map untag h), col, st3) /\
    count col = Z.of_nat (instances className h) /\
    tags col = map (fun j => make_tag (g_epoch st) (Z.of_nat j))
                   (seq 1 (instances className h)) /\
    map snd (objects_with_tags (tags col)
               (tag_all (Some className) (g_epoch st) 1 (map untag h)))
    = tags col /\
    (forall i t,
        In (i, t) (objects_with_tags (tags col)
                     (tag_all (Some className) (g_epoch st) 1 (map untag h)))
        -> exists o,
          nth_error (tag_all (Some className) (g_epoch st) 1 (map untag h)) i
          = Some o /\ obj_class o = className) /\
    plan_succeeds st3 /\ local_refs st3 = local_refs st /\
    g_epoch st3 = g_epoch st.
Proof.
  intros Hic Hc Hp Hsz.
  remember (instances className h) as n eqn:Hndef.
  set (e := g_epoch st).
  set (h1 := map untag h).
  assert (Hz1 : Forall (fun o => obj_tag o = 0) h1).
  { apply Forall_forall. intros o Hin. apply in_map_iff in Hin.
    destruct Hin as (a & <- & _). reflexivity. }
  unfold IterateThroughHeap. rewrite Hic.
  destruct (visit_objects rt heap_tagging_cb (Some className) h1 col_zero
              (set_local_counter st 1)) as [[h2 col] st3] eqn:Hv.
  destruct (visit_succeeds rt _ h1 _ _ _ _ _ Hv Hp eq_refl) as [Hf Hp3].
  pose proof (visit_complete rt _ h1 _ _ _ _ _ 1 Hv Hc (or_introl Hf)
                eq_refl) as Hh2.
  pose proof (visit_collects rt _ h1 _ _ _ _ _ 1 Hv Hc Hf eq_refl) as Ht.
  pose proof (visit_count_jint rt _ h1 _ _ _ _ _ Hv eq_refl) as Hcnt.
  destruct (visit_tagging rt _ h1 _ _ _ _ _ 1 Hv eq_refl)
    as (k' & _ & _ & He3 & _ & Hr3 & _).
  change (g_epoch (set_local_counter st 1)) with e in *.
  change (local_refs (set_local_counter st 1)) with (local_refs st) in *.
  cbn [tags col_zero app] in Ht.
  assert (Hissued : issued_tags (Some className) e 1 h1 = tags col)
    by (symmetry; exact Ht).
  change 1 with (Z.of_nat 1) in Ht at 1.
  rewrite issued_tags_seq in Ht.
  unfold h1 in Ht at 1. rewrite eligible_count_untag, <- Hndef in Ht.
  assert (Hlen : length (tags col) = n).
  { rewrite Ht, length_map, length_seq. reflexivity. }
  rewrite Hlen, to_jint_small in Hcnt by lia.
  assert (H0 : ~ In 0 (tags col)).
  { rewrite Ht. intros Hin. apply in_map_iff in Hin.
    destruct Hin as (j & Hj0 & Hjs). apply in_seq in Hjs.
    revert Hj0. apply make_tag_nonzero. left.
    rewrite Z.mod_small by lia. lia. }
  exists col, st3. subst h2. repeat split; auto.
  - rewrite objects_with_tags_snd.
    transitivity (issued_tags (Some className) e 1 h1); [|exact Hissued].
    apply filter_tag_all; auto.
    intros t Hin. rewrite Hissued in Hin. exact Hin.
  - intros i t Hin.
    assert (Hit : In i (map fst (objects_with_tags (tags col)
                                   (tag_all (Some className) e 1 h1)))).
    { apply in_map_iff. exists (i, t). auto. }
    apply objects_with_tags_in in Hit.
    destruct Hit as (o' & Ho' & Hreq). exists o'. split; [exact Ho'|].
    apply tag_all_nth in Ho'.
    destruct Ho' as (o & Ho & Hcl & [-> | Hel]).
    + exfalso. apply H0.
      assert (Hz : obj_tag o = 0).
      { rewrite Forall_forall in Hz1. apply Hz1.
        eapply nth_error_In; eauto. }
      rewrite <- Hz. exact Hreq.
    + unfold eligible in Hel. apply andb_prop in Hel.
      destruct Hel as (Hm & _). cbn [class_matches] in Hm.
      apply String.eqb_eq in Hm. congruence.
Qed.

End SnapshotResolution.

(** X14. The single-class snapshot when the JVM cooperates and no memory
    request fails: whatever tags the objects carried, the call returns the
    layout of one record per instance of the class, the records being the
    identifiers epoch:1, epoch:2, ... with the class's name, in the order
    in which GetObjectsWithTags lists the objects; it leaves exactly the
    instances tagged with these identifiers, keeps the epoch, and has
    deleted every local reference GetObjectsWithTags handed out when it
    returns. *)
Theorem snapshot_complete (rt : runtime) (className : string) (cn : list Z)
    (h : heap_t) (st : agent_state) :
  g_jvmti st = true ->
  utf_chars_ok rt className = true ->
  class_found rt className = true ->
  iterate_fails rt None = false ->
  iterate_fails rt (Some className) = false ->
  visit_abort rt JVMTI_ITERATION_CONTINUE = false ->
  (forall req, get_objects_fails rt req = false) ->
  class_found rt "java/lang/Class" = true ->
  getName_found rt = true ->
  display_name rt className = Some cn ->
  plan_succeeds st ->
  local_refs st = [] ->
  4 + Z.of_nat (instances className h) * (12 + Z.of_nat (length cn))
  <= INT_MAX ->
  new_byte_array_ok rt
    (4 + Z.of_nat (instances className h) * (12 + Z.of_nat (length cn)))
  = true ->
  exists records st',
    Permutation records
      (class_records (g_epoch st) cn (instances className h)) /\
    Java_migrator_heap_NativeHeapWalker_nativeSnapshotBytes rt
      (Some className) h st
    = (Value (snapshot_layout records),
       tag_all (Some className) (g_epoch st) 1 (map untag h), st') /\
    local_refs st' = [] /\ g_epoch st' = g_epoch st.
Proof.
  intros Hj Hu Hcf Hi Hic Hc Hg HC HN Hdn Hp Hr Hsz Hba.
  unfold INT_MAX in Hsz.
  destruct (snapshot_resolution rt className h st Hic Hc Hp ltac:(nia))
    as (col & st3 & Hit & Hcnt & Ht & Hsnd & Hcls & Hp3 & Hr3 & He3).
  remember (instances className h) as n eqn:Hndef.
  set (e := g_epoch st) in *.
  set (h2 := tag_all (Some className) e 1 (map untag h)) in *.
  unfold Java_migrator_heap_NativeHeapWalker_nativeSnapshotBytes.
  rewrite Hj. cbn [negb].
  rewrite clear_all_tags_eq, Hj, Hi, Hc. cbn [negb orb].
  rewrite Hu, Hcf. cbn [negb]. rewrite Hit.
  assert (Hlen : length (tags col) = n).
  { rewrite Ht, length_map, length_seq. reflexivity. }
  assert (Hclassrec : class_records e cn n
                      = map (fun t => (t, cn)) (tags col)).
  { unfold class_records. rewrite Ht, map_map. reflexivity. }
  unfold resolve_collected. rewrite Hcnt.
  destruct (Nat.eq_dec n 0) as [Hn0 | Hn0].
  - (* no instance: the empty snapshot *)
    exists [].
    rewrite Hn0 in *.
    cbn [Z.of_nat Z.gtb Z.compare]. rewrite HC, HN. cbn [negb].
    cbn [allocate_name_arrays Z.gtb Z.compare first_objects resolve_names].
    cbn [negb]. change (4 >? INT_MAX) with false. cbv iota.
    destruct (request_memory_succeeds st3 Hp3) as [Hok Hp4].
    pose proof (request_memory_frame st3) as (_ & He4 & _ & Hr4).
    destruct (request_memory st3) as [ok st4]. cbn [fst snd] in *.
    subst ok. cbn [negb].
    assert (Henc : encode_snapshot 0 None [] [] (malloc_buffer rt (Z.to_nat 4))
                   = Some (snapshot_layout [])).
    { pose proof (encode_snapshot_records [] (malloc_buffer rt (Z.to_nat 4))
                    (length_malloc_buffer rt _)) as Henc.
      revert Henc. unfold encode_snapshot. cbn [length Z.of_nat Z.to_nat].
      destruct (put_be32 _ 0 0); [|discriminate].
      cbn [bind_opt encode_records map]. auto. }
    rewrite Henc. rewrite Z.mul_0_l, Z.add_0_r in Hba. rewrite Hba.
    cbn [negb].
    exists st4. split; [constructor|]. repeat split; congruence.
  - (* some instances *)
    assert (Hpos : 0 < Z.of_nat n) by lia.
    replace (Z.of_nat n >? 0) with true by (symmetry; apply Z.gtb_lt; lia).
    unfold GetObjectsWithTags.
    rewrite Nat2Z.id, <- Hlen, firstn_all, Hg.
    set (r := listing rt (objects_with_tags (tags col) h2)) in *.
    set (records := map (fun t => (t, cn)) (map snd r)).
    assert (Hperm : Permutation (map snd r) (tags col)).
    { rewrite <- Hsnd. apply Permutation_map, Permutation_sym, listing_perm. }
    assert (Hlr : length r = n).
    { rewrite <- (length_map snd), (Permutation_length Hperm). exact Hlen. }
    assert (Hclass : forall i t, In (i, t) r ->
               bind_opt (nth_error h2 i)
                        (fun o => display_name rt (obj_class o))
               = Some cn).
    { intros i t Hin. apply listing_in in Hin.
      destruct (Hcls i t Hin) as (o & Ho & Hcl).
      rewrite Ho. cbn [bind_opt]. rewrite Hcl. exact Hdn. }
    assert (Hrecs : snapshot_records rt h2 r = records).
    { unfold snapshot_records, records. rewrite map_map.
      apply map_ext_in. intros [i t] Hin. cbn [fst snd].
      unfold name_bytes. rewrite (Hclass i t Hin). reflexivity. }
    assert (Hfst : map fst records = map snd r).
    { unfold records. rewrite map_map. cbn [fst]. apply map_id. }
    assert (Hlrec : length records = length r).
    { unfold records. rewrite !length_map. reflexivity. }
    assert (Hlayout : Z.of_nat (length (snapshot_layout records))
                      = 4 + Z.of_nat n * (12 + Z.of_nat (length cn))).
    { unfold records. rewrite length_named_layout, length_map, Hlr.
      reflexivity. }
    assert (Hcn : Z.of_nat (length cn) < 2 ^ 31) by nia.
    assert (Hread : Forall (fun ot => readable rt h2 (fst ot)) r).
    { apply Forall_forall. intros [i t] Hin. unfold readable, name_bytes.
      cbn [fst]. rewrite (Hclass i t Hin). split; [discriminate|exact Hcn]. }
    rewrite HC, HN. cbn [negb].
    unfold allocate_name_arrays.
    replace (Z.of_nat (length r) >? 0) with true
      by (symmetry; apply Z.gtb_lt; lia).
    set (st4 := set_local_refs st3 (local_refs st3 ++ map fst r)).
    assert (Hp4 : plan_succeeds st4) by exact Hp3.
    destruct (request_memory_succeeds st4 Hp4) as [Hok1 Hp5].
    pose proof (request_memory_frame st4) as (_ & He5 & _ & Hr5).
    destruct (request_memory st4) as [ok1 st5]. cbn [fst snd] in *.
    destruct (request_memory_succeeds st5 Hp5) as [Hok2 Hp6].
    pose proof (request_memory_frame st5) as (_ & He6 & _ & Hr6).
    destruct (request_memory st5) as [ok2 st6]. cbn [fst snd] in *.
    subst ok1 ok2. cbn [andb negb].
    unfold first_objects. rewrite Nat2Z.id.
    rewrite <- (length_map fst r), firstn_all.
    destruct (resolve_names_succeeds rt h2 (map fst r) [] [] 4 st6 Hp6)
      as ([[names lens] total] & st7 & Hres & Hp7 & Hr7).
    rewrite Hres.
    pose proof (resolve_names_epoch rt _ _ _ _ _ _ _ _ Hres) as He7.
    assert (Hb64 : 4 + Z.of_nat (length r) * (12 + 2 ^ 31) < 2 ^ 64).
    { rewrite Hlr. nia. }
    destruct (resolve_names_readable rt h2 r [] [] 4 st6 names lens total
                st7 Hread ltac:(lia) Hb64 Hres) as (-> & -> & ->).
    rewrite Hrecs. cbn [app].
    assert (Htotal : 4 + Z.of_nat (length (concat (map record_layout
                                                      records)))
                     = Z.of_nat (length (snapshot_layout records))).
    { unfold snapshot_layout. rewrite length_app, length_be_bytes. lia. }
    rewrite Htotal, Hlayout.
    assert (Hfit : (4 + Z.of_nat n * (12 + Z.of_nat (length cn)) >? INT_MAX)
                   = false).
    { rewrite Z.gtb_ltb. apply Z.ltb_ge. unfold INT_MAX. lia. }
    rewrite Hfit.
    destruct (request_memory_succeeds st7 Hp7) as [Hok8 Hp8].
    pose proof (request_memory_frame st7) as (_ & He8 & _ & Hr8).
    destruct (request_memory st7) as [ok8 st8]. cbn [fst snd] in *.
    subst ok8. cbn [negb].
    assert (Henc : encode_snapshot (Z.of_nat (length (map fst r)))
                     (Some (map snd r))
                     (map (fun r0 => Z.of_nat (length (snd r0))) records)
                     (map name_entry records)
                     (malloc_buffer rt (Z.to_nat
                        (4 + Z.of_nat n * (12 + Z.of_nat (length cn)))))
                   = Some (snapshot_layout records)).
    { pose proof (encode_snapshot_records records
                    (malloc_buffer rt (Z.to_nat
                       (4 + Z.of_nat n * (12 + Z.of_nat (length cn))))))
        as Henc.
      rewrite Hlrec, Hfst in Henc. rewrite length_map.
      apply Henc. rewrite length_malloc_buffer, <- Hlayout. apply Nat2Z.id. }
    rewrite Henc, Hba. cbn [negb].
    exists records, st8. split.
    { rewrite Hlen, Hclassrec. unfold records. apply Permutation_map.
      exact Hperm. }
    split; [reflexivity|]. split.
    + rewrite Hr8. apply Hr7. rewrite Hr6, Hr5. unfold st4.
      cbn [local_refs set_local_refs]. rewrite Hr3, Hr, app_nil_r.
      reflexivity.
    + rewrite He8, He7, He6, He5. exact He3.
Qed.

(** With a JVM that lists the objects in the reverse of the heap order:
    the record of the second instance comes first. *)
Lemma snapshot_complete_witness :
  fst (fst (Java_migrator_heap_NativeHeapWalker_nativeSnapshotBytes
              reversed_listing_runtime (Some "A"%string)
              [mkObject "A" 9; mkObject "B" 7; mkObject "A" 0]
              (started_state [])))
  = Value (snapshot_layout [(4294967298, [65]); (4294967297, [65])]) /\
  exists records st',
    Permutation records [(4294967297, [65]); (4294967298, [65])] /\
    Java_migrator_heap_NativeHeapWalker_nativeSnapshotBytes
      reversed_listing_runtime (Some "A"%string)
      [mkObject "A" 9; mkObject "B" 7; mkObject "A" 0] (started_state [])
    = (Value (snapshot_layout records),
       [mkObject "A" 4294967297; mkObject "B" 0; mkObject "A" 4294967298],
       st') /\
    local_refs st' = [] /\ g_epoch st' = 1.
Proof.
  split; [reflexivity|].
  exact (snapshot_complete reversed_listing_runtime "A" [65]
           [mkObject "A" 9; mkObject "B" 7; mkObject "A" 0]
           (started_state [])
           eq_refl eq_refl eq_refl eq_refl eq_refl eq_refl
           (fun _ => eq_refl) eq_refl eq_refl eq_refl (Forall_nil _)
           eq_refl ltac:(vm_compute; discriminate) eq_refl).
Defined.

(** ** Identifiers across epochs *)

(** X15. An identifier of another epoch (one whose low 32 bits differ from
    the current epoch's) resolves to nothing after a single-class snapshot
    whose clearing pass ran: nativeResolve returns NULL for it, whatever
    the heap held before and whatever the snapshot returned. *)
Theorem stale_identifier_unresolved (rt : runtime) (className : string)
    (h : heap_t) (st : agent_state) r h' st' (e0 l0 : Z)
    (st2 : agent_state) :
  Java_migrator_heap_NativeHeapWalker_nativeSnapshotBytes rt
    (Some className) h st = (r, h', st') ->
  g_jvmti st = true ->
  iterate_fails rt None = false ->
  visit_abort rt JVMTI_ITERATION_CONTINUE = false ->
  to_uint32 e0 <> to_uint32 (g_epoch st) ->
  make_tag e0 l0 <> 0 ->
  fst (Java_migrator_heap_NativeHeapWalker_nativeResolve rt
         (make_tag e0 l0) h' st2) = Null.
Proof.
  intros H Hj Hi Hc He Hnz.
  destruct (nativeSnapshotBytes_tags rt className h st r h' st' H Hj Hi Hc)
    as (Hl & Htags).
  destruct (nativeResolve_cases rt (make_tag e0 l0) h' st2)
    as [(Hn & _) | (j & o' & _ & _ & _ & Ho' & Ht)]; [exact Hn|].
  exfalso.
  destruct (nth_error_same_length h' h j o' Hl Ho') as (o & Ho).
  destruct (Htags j o o' Ho Ho') as (_ & [Hz | (_ & l & _ & Hl')]).
  - congruence.
  - rewrite Ht in Hl'. apply make_tag_epoch_inj in Hl'. exact (He Hl').
Qed.

Lemma stale_identifier_unresolved_witness :
  fst (Java_migrator_heap_NativeHeapWalker_nativeResolve cooperative_runtime
         (make_tag 1 1) [mkObject "A" 8589934593; mkObject "B" 0]
         (mkState true 2 2 [] [])) = Null.
Proof.
  apply (stale_identifier_unresolved cooperative_runtime "A"
           [mkObject "A" 4294967297; mkObject "B" 0]
           (mkState true 2 1 [] [])
           (Value [0; 0; 0; 1; 0; 0; 0; 2; 0; 0; 0; 1; 0; 0; 0; 1; 65])
           [mkObject "A" 8589934593; mkObject "B" 0]
           (mkState true 2 2 [] []) 1 1 (mkState true 2 2 [] [])).
  - reflexivity.
  - reflexivity.
  - reflexivity.
  - reflexivity.
  - vm_compute. discriminate.
  - vm_compute. discriminate.
Defined.

(** X16. Identifiers of different epochs differ: an identifier collected by
    a tagging pass is none of those collected by a pass run in an epoch
    with other low 32 bits, whatever the heaps, the classes and the JVMs of
    the two passes. *)
Theorem identifiers_of_different_epochs_differ (rt1 rt2 : runtime)
    (k1 k2 : option string) (h1 h2 : heap_t) (s1 s2 : agent_state)
    e1 h1' c1 s1' e2 h2' c2 s2' :
  IterateThroughHeap rt1 k1 heap_tagging_cb h1 col_zero
    (set_local_counter s1 1) = (e1, h1', c1, s1') ->
  IterateThroughHeap rt2 k2 heap_tagging_cb h2 col_zero
    (set_local_counter s2 1) = (e2, h2', c2, s2') ->
  to_uint32 (g_epoch s1) <> to_uint32 (g_epoch s2) ->
  forall t1 t2, In t1 (tags c1) -> In t2 (tags c2) -> t1 <> t2.
Proof.
  intros H1 H2 He t1 t2 Hin1 Hin2 Heq.
  assert (Hform : forall rt k h s e h' c s',
             IterateThroughHeap rt k heap_tagging_cb h col_zero
               (set_local_counter s 1) = (e, h', c, s') ->
             forall t, In t (tags c) -> exists l, t = make_tag (g_epoch s) l).
  { intros rt k h s e h' c s' H t Hin.
    apply IterateThroughHeap_cases in H.
    destruct H as [(_ & _ & _ & -> & _) | (_ & _ & Hv)]; [destruct Hin|].
    destruct (visit_tagging rt k h _ _ _ _ _ 1 Hv eq_refl)
      as (k' & _ & _ & _ & _ & _ & new & Hnew & Hall).
    rewrite Hnew in Hin. cbn [tags col_zero app] in Hin.
    rewrite Forall_forall in Hall.
    destruct (Hall t Hin) as (l & _ & ->). exists l. reflexivity. }
  destruct (Hform _ _ _ _ _ _ _ _ H1 t1 Hin1) as (l1 & ->).
  destruct (Hform _ _ _ _ _ _ _ _ H2 t2 Hin2) as (l2 & ->).
  apply make_tag_epoch_inj in Heq. exact (He Heq).
Qed.

Lemma identifiers_of_different_epochs_differ_witness :
  4294967297 <> 8589934593.
Proof.
  apply (identifiers_of_different_epochs_differ
           cooperative_runtime cooperative_runtime
           (Some "A"%string) None [mkObject "A" 0] [mkObject "B" 0]
           (mkState true 1 1 [] []) (mkState true 2 7 [] [])
           JVMTI_ERROR_NONE [mkObject "A" 4294967297]
           (mkCollector [4294967297] 1 128 0) (mkState true 1 2 [] [])
           JVMTI_ERROR_NONE [mkObject "B" 8589934593]
           (mkCollector [8589934593] 1 128 0) (mkState true 2 2 [] [])).
  - reflexivity.
  - reflexivity.
  - vm_compute. discriminate.
  - left. reflexivity.
  - left. reflexivity.
Defined.

(** ** The single-class snapshot: unreadable names *)

(** With a record to store, the encoder leaves a buffer of 4 bytes: the
    count fills it and the first byte of the first identifier is stored at
    offset 11. *)
Lemma encode_snapshot_short found ts lens names buf :
  0 < found -> ts <> [] -> length buf = 4%nat ->
  encode_snapshot found (Some ts) lens names buf = None.
Proof.
  intros Hf Hts Hlen.
  destruct buf as [|a [|b [|c [|d [|? ?]]]]]; try discriminate.
  destruct ts as [|t ts]; [contradiction|].
  unfold encode_snapshot.
  pose proof (put_be32_app [] [a; b; c; d] [] found eq_refl) as H32.
  cbn [app length] in H32. rewrite H32. cbn [bind_opt].
  destruct (Z.to_nat found) as [|m] eqn:Hn; [lia|].
  cbn [encode_records nth_error bind_opt].
  reflexivity.
Qed.

Section SnapshotUnreadable.

Variable rt : runtime.

(** The pre-pass over the names when no name can be read: every entry is
    NULL with length 0 and nothing is added to the size. *)
Lemma resolve_names_unreadable h objects :
  forall names lens total st,
    (forall i, In i objects ->
               bind_opt (nth_error h i)
                        (fun o => display_name rt (obj_class o)) = None) ->
    fst (resolve_names rt h objects names lens total st)
    = Some (names ++ repeat None (length objects),
            lens ++ repeat 0 (length objects), total).
Proof.
  induction objects as [|obj objs IH]; intros names lens total st H.
  - simpl. rewrite !app_nil_r. reflexivity.
  - cbn [resolve_names]. rewrite (H obj (or_introl eq_refl)).
    rewrite IH by (intros i Hi; apply H; right; exact Hi).
    cbn [length repeat]. rewrite <- !app_assoc. reflexivity.
Qed.

End SnapshotUnreadable.

(** X18. When the name of the class cannot be read (agent.c:261-287 leave
    the loop body before the size is raised at agent.c:315) and the class
    has an instance, the output buffer has the 4 bytes of the count while
    the encoder stores a 12-byte record header for every instance
    (agent.c:357-371): the call stores outside the buffer it allocated,
    so it has no defined result. The other requests are assumed to
    succeed. *)
Theorem snapshot_unreadable_name (rt : runtime) (className : string)
    (h : heap_t) (st : agent_state) :
  g_jvmti st = true ->
  utf_chars_ok rt className = true ->
  class_found rt className = true ->
  iterate_fails rt None = false ->
  iterate_fails rt (Some className) = false ->
  visit_abort rt JVMTI_ITERATION_CONTINUE = false ->
  (forall req, get_objects_fails rt req = false) ->
  class_found rt "java/lang/Class" = true ->
  getName_found rt = true ->
  plan_succeeds st ->
  display_name rt className = None ->
  (0 < instances className h)%nat ->
  Z.of_nat (instances className h) < 2 ^ 31 ->
  fst (fst (Java_migrator_heap_NativeHeapWalker_nativeSnapshotBytes rt
              (Some className) h st)) = Undefined.
Proof.
  intros Hj Hu Hcf Hi Hic Hc Hg HC HN Hp Hdn Hpos Hsz.
  destruct (snapshot_resolution rt className h st Hic Hc Hp Hsz)
    as (col & st3 & Hit & Hcnt & Ht & Hsnd & Hcls & Hp3 & _).
  remember (instances className h) as n eqn:Hndef.
  set (h2 := tag_all (Some className) (g_epoch st) 1 (map untag h)) in *.
  unfold Java_migrator_heap_NativeHeapWalker_nativeSnapshotBytes.
  rewrite Hj. cbn [negb].
  rewrite clear_all_tags_eq, Hj, Hi, Hc. cbn [negb orb].
  rewrite Hu, Hcf. cbn [negb]. rewrite Hit.
  assert (Hlen : length (tags col) = n).
  { rewrite Ht, length_map, length_seq. reflexivity. }
  unfold resolve_collected. rewrite Hcnt.
  replace (Z.of_nat n >? 0) with true by (symmetry; apply Z.gtb_lt; lia).
  unfold GetObjectsWithTags.
  rewrite Nat2Z.id, <- Hlen, firstn_all, Hg.
  set (r := listing rt (objects_with_tags (tags col) h2)) in *.
  assert (Hlr : length r = n).
  { unfold r. rewrite listing_length, <- (length_map snd), Hsnd.
    exact Hlen. }
  rewrite HC, HN. cbn [negb].
  unfold allocate_name_arrays.
  replace (Z.of_nat (length r) >? 0) with true
    by (symmetry; apply Z.gtb_lt; lia).
  set (st4 := set_local_refs st3 (local_refs st3 ++ map fst r)).
  assert (Hp4 : plan_succeeds st4) by exact Hp3.
  destruct (request_memory_succeeds st4 Hp4) as [Hok1 Hp5].
  destruct (request_memory st4) as [ok1 st5]. cbn [fst snd] in *.
  destruct (request_memory_succeeds st5 Hp5) as [Hok2 Hp6].
  destruct (request_memory st5) as [ok2 st6]. cbn [fst snd] in *.
  subst ok1 ok2. cbn [andb negb].
  unfold first_objects. rewrite Nat2Z.id.
  rewrite <- (length_map fst r), firstn_all.
  assert (Hnone : forall i, In i (map fst r) ->
             bind_opt (nth_error h2 i)
                      (fun o => display_name rt (obj_class o)) = None).
  { intros i Hin. apply in_map_iff in Hin.
    destruct Hin as ([j t] & <- & Hin). cbn [fst].
    apply listing_in in Hin.
    destruct (Hcls j t Hin) as (o & Ho & Hcl).
    rewrite Ho. cbn [bind_opt]. rewrite Hcl. exact Hdn. }
  pose proof (resolve_names_unreadable rt h2 (map fst r) [] [] 4 st6 Hnone)
    as Hres.
  destruct (resolve_names_succeeds rt h2 (map fst r) [] [] 4 st6 Hp6)
    as (res & st7 & Hres' & Hp7 & _).
  rewrite Hres' in *. cbn [fst] in Hres. inversion Hres; subst res.
  cbn [app]. change (4 >? INT_MAX) with false. cbv iota.
  destruct (request_memory_succeeds st7 Hp7) as [Hok8 _].
  destruct (request_memory st7) as [ok8 st8]. cbn [fst] in Hok8.
  subst ok8. cbn [negb].
  rewrite encode_snapshot_short;
    [reflexivity | | | apply length_malloc_buffer].
  - rewrite length_map. lia.
  - intros Hnil. apply (f_equal (@length Z)) in Hnil.
    rewrite length_map in Hnil. simpl in Hnil. lia.
Qed.

Lemma snapshot_unreadable_name_witness :
  fst (fst (Java_migrator_heap_NativeHeapWalker_nativeSnapshotBytes
              runtime_unreadable_names (Some "A"%string)
              [mkObject "B" 0; mkObject "A" 3; mkObject "A" 0]
              (started_state []))) = Undefined.
Proof.
  apply (snapshot_unreadable_name runtime_unreadable_names "A"
           [mkObject "B" 0; mkObject "A" 3; mkObject "A" 0]
           (started_state [])); try reflexivity.
  - constructor.
  - vm_compute. lia.
Defined.

(** ** The single-class snapshot: a returned array *)

Lemma snapshot_bytes_layout_witness :
  exists resolved : list (jobject * Z),
    [0; 0; 0; 1; 0; 0; 0; 1; 0; 0; 0; 1; 0; 0; 0; 1; 65]
    = snapshot_layout
        (snapshot_records runtime_constant_name
           [mkObject "A" 4294967297; mkObject "B" 0] resolved) /\
    (forall i t, In (i, t) resolved ->
                 exists o,
                   nth_error [mkObject "A" 4294967297; mkObject "B" 0] i
                   = Some o /\ obj_tag o = t).
Proof.
  apply (snapshot_bytes_layout runtime_constant_name (Some "A"%string)
           [mkObject "A" 9; mkObject "B" 7] (started_state [])
           [0; 0; 0; 1; 0; 0; 0; 1; 0; 0; 0; 1; 0; 0; 0; 1; 65]
           [mkObject "A" 4294967297; mkObject "B" 0]
           (mkState true 1 2 [] [])).
  - intros c. exists [65]. split; [reflexivity | simpl; lia].
  - simpl. lia.
  - reflexivity.
Defined.

(** ** The multi-class walk: a failed growth of the reference buffer *)



Section GrowthFailure.

Variable rt : runtime.


End GrowthFailure.


